(** * Tehran metro navigator: graph construction and shortest-time search

    A shallow embedding of [metro_navigator.py]: the haversine distance,
    [build_metro_graph] and [dijkstra], together with the properties of the
    graph builder and of the search.

    Numbers.  Python floats are modelled by an abstract carrier [W] with the
    operations the program applies to them (classes [Weight] and
    [Floating]), the comparison with [float('inf')] and the exceptions of
    [math] among them.  The search is proved correct for every carrier
    whose numbers, or those of them that a graph holds, obey the laws of
    a total order and of a monotone sum ([WeightLaws], [LawsOn]): the
    sum may round and may overflow to infinity.  The values of the
    builder are studied at the instance of the real numbers, where the
    trigonometric functions have their meaning; what overflow does to
    the search is shown on the binary64 floats of the kernel.

    Dictionaries.  A Python [dict] is an association list in insertion
    order: [dict_set] overwrites in place or appends, as assignment does. *)

From Stdlib Require Import List String Ascii Bool Arith Lia Permutation.
From Stdlib Require Import ZArith Reals Lra OrderedTypeEx.
Import ListNotations.

Set Implicit Arguments.
Local Open Scope string_scope.
Local Open Scope list_scope.

(* ================================================================== *)
(** ** Python values used by the program *)

(** Exceptions the modelled code can raise. *)
Inductive exn : Type :=
| KeyError
| TypeError
| ValueError
| ZeroDivisionError.

Inductive result (A : Type) : Type :=
| Ok (a : A)
| Raise (e : exn).
Arguments Ok {A} a.
Arguments Raise {A} e.

Definition bind {A B : Type} (r : result A) (k : A -> result B) : result B :=
  match r with
  | Ok a => k a
  | Raise e => Raise e
  end.

Notation "x <- r ;; k" := (bind r (fun x => k))
  (at level 61, r at next level, right associativity).
Notation "' p <- r ;; k" := (bind r (fun p => k))
  (at level 61, p pattern, r at next level, right associativity).

(** [x in l] for a list of strings. *)
Fixpoint str_in (x : string) (l : list string) : bool :=
  match l with
  | [] => false
  | y :: l' => if String.eqb x y then true else str_in x l'
  end.

(* ------------------------------------------------------------------ *)
(** *** Dictionaries with string keys *)

Definition dict (V : Type) : Type := list (string * V).

Definition dict_keys {V : Type} (d : dict V) : list string := map fst d.

(** [d[k]]: [None] stands for [KeyError]. *)
Fixpoint dict_get {V : Type} (d : dict V) (k : string) : option V :=
  match d with
  | [] => None
  | (k', v) :: d' => if String.eqb k k' then Some v else dict_get d' k
  end.

(** [k in d] *)
Definition dict_mem {V : Type} (d : dict V) (k : string) : bool :=
  match dict_get d k with
  | Some _ => true
  | None => false
  end.

(** [d[k] = v]: an existing key keeps its position, a new key goes last. *)
Fixpoint dict_set {V : Type} (d : dict V) (k : string) (v : V) : dict V :=
  match d with
  | [] => [(k, v)]
  | (k', v') :: d' =>
      if String.eqb k k' then (k', v) :: d' else (k', v') :: dict_set d' k v
  end.

(** [{k: c for k in d}] *)
Definition dict_const {V U : Type} (d : dict V) (c : U) : dict U :=
  map (fun kv => (fst kv, c)) d.

(** No key occurs twice: the representation invariant of a [dict]. *)
Fixpoint nodup_keys (l : list string) : bool :=
  match l with
  | [] => true
  | k :: l' => negb (str_in k l') && nodup_keys l'
  end.

Definition dict_wf {V : Type} (d : dict V) : bool := nodup_keys (dict_keys d).

(* ------------------------------------------------------------------ *)
(** *** Numbers *)

(** What [dijkstra] does with a number: the literal [0], [+], [<], [==],
    and the comparison with the float infinity, [x < float('inf')], which
    is false of the infinity itself and of NaN. *)
Class Weight (W : Type) : Type := {
  w0 : W;
  wadd : W -> W -> W;
  wltb : W -> W -> bool;
  weqb : W -> W -> bool;
  wlt_inf : W -> bool
}.

(** [a <= b], as the negation of [b < a]. *)
Definition wle {W : Type} `{Weight W} (a b : W) : Prop := wltb b a = false.

(** The laws of a totally ordered carrier on which the sum is monotone,
    and in which what is below a number below infinity is below
    infinity.  Addition need not be associative, and the carrier may
    hold an infinite number.  [LawsOn] asks the same of a part of a
    carrier only, as of the floats that are not NaN and not negative. *)
Class WeightLaws (W : Type) `{Weight W} : Prop := {
  weqb_eq : forall a b : W, weqb a b = true <-> a = b;
  wltb_irrefl : forall a : W, wltb a a = false;
  wltb_trans : forall a b c : W,
      wltb a b = true -> wltb b c = true -> wltb a c = true;
  wltb_total : forall a b : W, wltb a b = false -> wltb b a = false -> a = b;
  wadd_0_r : forall a : W, wadd a w0 = a;
  wadd_mono_l : forall a b w : W, wle a b -> wle (wadd a w) (wadd b w);
  wadd_mono_r : forall a b c : W, wle b c -> wle (wadd a b) (wadd a c);
  wlt_inf_0 : wlt_inf w0 = true;
  wlt_inf_le : forall a b : W, wle a b -> wlt_inf b = true -> wlt_inf a = true
}.
Arguments WeightLaws W {_}.

(** A distance is a number the search computed, [Fin], or the
    [float('inf')] every station starts with, [Inf]. *)
Inductive ext (W : Type) : Type :=
| Fin (x : W)
| Inf.
Arguments Fin {W} x.
Arguments Inf {W}.

(** [a < b] on distances.  The infinity of the table is an ordinary
    float: a number is below it when [x < float('inf')] holds, which
    fails for a sum that overflowed and for NaN, and it is below
    nothing. *)
Definition ext_ltb {W : Type} `{Weight W} (a b : ext W) : bool :=
  match a, b with
  | Fin x, Fin y => wltb x y
  | Fin x, Inf => wlt_inf x
  | Inf, _ => false
  end.
Arguments ext_ltb : simpl never.

(* ================================================================== *)
(** ** The search: [dijkstra] *)

(** The graph: station -> (neighbour -> minutes). *)
Definition graph (W : Type) : Type := dict (dict W).

(** The result of a query: [(time, path)] or [(None, None)]. *)
Inductive route (W : Type) : Type :=
| Route (time : ext W) (path : list string)
| NoRoute.
Arguments Route {W} time path.
Arguments NoRoute {W}.

(** The working structures of one query. *)
Record state (W : Type) : Type := mkState {
  distances : dict (ext W);
  previous_nodes : dict (option string);
  priority_queue : list (W * string)
}.
Arguments mkState {W} _ _ _.

Section Search.
Context {W : Type} `{Weight W}.

(** *** The frontier: [heapq] on [(distance, node)] tuples *)

(** Tuple comparison: the first components decide unless they are equal. *)
Definition entry_ltb (a b : W * string) : bool :=
  if weqb (fst a) (fst b) then String.ltb (snd a) (snd b)
  else wltb (fst a) (fst b).

Definition entry_eqb (a b : W * string) : bool :=
  weqb (fst a) (fst b) && String.eqb (snd a) (snd b).

(** The smallest item of [x :: l]. *)
Fixpoint heap_min (x : W * string) (l : list (W * string)) : W * string :=
  match l with
  | [] => x
  | y :: l' => heap_min (if entry_ltb y x then y else x) l'
  end.

(** One occurrence of [m] leaves the heap. *)
Fixpoint heap_remove (m : W * string) (l : list (W * string))
  : list (W * string) :=
  match l with
  | [] => []
  | y :: l' => if entry_eqb m y then l' else y :: heap_remove m l'
  end.

(** [heapq.heappop]: pops and returns the smallest item; [None] on an
    empty heap (the loop tests the heap before it pops). *)
Definition heappop (pq : list (W * string))
  : option ((W * string) * list (W * string)) :=
  match pq with
  | [] => None
  | x :: l => let m := heap_min x l in Some (m, heap_remove m pq)
  end.

(** [heapq.heappush] *)
Definition heappush (pq : list (W * string)) (x : W * string)
  : list (W * string) := pq ++ [x].

(** *** Path reconstruction

    [while current_node is not None: path.insert(0, current_node);
     current_node = previous_nodes[current_node]].
    [None]: the loop did not finish within [fuel] rounds. *)
Fixpoint reconstruct (fuel : nat) (previous : dict (option string))
         (current_node : option string) (path : list string)
  : option (result (list string)) :=
  match current_node with
  | None => Some (Ok path)
  | Some c =>
      match fuel with
      | O => None
      | S fuel' =>
          match dict_get previous c with
          | None => Some (Raise KeyError)
          | Some p => reconstruct fuel' previous p (c :: path)
          end
      end
  end.

Variable g : graph W.
Variable end_node : string.
Variable disabled_stations : list string.

(** *** The loop over the neighbours of the current node

    [None] stands for the [KeyError] of [distances[neighbor]]. *)
Fixpoint relax (current_distance : W) (current_node : string)
         (items : list (string * W)) (st : state W) : option (state W) :=
  match items with
  | [] => Some st
  | (neighbor, weight) :: items' =>
      if str_in neighbor disabled_stations
      then relax current_distance current_node items' st
      else
        let distance := wadd current_distance weight in
        match dict_get (distances st) neighbor with
        | None => None
        | Some dn =>
            if ext_ltb (Fin distance) dn
            then relax current_distance current_node items'
                   (mkState
                      (dict_set (distances st) neighbor (Fin distance))
                      (dict_set (previous_nodes st) neighbor
                                (Some current_node))
                      (heappush (priority_queue st) (distance, neighbor)))
            else relax current_distance current_node items' st
        end
  end.

(** *** The main loop

    [rfuel] bounds the path reconstruction, [fuel] the rounds of the
    [while priority_queue] loop; [None]: not finished within [fuel]. *)
Fixpoint dijkstra_loop (rfuel fuel : nat) (st : state W)
  : option (result (route W)) :=
  match fuel with
  | O => None
  | S fuel' =>
      match heappop (priority_queue st) with
      | None => Some (Ok NoRoute)
      | Some ((current_distance, current_node), pq') =>
          let st' := mkState (distances st) (previous_nodes st) pq' in
          if str_in current_node disabled_stations
          then dijkstra_loop rfuel fuel' st'
          else
            match dict_get (distances st) current_node with
            | None => Some (Raise KeyError)
            | Some dc =>
                if ext_ltb dc (Fin current_distance)
                then dijkstra_loop rfuel fuel' st'
                else if String.eqb current_node end_node
                then
                  match reconstruct rfuel (previous_nodes st)
                                    (Some current_node) [] with
                  | None => None
                  | Some (Raise e) => Some (Raise e)
                  | Some (Ok path) =>
                      match dict_get (distances st) end_node with
                      | None => Some (Raise KeyError)
                      | Some t => Some (Ok (Route t path))
                      end
                  end
                else
                  match dict_get g current_node with
                  | None => Some (Raise KeyError)
                  | Some items =>
                      match relax current_distance current_node items st'
                      with
                      | None => Some (Raise KeyError)
                      | Some st'' => dijkstra_loop rfuel fuel' st''
                      end
                  end
            end
      end
  end.

(** The state before the first round. *)
Definition initial_state (start_node : string) : state W :=
  mkState (dict_set (dict_const g Inf) start_node (Fin w0))
          (dict_const g None)
          [(w0, start_node)].

Definition dijkstra_fuel (fuel : nat) (start_node : string)
  : option (result (route W)) :=
  dijkstra_loop fuel fuel (initial_state start_node).

End Search.

(** The number of directed edge entries of a graph. *)
Definition edge_count {W : Type} (g : graph W) : nat :=
  fold_right (fun kv n => List.length (snd kv) + n) 0 g.

(** [dijkstra(graph, start_node, end_node, disabled_stations)], run for as
    many rounds as the graph can ask for (see [dijkstra_fuel_enough]). *)
Definition dijkstra {W : Type} `{Weight W} (g : graph W)
           (start_node end_node : string) (disabled_stations : list string)
  : option (result (route W)) :=
  dijkstra_fuel g end_node disabled_stations (edge_count g + 2) start_node.

(* ================================================================== *)
(** ** The graph builder: [build_metro_graph] *)

(** What the builder does with a number beyond [Weight]: integer literals,
    [-], [*], [/], and the functions of [math] and [float].  [fis_inf] is
    [math.isinf]: the sine and the cosine of an infinite number are a
    [ValueError]. *)
Class Floating (W : Type) `{Weight W} : Type := {
  of_Z : Z -> W;
  fsub : W -> W -> W;
  fmul : W -> W -> W;
  fdiv : W -> W -> W;
  fsin : W -> W;
  fcos : W -> W;
  fsqrt : W -> W;
  fatan2 : W -> W -> W;
  fradians : W -> W;
  fis_inf : W -> bool;
  float_of_str : string -> option W
}.
Arguments Floating W {_}.

(** A value read from the station file. *)
#[warnings="-register-all"]
Inductive json (W : Type) : Type :=
| JNull
| JBool (b : bool)
| JNumber (x : W)
| JString (s : string)
| JArray (l : list (json W))
| JObject (l : list (string * json W)).
Arguments JNull {W}.
Arguments JBool {W} b.
Arguments JNumber {W} x.
Arguments JString {W} s.
Arguments JArray {W} l.
Arguments JObject {W} l.

(** One station of the input: a key that is absent is [None]. *)
Record station_record (W : Type) : Type := mkRecord {
  latitude : option (json W);
  longitude : option (json W);
  lines : option (list string);
  relations : option (list string)
}.
Arguments mkRecord {W} _ _ _ _.

(** One entry of [station_details]. *)
Record station_detail (W : Type) : Type := mkDetail {
  detail_latitude : option W;
  detail_longitude : option W;
  detail_lines : list string
}.
Arguments mkDetail {W} _ _ _.

(** [set(l)]: the distinct elements of [l]. *)
Fixpoint py_set (l : list string) : list string :=
  match l with
  | [] => []
  | x :: l' => if str_in x l' then py_set l' else x :: py_set l'
  end.

(** [s1.intersection(s2)] *)
Definition set_intersection (s1 s2 : list string) : list string :=
  filter (fun x => str_in x s2) s1.

(** Truth value of a collection: empty is false. *)
Definition truthy {A : Type} (l : list A) : bool :=
  match l with
  | [] => false
  | _ :: _ => true
  end.

Section Build.
Context {W : Type} `{Floating W}.

(** [x / y] raises on a zero divisor. *)
Definition py_div (x y : W) : result W :=
  if weqb y w0 then Raise ZeroDivisionError else Ok (fdiv x y).

(** [math.sqrt(x)] raises on a negative argument. *)
Definition py_sqrt (x : W) : result W :=
  if wltb x w0 then Raise ValueError else Ok (fsqrt x).

(** [math.sin(x)] and [math.cos(x)] raise on an infinite argument. *)
Definition py_sin (x : W) : result W :=
  if fis_inf x then Raise ValueError else Ok (fsin x).

Definition py_cos (x : W) : result W :=
  if fis_inf x then Raise ValueError else Ok (fcos x).

(** [x ** 2] *)
Definition square (x : W) : W := fmul x x.

(** [float(v)] *)
Definition py_float (v : json W) : result W :=
  match v with
  | JNumber x => Ok x
  | JBool b => Ok (of_Z (if b then 1 else 0))
  | JString s =>
      match float_of_str s with
      | Some x => Ok x
      | None => Raise ValueError
      end
  | JNull => Raise TypeError
  | JArray _ => Raise TypeError
  | JObject _ => Raise TypeError
  end.

Definition EARTH_RADIUS_KM : W := of_Z 6371.

Definition haversine_distance (lat1 lon1 lat2 lon2 : W) : result W :=
  let lat1_rad := fradians lat1 in
  let lon1_rad := fradians lon1 in
  let lat2_rad := fradians lat2 in
  let lon2_rad := fradians lon2 in
  let dlat := fsub lat2_rad lat1_rad in
  let dlon := fsub lon2_rad lon1_rad in
  hlat <- py_div dlat (of_Z 2) ;;
  sin_hlat <- py_sin hlat ;;
  cos_lat1 <- py_cos lat1_rad ;;
  cos_lat2 <- py_cos lat2_rad ;;
  hlon <- py_div dlon (of_Z 2) ;;
  sin_hlon <- py_sin hlon ;;
  let a := wadd (square sin_hlat)
                (fmul (fmul cos_lat1 cos_lat2) (square sin_hlon)) in
  sa <- py_sqrt a ;;
  sb <- py_sqrt (fsub (of_Z 1) a) ;;
  let c := fmul (of_Z 2) (fatan2 sa sb) in
  let distance := fmul EARTH_RADIUS_KM c in
  Ok distance.

(** [float(data[key]) if key in data else None] *)
Definition coordinate (field : option (json W)) : result (option W) :=
  match field with
  | Some v => x <- py_float v ;; Ok (Some x)
  | None => Ok None
  end.

(** [data.get(key, [])] *)
Definition get_list (field : option (list string)) : list string :=
  match field with
  | Some l => l
  | None => []
  end.

(** The first loop: one node and one detail entry per station. *)
Fixpoint add_nodes (items : list (string * station_record W))
         (g : graph W) (station_details : dict (station_detail W))
  : result (graph W * dict (station_detail W)) :=
  match items with
  | [] => Ok (g, station_details)
  | (station_name_en, data) :: items' =>
      let g := dict_set g station_name_en [] in
      lat <- coordinate (latitude data) ;;
      lon <- coordinate (longitude data) ;;
      let station_details :=
        dict_set station_details station_name_en
                 (mkDetail lat lon (get_list (lines data))) in
      add_nodes items' g station_details
  end.

(** [d[k]] as a computation. *)
Definition lookup {V : Type} (d : dict V) (k : string) : result V :=
  match dict_get d k with
  | Some v => Ok v
  | None => Raise KeyError
  end.

(** [graph[a][b] = t] *)
Definition set_edge (g : graph W) (a b : string) (t : W)
  : result (graph W) :=
  nbrs <- lookup g a ;;
  Ok (dict_set g a (dict_set nbrs b t)).

Variable stations_data : dict (station_record W).
Variable train_speed_kmph : W.
Variable line_change_penalty_minutes : W.
Variable station_details : dict (station_detail W).

(** The weight of the edge between two stations with coordinates. *)
Definition edge_minutes (lat1 lon1 lat2 lon2 : W)
           (lines1 lines2 : list string) : result W :=
  distance_km <- haversine_distance lat1 lon1 lat2 lon2 ;;
  q <- py_div distance_km train_speed_kmph ;;
  let travel_time_minutes := fmul q (of_Z 60) in
  let lines_station1 := py_set lines1 in
  let lines_station2 := py_set lines2 in
  if negb (truthy (set_intersection lines_station1 lines_station2))
  then Ok (wadd travel_time_minutes line_change_penalty_minutes)
  else Ok travel_time_minutes.

(** The inner loop of the second pass: the relations of one station. *)
Fixpoint add_relations (station_name_en : string) (rels : list string)
         (g : graph W) : result (graph W) :=
  match rels with
  | [] => Ok g
  | relation_name_en :: rels' =>
      if dict_mem stations_data relation_name_en
      then
        d1 <- lookup station_details station_name_en ;;
        d2 <- lookup station_details relation_name_en ;;
        match detail_latitude d1, detail_longitude d1,
              detail_latitude d2, detail_longitude d2 with
        | Some lat1, Some lon1, Some lat2, Some lon2 =>
            travel_time_minutes <-
              edge_minutes lat1 lon1 lat2 lon2
                           (detail_lines d1) (detail_lines d2) ;;
            g1 <- set_edge g station_name_en relation_name_en
                           travel_time_minutes ;;
            g2 <- set_edge g1 relation_name_en station_name_en
                           travel_time_minutes ;;
            add_relations station_name_en rels' g2
        | _, _, _, _ => add_relations station_name_en rels' g
        end
      else add_relations station_name_en rels' g
  end.

(** The second pass: the stations with coordinates contribute edges. *)
Fixpoint add_edges (items : list (string * station_record W))
         (g : graph W) : result (graph W) :=
  match items with
  | [] => Ok g
  | (station_name_en, data) :: items' =>
      d <- lookup station_details station_name_en ;;
      match detail_latitude d, detail_longitude d with
      | Some _, Some _ =>
          g' <- add_relations station_name_en
                              (get_list (relations data)) g ;;
          add_edges items' g'
      | _, _ => add_edges items' g
      end
  end.

End Build.

Definition build_metro_graph {W : Type} `{Floating W}
           (stations_data : dict (station_record W))
           (train_speed_kmph line_change_penalty_minutes : W)
  : result (graph W * dict (station_detail W)) :=
  '(g, station_details) <- add_nodes stations_data [] [] ;;
  g' <- add_edges stations_data train_speed_kmph
                  line_change_penalty_minutes station_details
                  stations_data g ;;
  Ok (g', station_details).

(* ------------------------------------------------------------------ *)
(** *** An executable carrier: the integers *)

#[export] Instance Weight_Z : Weight Z := {
  w0 := 0%Z;
  wadd := Z.add;
  wltb := Z.ltb;
  weqb := Z.eqb;
  wlt_inf := fun _ => true
}.

(* ------------------------------------------------------------------ *)
(** *** The semantic carrier: the real numbers *)

Definition Rltb (x y : R) : bool := if Rlt_dec x y then true else false.

Definition Reqb (x y : R) : bool := if Req_dec_T x y then true else false.

#[export] Instance Weight_R : Weight R := {
  w0 := 0%R;
  wadd := Rplus;
  wltb := Rltb;
  weqb := Reqb;
  wlt_inf := fun _ => true
}.

(** [math.atan2(y, x)]: the angle of the point [(x, y)], in (-pi, pi]. *)
Definition atan2 (y x : R) : R :=
  if Rlt_dec 0 x then atan (y / x)
  else if Rlt_dec x 0
       then if Rle_dec 0 y then (atan (y / x) + PI)%R
            else (atan (y / x) - PI)%R
       else if Rlt_dec 0 y then (PI / 2)%R
            else if Rlt_dec y 0 then (- (PI / 2))%R
                 else 0%R.

(** [math.radians(x)] *)
Definition radians (x : R) : R := (x * PI / 180)%R.

(** The reals as the builder's numbers; [parse] is [float] on strings. *)
Definition Floating_R (parse : string -> option R) : Floating R := {|
  of_Z := IZR;
  fsub := Rminus;
  fmul := Rmult;
  fdiv := Rdiv;
  fsin := sin;
  fcos := cos;
  fsqrt := sqrt;
  fatan2 := atan2;
  fradians := radians;
  fis_inf := fun _ => false;
  float_of_str := parse
|}.

(* ------------------------------------------------------------------ *)
(** *** Small graphs on the integers *)

(** The graph of the scenarios: X-Y 5, Y-Z 3, X-Z 10. *)
Definition xyz_graph : graph Z :=
  [("X", [("Y", 5%Z); ("Z", 10%Z)]);
   ("Y", [("X", 5%Z); ("Z", 3%Z)]);
   ("Z", [("Y", 3%Z); ("X", 10%Z)])].

(** The same graph with its entries in another order. *)
Definition zyx_graph : graph Z :=
  [("Z", [("X", 10%Z); ("Y", 3%Z)]);
   ("Y", [("Z", 3%Z); ("X", 5%Z)]);
   ("X", [("Z", 10%Z); ("Y", 5%Z)])].

(** Two routes of equal time from X to Z. *)
Definition tie_graph : graph Z :=
  [("X", [("Y", 5%Z); ("Z", 10%Z)]);
   ("Y", [("X", 5%Z); ("Z", 5%Z)]);
   ("Z", [("Y", 5%Z); ("X", 10%Z)])].

(* ================================================================== *)
(** ** The command line: [main] *)

From Stdlib Require Import Sorting.Sorted.
From Corelib Require PrimFloat.

(** [main] reads [stations.json], builds the graph with the default
    speed and penalty, prints the sorted station names and then answers
    queries read from the standard input.  The model takes what the
    outside world supplies as arguments -- the outcome of loading the
    file and the lines of the input -- and returns the lines written and
    the way the function ends.  The string methods [strip] and [lower]
    are arguments too: nothing below depends on what they do.  A line
    written is a value of [output], one constructor per [print] or
    prompt, carrying the data the text is formatted from. *)

(** What [main] can raise: an exception of the core, the end of the
    input at an [input()], another error of [open] or [json.load], or
    what the first loop of the builder raises on a file that is not a
    dictionary of dictionaries -- the [AttributeError] or [TypeError] of
    the value that is not one, or the error of a coordinate of a station
    before it. *)
Inductive main_exn : Type :=
| Core (e : exn)
| EOFError
| LoadError
| DataError.

(** The outcome of opening and decoding the station file.

    [Loaded]: the file holds a dictionary of station records, objects
    whose [lines] and [relations], where present, are lists of names.

    [NotStations]: the file is valid JSON of another shape at the top: a
    list, a string, a number, [true], [false] or [null], which have no
    [items], or a dictionary one of whose values is not a dictionary, on
    which the first loop of the builder fails at [in], at the subscript
    or at [get].  The exception is raised after the first line is
    written, by the call of the builder, which is outside every [try].

    [OtherLoadError]: [open] or [json.load] raised something else than
    the two exceptions that are handled. *)
Inductive load_result (W : Type) : Type :=
| Loaded (stations_data : dict (station_record W))
| NotStations
| FileNotFoundError
| JSONDecodeError
| OtherLoadError.
Arguments Loaded {W} stations_data.
Arguments NotStations {W}.
Arguments FileNotFoundError {W}.
Arguments JSONDecodeError {W}.
Arguments OtherLoadError {W}.

(** The lines written, prompts of [input()] included. *)
Inductive output (W : Type) : Type :=
| DataLoaded
| FileNotFound
| InvalidJson
| GraphBuilt
| StationsHeader
| StationLine (i : nat) (name : string)
| PromptStart
| InvalidStart
| PromptEnd
| InvalidEnd
| PromptDisabled
| WarnInvalidDisabled (names : list string)
| StartDisabled
| EndDisabled
| RouteHeader
| RouteLine (path : list string)
| TimeLine (time : ext W)
| NoPathFound
| ErrorOccurred (e : main_exn)
| PromptAgain.
Arguments DataLoaded {W}.
Arguments FileNotFound {W}.
Arguments InvalidJson {W}.
Arguments GraphBuilt {W}.
Arguments StationsHeader {W}.
Arguments StationLine {W} i name.
Arguments PromptStart {W}.
Arguments InvalidStart {W}.
Arguments PromptEnd {W}.
Arguments InvalidEnd {W}.
Arguments PromptDisabled {W}.
Arguments WarnInvalidDisabled {W} names.
Arguments StartDisabled {W}.
Arguments EndDisabled {W}.
Arguments RouteHeader {W}.
Arguments RouteLine {W} path.
Arguments TimeLine {W} time.
Arguments NoPathFound {W}.
Arguments ErrorOccurred {W} e.
Arguments PromptAgain {W}.

(** How [main] ends: it returns, or an exception leaves it. *)
Inductive ending : Type :=
| Returned
| Uncaught (e : main_exn).

(** [sorted(l)] for strings, which Python compares by code point: the
    order of the bytes of their UTF-8 encoding. *)
Fixpoint insert_sorted (x : string) (l : list string) : list string :=
  match l with
  | [] => [x]
  | y :: l' => if String.leb x y then x :: l else y :: insert_sorted x l'
  end.

Definition sorted (l : list string) : list string :=
  fold_right insert_sorted [] l.

(** [s.split(',')] *)
Fixpoint split_comma (s : string) : list string :=
  match s with
  | EmptyString => [EmptyString]
  | String c s' =>
      if Ascii.eqb c ","%char then EmptyString :: split_comma s'
      else match split_comma s' with
           | [] => [String c EmptyString]
           | w :: ws => String c w :: ws
           end
  end.

(** Truth value of a string: empty is false. *)
Definition str_truthy (s : string) : bool := negb (String.eqb s "").

(** The lines of [for i, name in enumerate(names): print(i+1, name)],
    from index [i] on. *)
Fixpoint station_lines {W : Type} (i : nat) (names : list string)
  : list (output W) :=
  match names with
  | [] => []
  | name :: names' => StationLine (i + 1) name :: station_lines (S i) names'
  end.

(** Lines written before the rest of a run. *)
Definition and_then {W : Type} (out : list (output W))
           (rest : option (list (output W) * ending))
  : option (list (output W) * ending) :=
  match rest with
  | Some (out', e) => Some (out ++ out', e)
  | None => None
  end.

Section Main.
Context {W : Type} `{Floating W}.
Variable strip : string -> string.
Variable lower : string -> string.

Variable metro_graph : graph W.
Variable available_stations_en : list string.

(** [disabled_en_names], after the names that are not stations are
    filtered out, and the warning printed when there are any. *)
Definition disabled_names (line : string) : list string :=
  let disabled_input := strip line in
  map strip (filter (fun s => str_truthy (strip s))
                    (split_comma disabled_input)).

Definition invalid_disabled (disabled_en_names : list string)
  : list string :=
  filter (fun name => negb (str_in name available_stations_en))
         disabled_en_names.

Definition valid_disabled (disabled_en_names : list string)
  : list string :=
  if truthy (invalid_disabled disabled_en_names)
  then filter (fun name => str_in name available_stations_en)
              disabled_en_names
  else disabled_en_names.

Definition disabled_warning (disabled_en_names : list string)
  : list (output W) :=
  if truthy (invalid_disabled disabled_en_names)
  then [WarnInvalidDisabled (invalid_disabled disabled_en_names)]
  else [].

(** The body of the [try] of one round: the lines written, the input
    left, and whether the round ended in [continue].  An [input()] at
    the end of the input raises [EOFError], which the handler reports
    as any exception of the search would be.  [None]: the search ran
    out of rounds. *)
Definition query (inputs : list string)
  : option (list (output W) * list string * bool) :=
  match inputs with
  | [] => Some ([PromptStart; ErrorOccurred EOFError], [], false)
  | line1 :: inputs1 =>
      let start_en := strip line1 in
      if negb (str_in start_en available_stations_en)
      then Some ([PromptStart; InvalidStart], inputs1, true)
      else
        match inputs1 with
        | [] =>
            Some ([PromptStart; PromptEnd; ErrorOccurred EOFError],
                  [], false)
        | line2 :: inputs2 =>
            let end_en := strip line2 in
            if negb (str_in end_en available_stations_en)
            then Some ([PromptStart; PromptEnd; InvalidEnd], inputs2, true)
            else
              match inputs2 with
              | [] =>
                  Some ([PromptStart; PromptEnd; PromptDisabled;
                         ErrorOccurred EOFError], [], false)
              | line3 :: inputs3 =>
                  let disabled_en_names := disabled_names line3 in
                  let asked :=
                    [PromptStart; PromptEnd; PromptDisabled]
                      ++ disabled_warning disabled_en_names in
                  let disabled_en_names :=
                    valid_disabled disabled_en_names in
                  if str_in start_en disabled_en_names
                  then Some (asked ++ [StartDisabled], inputs3, true)
                  else if str_in end_en disabled_en_names
                  then Some (asked ++ [EndDisabled], inputs3, true)
                  else
                    match dijkstra metro_graph start_en end_en
                                   disabled_en_names with
                    | None => None
                    | Some (Raise e) =>
                        Some (asked ++ [ErrorOccurred (Core e)],
                              inputs3, false)
                    | Some (Ok (Route shortest_time path_en)) =>
                        Some (asked ++ [RouteHeader; RouteLine path_en;
                                        TimeLine shortest_time],
                              inputs3, false)
                    | Some (Ok NoRoute) =>
                        Some (asked ++ [NoPathFound], inputs3, false)
                    end
              end
        end
  end.

(** [while True]: a round, and unless it ended in [continue] the
    question whether to go on, which is outside the [try]. *)
Fixpoint query_loop (fuel : nat) (inputs : list string)
  : option (list (output W) * ending) :=
  match fuel with
  | O => None
  | S fuel' =>
      match query inputs with
      | None => None
      | Some (out, inputs', true) => and_then out (query_loop fuel' inputs')
      | Some (out, inputs', false) =>
          match inputs' with
          | [] => Some (out ++ [PromptAgain], Uncaught EOFError)
          | line :: inputs'' =>
              let again := lower (strip line) in
              if negb (String.eqb again "yes")
              then Some (out ++ [PromptAgain], Returned)
              else and_then (out ++ [PromptAgain])
                            (query_loop fuel' inputs'')
          end
      end
  end.

End Main.

(** [main()], the result of loading the file and the lines of the input
    given.  Every round reads a line or ends the run, so that one round
    more than there are lines is enough. *)
Definition main {W : Type} `{Floating W} (strip lower : string -> string)
           (load : load_result W) (inputs : list string)
  : option (list (output W) * ending) :=
  match load with
  | FileNotFoundError => Some ([FileNotFound], Returned)
  | JSONDecodeError => Some ([InvalidJson], Returned)
  | OtherLoadError => Some ([], Uncaught LoadError)
  | NotStations => Some ([DataLoaded], Uncaught DataError)
  | Loaded stations_data =>
      match build_metro_graph stations_data (of_Z 40) (of_Z 4) with
      | Raise e => Some ([DataLoaded], Uncaught (Core e))
      | Ok (metro_graph, station_details) =>
          let available_stations_en := sorted (dict_keys station_details) in
          and_then ([DataLoaded; GraphBuilt; StationsHeader]
                      ++ station_lines 0 available_stations_en)
                   (query_loop strip lower metro_graph available_stations_en
                               (S (List.length inputs)) inputs)
      end
  end.

(* ================================================================== *)
(** ** Vocabulary of the specification *)

Section GraphShape.
Context {W : Type} `{Weight W}.

(** No key twice, in the graph and in every neighbour map. *)
Definition graph_wf (g : graph W) : bool :=
  dict_wf g && forallb (fun kv => dict_wf (snd kv)) g.

(** Every neighbour is itself a key of the graph. *)
Definition graph_closed (g : graph W) : bool :=
  forallb (fun kv => forallb (fun e => dict_mem g (fst e)) (snd kv)) g.

(** No edge weight is below zero. *)
Definition graph_nonneg (g : graph W) : bool :=
  forallb (fun kv => forallb (fun e => negb (wltb (snd e) w0)) (snd kv)) g.

(** [graph[u][v]] *)
Definition edge_weight (g : graph W) (u v : string) : option W :=
  match dict_get g u with
  | Some nbrs => dict_get nbrs v
  | None => None
  end.

(** The weights of the edges of [u :: rest], added to [acc] from the
    start of the path onwards; [None] when a pair is not an edge. *)
Fixpoint path_cost_from (g : graph W) (acc : W) (u : string)
         (rest : list string) : option W :=
  match rest with
  | [] => Some acc
  | v :: rest' =>
      match edge_weight g u v with
      | Some w => path_cost_from g (wadd acc w) v rest'
      | None => None
      end
  end.

Definition path_cost (g : graph W) (p : list string) : option W :=
  match p with
  | [] => None
  | u :: rest => path_cost_from g w0 u rest
  end.

(** [p] leads from [s] to [e] through stations that are not disabled,
    along edges of the graph, and its edges weigh [c] in total. *)
Definition is_path (g : graph W) (disabled : list string)
           (s e : string) (p : list string) (c : W) : Prop :=
  hd_error p = Some s /\ last p s = e /\
  (forall x, In x p -> str_in x disabled = false) /\
  path_cost g p = Some c.

(** Every consecutive pair of [p] is an edge of the graph. *)
Fixpoint consecutive_edges (g : graph W) (p : list string) : Prop :=
  match p with
  | [] => True
  | u :: rest =>
      match rest with
      | [] => True
      | v :: _ => edge_weight g u v <> None /\ consecutive_edges g rest
      end
  end.

End GraphShape.

(* ------------------------------------------------------------------ *)
(** ** Invariants of the search *)

Section SearchInvariants.
Context {W : Type} `{Weight W}.
Variable g : graph W.
Variable start_node : string.
Variable disabled_stations : list string.

(** The distance recorded for [v] is finite. *)
Definition reached (st : state W) (v : string) : Prop :=
  exists d, dict_get (distances st) v = Some (Fin d).

(** The predecessor links form a tree of edges rooted at the start: a
    link [u -> v] is an edge whose source has been reached, only the
    start is reached without a predecessor, and every node of the
    frontier is reached. *)
Definition tree_inv (st : state W) : Prop :=
  (forall v u, dict_get (previous_nodes st) v = Some (Some u) ->
               edge_weight g u v <> None /\ reached st u) /\
  (forall v, reached st v ->
             dict_get (previous_nodes st) v = Some None ->
             v = start_node) /\
  (forall d v, In (d, v) (priority_queue st) -> reached st v).

(** Every key of the graph has a distance and a predecessor entry, and
    the frontier and the predecessor links hold keys of the graph. *)
Definition keys_inv (st : state W) : Prop :=
  (forall v, dict_mem g v = true ->
             dict_get (distances st) v <> None /\
             dict_get (previous_nodes st) v <> None) /\
  (forall d v, In (d, v) (priority_queue st) -> dict_mem g v = true) /\
  (forall v u, dict_get (previous_nodes st) v = Some (Some u) ->
               dict_mem g u = true).

Variable end_node : string.

(** [walk v c]: some path of the graph without the disabled stations
    leads from the start to [v], and its edges weigh [c] in total. *)
Inductive walk : string -> W -> Prop :=
| walk_start :
    str_in start_node disabled_stations = false -> walk start_node w0
| walk_step u c nbrs v w :
    walk u c -> dict_get g u = Some nbrs -> In (v, w) nbrs ->
    str_in v disabled_stations = false -> walk v (wadd c w).

(** The expanded nodes, newest first: each one but the start has its
    predecessor among the nodes expanded before it. *)
Fixpoint chain_ok (previous : dict (option string)) (settled : list string)
  : Prop :=
  match settled with
  | [] => True
  | v :: settled' =>
      (v = start_node \/
       exists u, dict_get previous v = Some (Some u) /\ In u settled') /\
      chain_ok previous settled'
  end.

(** The edge entries of the nodes that are not expanded yet. *)
Fixpoint potential (settled : list string) (gr : graph W) : nat :=
  match gr with
  | [] => 0
  | (k, nbrs) :: gr' =>
      (if str_in k settled then 0 else List.length nbrs)
      + potential settled gr'
  end.

(** The edge [u -> v] of weight [w] has been relaxed: when the sum at
    [v] is below infinity, [v] has a distance that is at most it. *)
Definition relaxed (st : state W) (u v : string) (w : W) : Prop :=
  str_in v disabled_stations = false ->
  exists du, dict_get (distances st) u = Some (Fin du) /\
             (wlt_inf (wadd du w) = true ->
              exists dv, dict_get (distances st) v = Some (Fin dv) /\
                         wle dv (wadd du w)).

Definition relaxed_all (st : state W) (settled : list string) : Prop :=
  forall u nbrs v w,
    In u settled -> dict_get g u = Some nbrs -> In (v, w) nbrs ->
    relaxed st u v w.

(** The invariant of the [while] loop; [settled] lists the nodes whose
    neighbours have been looked at. *)
Record search_inv (st : state W) (settled : list string) : Prop := {
  si_start :
    dict_get (distances st) start_node = Some (Fin w0) /\
    dict_get (previous_nodes st) start_node = Some None;
  si_nonneg :
    forall v d, dict_get (distances st) v = Some (Fin d) -> wle w0 d;
  si_finite :
    forall v d, dict_get (distances st) v = Some (Fin d) ->
                wlt_inf d = true;
  si_queue :
    forall d v, In (d, v) (priority_queue st) ->
                exists d', dict_get (distances st) v = Some (Fin d') /\
                           wle d' d;
  si_nodup : NoDup (priority_queue st);
  si_tree :
    forall v d, v <> start_node ->
                dict_get (distances st) v = Some (Fin d) ->
                str_in v disabled_stations = false /\
                exists u du w,
                  dict_get (previous_nodes st) v = Some (Some u) /\
                  In u settled /\
                  dict_get (distances st) u = Some (Fin du) /\
                  edge_weight g u v = Some w /\
                  d = wadd du w;
  si_walk :
    forall v d, dict_get (distances st) v = Some (Fin d) ->
                str_in v disabled_stations = false -> walk v d;
  si_settled :
    forall u, In u settled ->
              str_in u disabled_stations = false /\ u <> end_node /\
              exists du, dict_get (distances st) u = Some (Fin du) /\
                         (forall d v, In (d, v) (priority_queue st) ->
                                      wle du d) /\
                         (forall d, In (d, u) (priority_queue st) ->
                                    wltb du d = true);
  si_frontier :
    forall v d, dict_get (distances st) v = Some (Fin d) ->
                str_in v disabled_stations = false ->
                ~ In v settled -> In (d, v) (priority_queue st);
  si_chain : chain_ok (previous_nodes st) settled
}.

(** While the neighbours of a popped node are looked at: no expanded
    node lies beyond the popped distance [cd]. *)
Definition settled_below (st : state W) (settled : list string) (cd : W)
  : Prop :=
  forall u, In u settled ->
            exists du, dict_get (distances st) u = Some (Fin du) /\
                       wle du cd.

(** What the search owes its caller: a path whose cost is below
    infinity and that no path beats, or the answer that every path
    costs infinity or more, if there is one at all. *)
Definition search_post (r : route W) : Prop :=
  match r with
  | Route t path =>
      exists d, t = Fin d /\
                is_path g disabled_stations start_node end_node path d /\
                wlt_inf d = true /\
                forall c, walk end_node c -> wle d c
  | NoRoute => forall c, walk end_node c -> wlt_inf c = false
  end.

End SearchInvariants.

(* ------------------------------------------------------------------ *)
(** ** Two runs of the search *)

(** Two dictionaries with the same entries, in whatever order: what
    [==] decides on two [dict]s. *)
Definition same_dict {V : Type} (d d' : dict V) : Prop :=
  forall k, dict_get d k = dict_get d' k.

(** Two graphs with the same stations and, for each, the same neighbours
    with the same weights, in whatever order. *)
Definition same_graph {W : Type} (g g' : graph W) : Prop :=
  forall k,
    match dict_get g k, dict_get g' k with
    | Some l, Some l' => Permutation l l'
    | None, None => True
    | _, _ => False
    end.

(** Two working states that differ only in the order of the entries of
    their dictionaries and in how the frontier is laid out. *)
Definition same_state {W : Type} (st st' : state W) : Prop :=
  same_dict (distances st) (distances st') /\
  same_dict (previous_nodes st) (previous_nodes st') /\
  Permutation (priority_queue st) (priority_queue st').

Definition same_outcome {W : Type} (a b : option (state W)) : Prop :=
  match a, b with
  | Some x, Some y => same_state x y
  | None, None => True
  | _, _ => False
  end.

(** [m] is a smallest item of the heap [pq]. *)
Definition is_min {W : Type} `{Weight W} (m : W * string)
           (pq : list (W * string)) : Prop :=
  In m pq /\ forall y, In y pq -> entry_ltb y m = false.

(* ------------------------------------------------------------------ *)
(** ** Invariants of the builder *)

Section BuildInvariants.
Context {W : Type} `{Floating W}.
Variable stations_data : dict (station_record W).
Variable train_speed_kmph : W.
Variable line_change_penalty_minutes : W.
Variable station_details : dict (station_detail W).

(** The two stations have coordinates. *)
Definition both_located (u v : string) (lat1 lon1 lat2 lon2 : W)
           (lines1 lines2 : list string) : Prop :=
  exists du dv,
    dict_get station_details u = Some du /\
    dict_get station_details v = Some dv /\
    detail_latitude du = Some lat1 /\ detail_longitude du = Some lon1 /\
    detail_latitude dv = Some lat2 /\ detail_longitude dv = Some lon2 /\
    detail_lines du = lines1 /\ detail_lines dv = lines2.

(** The weight [w] of the edge between [u] and [v] is the value the
    builder computes for the pair, in one direction or the other. *)
Definition edge_justified (u v : string) (w : W) : Prop :=
  exists lat1 lon1 lat2 lon2 lines1 lines2,
    both_located u v lat1 lon1 lat2 lon2 lines1 lines2 /\
    (edge_minutes train_speed_kmph line_change_penalty_minutes
                  lat1 lon1 lat2 lon2 lines1 lines2 = Ok w \/
     edge_minutes train_speed_kmph line_change_penalty_minutes
                  lat2 lon2 lat1 lon1 lines2 lines1 = Ok w).

(** The invariant of the second pass. *)
Record build_inv (g : graph W) : Prop := {
  bi_keys : forall x, dict_mem g x = dict_mem stations_data x;
  bi_wf : dict_wf g = true;
  bi_wf_inner : forall u nbrs, dict_get g u = Some nbrs ->
                               dict_wf nbrs = true;
  bi_closed : forall u v w, edge_weight g u v = Some w ->
                            dict_mem stations_data v = true;
  bi_sym : forall u v, edge_weight g u v = edge_weight g v u;
  bi_just : forall u v w, edge_weight g u v = Some w ->
                          edge_justified u v w
}.

End BuildInvariants.

(* ------------------------------------------------------------------ *)
(** ** The haversine term on the reals *)

(** The quantity [a] of [haversine_distance]. *)
Definition haversine_a (lat1 lon1 lat2 lon2 : R) : R :=
  (sin ((radians lat2 - radians lat1) / 2)
   * sin ((radians lat2 - radians lat1) / 2)
   + cos (radians lat1) * cos (radians lat2)
     * (sin ((radians lon2 - radians lon1) / 2)
        * sin ((radians lon2 - radians lon1) / 2)))%R.

(** The distance [haversine_distance] returns. *)
Definition haversine_km (lat1 lon1 lat2 lon2 : R) : R :=
  (6371 * (2 * atan2 (sqrt (haversine_a lat1 lon1 lat2 lon2))
                     (sqrt (1 - haversine_a lat1 lon1 lat2 lon2))))%R.

(** The travel-time term of an edge: [(distance_km / speed) * 60]. *)
Definition travel_minutes (train_speed_kmph lat1 lon1 lat2 lon2 : R) : R :=
  (haversine_km lat1 lon1 lat2 lon2 / train_speed_kmph * 60)%R.

(* ------------------------------------------------------------------ *)
(** ** A small network on the reals *)

(** [float] on strings, for inputs that hold no numeric strings. *)
Definition no_parse : string -> option R := fun _ => None.

(** The builder on the reals. *)
Definition build_R (stations_data : dict (station_record R))
           (train_speed_kmph line_change_penalty_minutes : R)
  : result (graph R * dict (station_detail R)) :=
  @build_metro_graph R Weight_R (Floating_R no_parse) stations_data
                     train_speed_kmph line_change_penalty_minutes.

(** Two adjacent stations on different lines, each listing the other,
    and a third station without coordinates. *)
Definition two_stations : dict (station_record R) :=
  [("A", mkRecord (Some (JNumber 35%R)) (Some (JNumber 51%R))
                  (Some ["1"]) (Some ["B"]));
   ("B", mkRecord (Some (JNumber 36%R)) (Some (JNumber 51%R))
                  (Some ["2"]) (Some ["A"; "C"]));
   ("C", mkRecord None None (Some ["2"]) (Some ["B"]))].

Definition two_weight : R := (travel_minutes 40 35 51 36 51 + 4)%R.

Definition two_graph : graph R :=
  [("A", [("B", two_weight)]); ("B", [("A", two_weight)]); ("C", [])].

Definition two_details : dict (station_detail R) :=
  [("A", mkDetail (Some 35%R) (Some 51%R) ["1"]);
   ("B", mkDetail (Some 36%R) (Some 51%R) ["2"]);
   ("C", mkDetail None None ["2"])].

(** A station whose latitude is present and null. *)
Definition null_station : dict (station_record R) :=
  [("A", mkRecord (Some JNull) (Some (JNumber 51%R)) None None)].

(** A station whose list of lines names a line twice. *)
Definition twice_station : dict (station_record R) :=
  [("A", mkRecord None None (Some ["1"; "1"]) None)].

(* ------------------------------------------------------------------ *)
(** ** Further invariants of the search *)

(** No predecessor link touches a disabled station. *)
Definition avoid_inv {W : Type} (disabled_stations : list string)
           (st : state W) : Prop :=
  forall v u, dict_get (previous_nodes st) v = Some (Some u) ->
              str_in u disabled_stations = false /\
              str_in v disabled_stations = false.

(** The two stations have an entry each in the details, with both
    coordinates. *)
Definition located_pair {W : Type} (station_details : dict (station_detail W))
           (a b : string) : Prop :=
  exists da db la1 lo1 la2 lo2,
    dict_get station_details a = Some da /\
    dict_get station_details b = Some db /\
    detail_latitude da = Some la1 /\ detail_longitude da = Some lo1 /\
    detail_latitude db = Some la2 /\ detail_longitude db = Some lo2.

(* ------------------------------------------------------------------ *)
(** ** What a run of [main] shows *)

(** [a] is followed at once by [b] in [l]. *)
Definition followed_by {A : Type} (a b : A) (l : list A) : Prop :=
  exists pre post, l = pre ++ a :: b :: post.

(** The query from [s] to [e] without [dis] was typed in: three lines
    of the input that follow each other give the two names, both in the
    list of stations, and the disabled names, of which those in the list
    are kept; neither end of the journey is among them. *)
Definition typed_query (strip : string -> string)
           (available_stations_en inputs : list string)
           (s e : string) (dis : list string) : Prop :=
  (exists pre line1 line2 line3 rest,
      inputs = pre ++ line1 :: line2 :: line3 :: rest /\
      s = strip line1 /\ e = strip line2 /\
      dis = valid_disabled available_stations_en
                           (disabled_names strip line3)) /\
  str_in s available_stations_en = true /\
  str_in e available_stations_en = true /\
  (forall x, In x dis -> str_in x available_stations_en = true) /\
  str_in s dis = false /\ str_in e dis = false.

(** The lines [out] are right about the graph [g]: no exception of the
    search is reported; a route printed is a route of a query typed in,
    is followed by its time, which is below infinity, and no route of
    that query takes less; and where no path is reported, every route of
    the query typed in has a time that is not below infinity. *)
Definition reports_ok {W : Type} `{Weight W} (strip : string -> string)
           (g : graph W) (available_stations_en inputs : list string)
           (out : list (output W)) : Prop :=
  (forall x, In (ErrorOccurred x) out -> x = EOFError) /\
  (forall path,
      In (RouteLine path) out ->
      exists s e dis d,
        typed_query strip available_stations_en inputs s e dis /\
        followed_by (RouteLine path) (TimeLine (Fin d)) out /\
        is_path g dis s e path d /\
        wlt_inf d = true /\
        forall p c, is_path g dis s e p c -> wle d c) /\
  (In NoPathFound out ->
   exists s e dis,
     typed_query strip available_stations_en inputs s e dis /\
     forall p c, is_path g dis s e p c -> wlt_inf c = false).

(** A line that reports neither a route, nor that there is none, nor an
    exception other than the end of the input. *)
Definition plain_line {W : Type} (o : output W) : bool :=
  match o with
  | ErrorOccurred EOFError => true
  | ErrorOccurred _ => false
  | RouteLine _ => false
  | NoPathFound => false
  | _ => true
  end.

(** The order of [sorted]. *)
Definition str_le (a b : string) : Prop := String.leb a b = true.

(** A run of [main] on the two stations: from A to B, no station
    disabled, and no further query.  The lines are typed without spaces
    around them and in lower case. *)
Definition as_typed (s : string) : string := s.

Definition two_inputs : list string := ["A"; "B"; ""; "no"].

Definition two_outputs : list (output R) :=
  [DataLoaded; GraphBuilt; StationsHeader;
   StationLine 1 "A"; StationLine 2 "B"; StationLine 3 "C";
   PromptStart; PromptEnd; PromptDisabled;
   RouteHeader; RouteLine ["A"; "B"]; TimeLine (Fin (0 + two_weight)%R);
   PromptAgain].

(* ------------------------------------------------------------------ *)
(** ** The numbers of the program: binary64 floats *)

Section Floats.
Import PrimFloat.
Local Open Scope float_scope.

(** The floats of the kernel are the floats of CPython: the same
    format, sums rounded to nearest, the same comparisons. *)
Definition Weight_float : Weight float := {|
  w0 := 0;
  wadd := add;
  wltb := ltb;
  weqb := eqb;
  wlt_inf := fun x => ltb x infinity
|}.

(** The least positive float, [5e-324]. *)
#[warnings="-inexact-float"]
Definition least_speed : float := 5e-324.

(** The distance in kilometres between (35, 51) and (36, 51) as
    [haversine_distance] returns it. *)
#[warnings="-inexact-float"]
Definition distance_AB : float := 111.19492664455889.

(** The weight the builder gives the edge at that speed with the
    penalty 4: [(distance_km / train_speed_kmph) * 60 + 4]. *)
Definition overflowed_weight : float :=
  distance_AB / least_speed * 60 + 4.

(** Two stations joined by an edge whose weight overflowed. *)
Definition inf_graph : graph float :=
  [("A", [("B", infinity)]); ("B", [("A", infinity)])].

(** Three stations in a row, each edge of a weight whose double is
    beyond the largest float. *)
#[warnings="-inexact-float"]
Definition huge_graph : graph float :=
  [("A", [("B", 1e308)]); ("B", [("A", 1e308); ("C", 1e308)]);
   ("C", [("B", 1e308)])].

(** Two stations joined by an edge whose weight is NaN, as the builder
    computes it from a coordinate that is NaN. *)
Definition nan_graph : graph float :=
  [("A", [("B", nan)]); ("B", [("A", nan)])].

(** Four stations in a row, with the same weights in both
    directions. *)
#[warnings="-inexact-float"]
Definition tenths_graph : graph float :=
  [("A", [("B", 0.1)]); ("B", [("A", 0.1); ("C", 0.2)]);
   ("C", [("B", 0.2); ("D", 0.3)]); ("D", [("C", 0.3)])].

(** [(0 + 0.1 + 0.2) + 0.3] and [(0 + 0.3 + 0.2) + 0.1]. *)
#[warnings="-inexact-float"]
Definition time_there : float := 0.6000000000000001.

#[warnings="-inexact-float"]
Definition time_back : float := 0.6.

End Floats.

#[export] Existing Instance Weight_float.

(* ------------------------------------------------------------------ *)
(** ** The numbers a search meets *)

Section GoodNumbers.
Context {W : Type} {HW : Weight W}.

(** The numbers the laws are asked of.  Of the floats: those that are
    not NaN and not negative, zero with its positive sign, the
    infinity included. *)
Variable good : W -> bool.

(** The laws of [WeightLaws], asked only of the numbers of [good],
    which hold zero and the sum of any two of them. *)
Record LawsOn : Prop := {
  on_zero : good w0 = true;
  on_sum : forall a b : W,
      good a = true -> good b = true -> good (wadd a b) = true;
  on_weqb_eq : forall a b : W,
      good a = true -> good b = true -> (weqb a b = true <-> a = b);
  on_wltb_irrefl : forall a : W, good a = true -> wltb a a = false;
  on_wltb_trans : forall a b c : W,
      good a = true -> good b = true -> good c = true ->
      wltb a b = true -> wltb b c = true -> wltb a c = true;
  on_wltb_total : forall a b : W,
      good a = true -> good b = true ->
      wltb a b = false -> wltb b a = false -> a = b;
  on_wadd_0_r : forall a : W, good a = true -> wadd a w0 = a;
  on_wadd_mono_l : forall a b w : W,
      good a = true -> good b = true -> good w = true ->
      wle a b -> wle (wadd a w) (wadd b w);
  on_wadd_mono_r : forall a b c : W,
      good a = true -> good b = true -> good c = true ->
      wle b c -> wle (wadd a b) (wadd a c);
  on_wlt_inf_0 : wlt_inf w0 = true;
  on_wlt_inf_le : forall a b : W,
      good a = true -> good b = true ->
      wle a b -> wlt_inf b = true -> wlt_inf a = true
}.

(** Every edge weight is one of these numbers. *)
Definition graph_good (g : graph W) : bool :=
  forallb (fun kv => forallb (fun e => good (snd e)) (snd kv)) g.

Hypothesis HG : LawsOn.

(** The numbers of [good] as a carrier of their own, with the
    operations of [W]. *)
Definition good_num : Type := {x : W | good x = true}.

(** A member of the carrier as a number of [W]. *)
Definition good_val (a : good_num) : W := proj1_sig a.

Definition good_zero : good_num := exist _ w0 (on_zero HG).

Definition good_add (a b : good_num) : good_num :=
  exist _ (wadd (proj1_sig a) (proj1_sig b))
        (on_sum HG (proj2_sig a) (proj2_sig b)).

Definition Weight_good : Weight good_num := {|
  w0 := good_zero;
  wadd := good_add;
  wltb := fun a b => wltb (proj1_sig a) (proj1_sig b);
  weqb := fun a b => weqb (proj1_sig a) (proj1_sig b);
  wlt_inf := fun a => wlt_inf (proj1_sig a)
|}.

(** A number of [good] as a member of the carrier; zero stands for the
    others. *)
Definition restrict (x : W) : good_num :=
  match Bool.bool_dec (good x) true with
  | left E => exist _ x E
  | right _ => good_zero
  end.

End GoodNumbers.

(** The same dictionary, graph, state and result with every number
    mapped to another carrier. *)
Definition map_dict {A B : Type} (h : A -> B) (d : dict A) : dict B :=
  map (fun kv => (fst kv, h (snd kv))) d.

Definition map_graph {V W : Type} (f : V -> W) (g : graph V) : graph W :=
  map_dict (map_dict f) g.

Definition map_ext {V W : Type} (f : V -> W) (x : ext V) : ext W :=
  match x with
  | Fin a => Fin (f a)
  | Inf => Inf
  end.

Definition map_entry {V W : Type} (f : V -> W) (e : V * string)
  : W * string := (f (fst e), snd e).

Definition map_state {V W : Type} (f : V -> W) (st : state V) : state W :=
  mkState (map_dict (map_ext f) (distances st))
          (previous_nodes st)
          (map (map_entry f) (priority_queue st)).

Definition map_route {V W : Type} (f : V -> W) (r : route V) : route W :=
  match r with
  | Route t path => Route (map_ext f t) path
  | NoRoute => NoRoute
  end.

Definition map_result {A B : Type} (h : A -> B) (r : result A) : result B :=
  match r with
  | Ok a => Ok (h a)
  | Raise e => Raise e
  end.

(* ================================================================== *)
(** * Properties *)

(** ** The scenarios of the specification, run on the integers *)

Example xyz_shortest :
  dijkstra xyz_graph "X" "Z" [] = Some (Ok (Route (Fin 8%Z) ["X"; "Y"; "Z"])).
Proof. vm_compute. reflexivity. Qed.

Example xyz_disabled_Y :
  dijkstra xyz_graph "X" "Z" ["Y"] = Some (Ok (Route (Fin 10%Z) ["X"; "Z"])).
Proof. vm_compute. reflexivity. Qed.

Example xyz_disabled_Z :
  dijkstra xyz_graph "X" "Z" ["Z"] = Some (Ok NoRoute).
Proof. vm_compute. reflexivity. Qed.

Example xyz_same :
  dijkstra xyz_graph "X" "X" [] = Some (Ok (Route (Fin 0%Z) ["X"])).
Proof. vm_compute. reflexivity. Qed.

Example xyz_other_order :
  dijkstra zyx_graph "X" "Z" [] = Some (Ok (Route (Fin 8%Z) ["X"; "Y"; "Z"])).
Proof. vm_compute. reflexivity. Qed.

(** A later route of the same time does not replace the recorded one. *)
Example tie_keeps_first :
  dijkstra tie_graph "X" "Z" [] = Some (Ok (Route (Fin 10%Z) ["X"; "Z"])).
Proof. vm_compute. reflexivity. Qed.

(** Equal distances: the station name decides. *)
Example heappop_tie :
  heappop [(5%Z, "b"); (3%Z, "z"); (3%Z, "a"); (7%Z, "c")]
  = Some ((3%Z, "a"), [(5%Z, "b"); (3%Z, "z"); (7%Z, "c")]).
Proof. vm_compute. reflexivity. Qed.

Example dict_set_keeps_position :
  dict_set [("a", 1); ("b", 2)] "a" 3 = [("a", 3); ("b", 2)] /\
  dict_set [("a", 1); ("b", 2)] "c" 3 = [("a", 1); ("b", 2); ("c", 3)].
Proof. split; reflexivity. Qed.

Example path_cost_xyz :
  path_cost xyz_graph ["X"; "Y"; "Z"] = Some 8%Z /\
  path_cost xyz_graph ["X"; "X"] = None.
Proof. split; reflexivity. Qed.

(** ** Strings and dictionaries *)

Lemma str_in_In (x : string) (l : list string) : str_in x l = true <-> In x l.
Proof.
  induction l as [|y l IH]; simpl.
  - split; [discriminate | tauto].
  - destruct (String.eqb_spec x y) as [->|Hne].
    + split; auto.
    + rewrite IH. split; [auto | intros [E|E]; [congruence | exact E]].
Qed.

Lemma str_in_not_In (x : string) (l : list string) :
  str_in x l = false <-> ~ In x l.
Proof.
  rewrite <- str_in_In. destruct (str_in x l); split; congruence.
Qed.

Lemma nodup_keys_NoDup (l : list string) : nodup_keys l = true <-> NoDup l.
Proof.
  induction l as [|k l IH]; simpl.
  - split; [constructor | reflexivity].
  - rewrite andb_true_iff, negb_true_iff, str_in_not_In, IH.
    split.
    + intros [? ?]. constructor; assumption.
    + intros HN. inversion HN; subst. split; assumption.
Qed.

Section DictFacts.
Context {V : Type}.
Implicit Types (d : dict V) (k : string) (v : V).

Lemma dict_get_set_eq d k v : dict_get (dict_set d k v) k = Some v.
Proof.
  induction d as [|[k' v'] d IH]; simpl.
  - now rewrite String.eqb_refl.
  - destruct (String.eqb_spec k k') as [->|Hne]; simpl.
    + now rewrite String.eqb_refl.
    + destruct (String.eqb_spec k k'); [congruence | exact IH].
Qed.

Lemma dict_get_set_neq d k k' v :
  k <> k' -> dict_get (dict_set d k v) k' = dict_get d k'.
Proof.
  intros Hne. induction d as [|[k0 v0] d IH]; simpl.
  - destruct (String.eqb_spec k' k); [congruence | reflexivity].
  - destruct (String.eqb_spec k k0) as [->|Hne0]; simpl.
    + destruct (String.eqb_spec k' k0); [congruence | reflexivity].
    + destruct (String.eqb_spec k' k0); [reflexivity | exact IH].
Qed.

Lemma dict_get_set d k k' v :
  dict_get (dict_set d k v) k' =
  if String.eqb k k' then Some v else dict_get d k'.
Proof.
  destruct (String.eqb_spec k k') as [->|Hne].
  - apply dict_get_set_eq.
  - now apply dict_get_set_neq.
Qed.

Lemma dict_get_In d k v : dict_get d k = Some v -> In (k, v) d.
Proof.
  induction d as [|[k' v'] d IH]; simpl; [discriminate|].
  destruct (String.eqb_spec k k') as [->|Hne].
  - intros [= ->]. now left.
  - intros Hg. right. now apply IH.
Qed.

Lemma dict_get_None d k : dict_get d k = None <-> ~ In k (dict_keys d).
Proof.
  induction d as [|[k' v'] d IH]; simpl.
  - tauto.
  - destruct (String.eqb_spec k k') as [->|Hne].
    + split; [discriminate | intros Hn; exfalso; apply Hn; now left].
    + rewrite IH. split.
      * intros Hn [E|E]; [congruence | tauto].
      * intros Hn E. apply Hn. now right.
Qed.

Lemma dict_mem_keys d k : dict_mem d k = true <-> In k (dict_keys d).
Proof.
  unfold dict_mem. destruct (dict_get d k) eqn:E.
  - split; [intros _ | reflexivity].
    apply dict_get_In in E. apply (in_map fst) in E. exact E.
  - apply dict_get_None in E. split; [discriminate | tauto].
Qed.

Lemma In_dict_get d k v :
  dict_wf d = true -> In (k, v) d -> dict_get d k = Some v.
Proof.
  unfold dict_wf. induction d as [|[k' v'] d IH]; simpl; [tauto|].
  rewrite andb_true_iff, negb_true_iff, str_in_not_In.
  intros [Hk Hd] [E|E].
  - injection E as -> ->. now rewrite String.eqb_refl.
  - destruct (String.eqb_spec k k') as [->|Hne].
    + exfalso. apply Hk. apply (in_map fst) in E. exact E.
    + now apply IH.
Qed.

Lemma dict_keys_set d k v :
  forall x, In x (dict_keys (dict_set d k v)) <-> x = k \/ In x (dict_keys d).
Proof.
  intros x. induction d as [|[k' v'] d IH]; simpl.
  - split; [intros [E|[]]; auto | intros [E|[]]; auto].
  - destruct (String.eqb_spec k k') as [->|Hne]; simpl.
    + split; [tauto | intros [E|E]; auto].
    + rewrite IH. split; [tauto | tauto].
Qed.

Lemma dict_wf_set d k v : dict_wf d = true -> dict_wf (dict_set d k v) = true.
Proof.
  unfold dict_wf. rewrite !nodup_keys_NoDup.
  induction d as [|[k' v'] d IH]; simpl; intros HN.
  - constructor; [tauto | constructor].
  - inversion HN as [|? ? Hk Hd]; subst.
    destruct (String.eqb_spec k k') as [->|Hne]; simpl.
    + constructor; assumption.
    + constructor; [|now apply IH].
      intros Hin. apply (dict_keys_set d k v) in Hin.
      destruct Hin as [E|E]; [congruence | tauto].
Qed.

Lemma dict_get_const {U : Type} d (c : U) k :
  dict_get (dict_const d c) k = if dict_mem d k then Some c else None.
Proof.
  unfold dict_mem. induction d as [|[k' v'] d IH]; simpl; [reflexivity|].
  destruct (String.eqb_spec k k'); [reflexivity | exact IH].
Qed.

End DictFacts.

(* ------------------------------------------------------------------ *)
(** ** The order of the weights and the frontier *)

Section WeightFacts.
Context {W : Type} {HW : Weight W} {HL : WeightLaws W}.
Implicit Types (a b c w : W).

Lemma wle_refl a : wle a a.
Proof. apply wltb_irrefl. Qed.

Lemma wle_trans a b c : wle a b -> wle b c -> wle a c.
Proof.
  unfold wle. intros Hab Hbc.
  destruct (wltb c a) eqn:Hca; [|reflexivity].
  destruct (wltb a b) eqn:Hlt.
  - rewrite (wltb_trans _ _ _ Hca Hlt) in Hbc. discriminate.
  - assert (a = b) by now apply wltb_total. subst. congruence.
Qed.

Lemma wle_antisym a b : wle a b -> wle b a -> a = b.
Proof. unfold wle. intros. now apply wltb_total. Qed.

Lemma wltb_wle a b : wltb a b = true -> wle a b.
Proof.
  unfold wle. intros Hab. destruct (wltb b a) eqn:Hba; [|reflexivity].
  pose proof (wltb_trans _ _ _ Hab Hba) as Haa.
  rewrite wltb_irrefl in Haa. discriminate.
Qed.

Lemma wle_total a b : wle a b \/ wle b a.
Proof.
  destruct (wltb a b) eqn:E; [left; now apply wltb_wle | now right].
Qed.

Lemma wle_wltb_trans a b c : wle a b -> wltb b c = true -> wltb a c = true.
Proof.
  intros Hab Hbc. destruct (wltb a c) eqn:Hac; [reflexivity|].
  assert (Hca : wle c a) by exact Hac.
  pose proof (wle_trans Hca Hab) as Hcb. unfold wle in Hcb. congruence.
Qed.

Lemma wle_add_nonneg a w : wle w0 w -> wle a (wadd a w).
Proof.
  intros Hw. pose proof (wadd_mono_r a Hw) as Hm.
  now rewrite wadd_0_r in Hm.
Qed.

(** A number below infinity is at most any number that is not. *)
Lemma wlt_inf_below a b :
  wlt_inf a = true -> wlt_inf b = false -> wle a b.
Proof.
  intros Ha Hb. unfold wle. destruct (wltb b a) eqn:E; [|reflexivity].
  apply wltb_wle in E. rewrite (wlt_inf_le E Ha) in Hb. discriminate.
Qed.

(** A sum below infinity has its first term below infinity, when the
    second is not negative. *)
Lemma wlt_inf_add a w :
  wle w0 w -> wlt_inf (wadd a w) = true -> wlt_inf a = true.
Proof.
  intros Hw. apply wlt_inf_le. now apply wle_add_nonneg.
Qed.

Lemma weqb_refl a : weqb a a = true.
Proof. now apply weqb_eq. Qed.

Lemma weqb_neq a b : weqb a b = false <-> a <> b.
Proof.
  pose proof (weqb_eq a b) as E. destruct (weqb a b); split; intros.
  - discriminate.
  - exfalso. apply H. now apply E.
  - intros ->. destruct E as [_ E]. specialize (E eq_refl). discriminate.
  - reflexivity.
Qed.

Lemma entry_eqb_eq (x y : W * string) : entry_eqb x y = true <-> x = y.
Proof.
  unfold entry_eqb. destruct x as [a s], y as [b t]; simpl.
  rewrite andb_true_iff, weqb_eq, String.eqb_eq.
  split; [intros [-> ->]; reflexivity | intros [= -> ->]; auto].
Qed.

(** The first component of the smaller of two tuples is the smaller
    first component. *)
Lemma entry_ltb_fst (x y : W * string) :
  wle (fst (if entry_ltb y x then y else x)) (fst x) /\
  wle (fst (if entry_ltb y x then y else x)) (fst y).
Proof.
  unfold entry_ltb. destruct (weqb (fst y) (fst x)) eqn:E.
  - apply weqb_eq in E. destruct (String.ltb _ _); rewrite ?E; split;
      try apply wle_refl; rewrite <- ?E; apply wle_refl.
  - destruct (wltb (fst y) (fst x)) eqn:L; split;
      try apply wle_refl; [now apply wltb_wle | exact L].
Qed.

Lemma heap_min_In (x : W * string) l : In (heap_min x l) (x :: l).
Proof.
  revert x. induction l as [|y l IH]; intros x; simpl; [now left|].
  specialize (IH (if entry_ltb y x then y else x)).
  destruct IH as [E|E]; [|right; now right].
  rewrite <- E. destruct (entry_ltb y x); [right; now left | now left].
Qed.

Lemma heap_min_le (x : W * string) l :
  forall y, In y (x :: l) -> wle (fst (heap_min x l)) (fst y).
Proof.
  revert x. induction l as [|z l IH]; intros x y Hy; simpl.
  - destruct Hy as [<-|[]]. apply wle_refl.
  - destruct (entry_ltb_fst x z) as [Hx Hz].
    set (m := if entry_ltb z x then z else x) in *.
    pose proof (IH m m (or_introl eq_refl)) as Hm.
    destruct Hy as [<-|[<-|Hy]].
    + exact (wle_trans Hm Hx).
    + exact (wle_trans Hm Hz).
    + apply IH. now right.
Qed.

Lemma heap_remove_In (m : W * string) l y :
  In y (heap_remove m l) -> In y l.
Proof.
  induction l as [|z l IH]; simpl; [tauto|].
  destruct (entry_eqb m z); [now right|].
  intros [E|E]; [now left | right; now apply IH].
Qed.

Lemma In_heap_remove (m : W * string) l y :
  In y l -> y <> m -> In y (heap_remove m l).
Proof.
  intros Hy Hne. induction l as [|z l IH]; simpl in *; [tauto|].
  destruct (entry_eqb m z) eqn:E.
  - apply entry_eqb_eq in E. subst z.
    destruct Hy as [Hy|Hy]; [congruence | exact Hy].
  - destruct Hy as [Hy|Hy]; [now left | right; now apply IH].
Qed.

Lemma heap_remove_length (m : W * string) l :
  In m l -> S (List.length (heap_remove m l)) = List.length l.
Proof.
  induction l as [|z l IH]; simpl; [tauto|].
  destruct (entry_eqb m z) eqn:E; [reflexivity|].
  intros [->|Hin].
  - assert (entry_eqb m m = true) by now apply entry_eqb_eq. congruence.
  - simpl. now rewrite IH.
Qed.

Lemma heap_remove_NoDup (m : W * string) l :
  NoDup l -> NoDup (heap_remove m l) /\ ~ In m (heap_remove m l).
Proof.
  induction l as [|z l IH]; simpl; intros HN.
  - split; [constructor | tauto].
  - inversion HN as [|? ? Hz Hl]; subst.
    destruct (entry_eqb m z) eqn:E.
    + apply entry_eqb_eq in E. subst z. split; assumption.
    + destruct (IH Hl) as [IH1 IH2]. split.
      * constructor; [|exact IH1].
        intros Hin. apply Hz. now apply heap_remove_In in Hin.
      * intros [->|Hin]; [|tauto].
        assert (entry_eqb m m = true) by now apply entry_eqb_eq.
        congruence.
Qed.

(** What [heappop] returns: an item of the heap, no larger than any
    other, and the heap without it. *)
Lemma heappop_spec (pq : list (W * string)) m pq' :
  heappop pq = Some (m, pq') ->
  In m pq /\ pq' = heap_remove m pq /\
  (forall y, In y pq -> wle (fst m) (fst y)) /\
  S (List.length pq') = List.length pq.
Proof.
  unfold heappop. destruct pq as [|x l]; [discriminate|].
  intros [= <- <-].
  pose proof (heap_min_In x l) as Hin.
  split; [exact Hin|]. split; [reflexivity|]. split.
  - apply heap_min_le.
  - exact (heap_remove_length _ (x :: l) Hin).
Qed.

End WeightFacts.

(* ------------------------------------------------------------------ *)
(** ** The shape of a returned path *)

Section PathShape.
Context {W : Type} {HW : Weight W}.
Variable g : graph W.
Variable start_node end_node : string.
Variable disabled_stations : list string.

Lemma In_dict_get_some {V : Type} (d : dict V) k v :
  In (k, v) d -> dict_get d k <> None.
Proof.
  intros Hin Hn. apply dict_get_None in Hn. apply Hn.
  apply (in_map fst) in Hin. exact Hin.
Qed.

Lemma consecutive_edges_snoc (p : list string) (u c : string) :
  consecutive_edges g (p ++ [u]) ->
  edge_weight g u c <> None ->
  consecutive_edges g ((p ++ [u]) ++ [c]).
Proof.
  induction p as [|x p IH]; simpl; intros Hp He.
  - split; [exact He | exact I].
  - destruct (p ++ [u]) as [|y q] eqn:E.
    + destruct p; discriminate.
    + simpl in *. destruct Hp as [Hxy Hq]. split; [exact Hxy|].
      apply IH; assumption.
Qed.

Lemma heappop_subset (pq : list (W * string)) m pq' :
  heappop pq = Some (m, pq') ->
  In m pq /\ forall y, In y pq' -> In y pq.
Proof.
  unfold heappop. destruct pq as [|x l]; [discriminate|].
  intros [= <- <-]. split.
  - apply heap_min_In.
  - intros y. apply (heap_remove_In _ (x :: l)).
Qed.

(** The tree invariant survives the loop over the neighbours. *)
Lemma relax_tree_inv cd cn all items st st' :
  dict_get g cn = Some all ->
  (forall x, In x items -> In x all) ->
  tree_inv g start_node st -> reached st cn ->
  relax disabled_stations cd cn items st = Some st' ->
  tree_inv g start_node st' /\ reached st' cn.
Proof.
  intros Hall. revert st.
  induction items as [|[nb w] items IH]; simpl; intros st Hsub Hinv Hcn Hr.
  - injection Hr as <-. auto.
  - assert (Hsub' : forall x, In x items -> In x all)
      by (intros x Hx; apply Hsub; now right).
    destruct (str_in nb disabled_stations);
      [exact (IH st Hsub' Hinv Hcn Hr)|].
    destruct (dict_get (distances st) nb) as [dn|] eqn:Hdn; [|discriminate].
    destruct (ext_ltb (Fin (wadd cd w)) dn);
      [|exact (IH st Hsub' Hinv Hcn Hr)].
    apply IH in Hr; auto.
    + destruct Hinv as (T1 & T2 & T3).
      assert (Hmono : forall v, reached st v ->
                reached (mkState
                  (dict_set (distances st) nb (Fin (wadd cd w)))
                  (dict_set (previous_nodes st) nb (Some cn))
                  (heappush (priority_queue st) (wadd cd w, nb))) v).
      { intros v [d Hd]. unfold reached; simpl. rewrite dict_get_set.
        destruct (String.eqb nb v); eauto. }
      split; [|split]; simpl.
      * intros v u. rewrite dict_get_set.
        destruct (String.eqb_spec nb v) as [->|Hne].
        -- intros [= <-]. split; [|now apply Hmono].
           unfold edge_weight. rewrite Hall.
           apply (In_dict_get_some all v w). apply Hsub. now left.
        -- intros Hp. destruct (T1 v u Hp). split; auto.
      * intros v Hv. rewrite dict_get_set.
        destruct (String.eqb_spec nb v) as [->|Hne]; [discriminate|].
        intros Hp. apply T2; [|exact Hp].
        destruct Hv as [d Hd]. simpl in Hd.
        rewrite dict_get_set_neq in Hd by exact Hne. now exists d.
      * intros d v Hin. unfold heappush in Hin. apply in_app_or in Hin.
        destruct Hin as [Hin|[E|[]]].
        -- apply Hmono. now apply (T3 d).
        -- injection E as <- <-. exists (wadd cd w). simpl.
           apply dict_get_set_eq.
    + destruct Hcn as [d Hd]. unfold reached; simpl. rewrite dict_get_set.
      destruct (String.eqb nb cn); eauto.
Qed.

(** Following the predecessor links from a reached node yields a path
    of edges from the start to that node. *)
Lemma reconstruct_shape (st : state W) :
  tree_inv g start_node st ->
  forall fuel c acc path,
    reached st c ->
    reconstruct fuel (previous_nodes st) (Some c) acc = Some (Ok path) ->
    exists pre, path = (pre ++ [c]) ++ acc /\
                hd_error (pre ++ [c]) = Some start_node /\
                consecutive_edges g (pre ++ [c]).
Proof.
  intros (T1 & T2 & T3).
  induction fuel as [|fuel IH]; intros c acc path Hc; simpl; [discriminate|].
  destruct (dict_get (previous_nodes st) c) as [[u|]|] eqn:Hp;
    [| |discriminate].
  - intros Hr. destruct (T1 c u Hp) as [He Hu].
    destruct (IH u (c :: acc) path Hu Hr) as (pre & -> & Hhd & Hce).
    exists (pre ++ [u]). split; [|split].
    + now rewrite <- !app_assoc.
    + destruct pre; simpl in *; exact Hhd.
    + now apply consecutive_edges_snoc.
  - destruct fuel; simpl; intros [= <-];
      (exists []; simpl; rewrite (T2 c Hc Hp); auto).
Qed.

Lemma loop_shape rfuel fuel st t path :
  tree_inv g start_node st ->
  dijkstra_loop g end_node disabled_stations rfuel fuel st
    = Some (Ok (Route t path)) ->
  exists pre, path = pre ++ [end_node] /\
              hd_error path = Some start_node /\
              consecutive_edges g path.
Proof.
  revert st. induction fuel as [|fuel IH]; intros st Hinv; simpl;
    [discriminate|].
  destruct (heappop (priority_queue st)) as [[[cd cn] pq']|] eqn:Hpop;
    [|discriminate].
  destruct (heappop_subset _ Hpop) as [Hm Hsub].
  assert (Hinv' : tree_inv g start_node
                    (mkState (distances st) (previous_nodes st) pq')).
  { destruct Hinv as (T1 & T2 & T3). split; [|split]; simpl.
    - exact T1.
    - exact T2.
    - intros d v Hin. apply (T3 d v). now apply Hsub. }
  destruct (str_in cn disabled_stations); [now apply IH|].
  destruct (dict_get (distances st) cn) as [dc|] eqn:Hdc; [|discriminate].
  destruct (ext_ltb dc (Fin cd)); [now apply IH|].
  assert (Hcn : reached st cn).
  { destruct Hinv as (_ & _ & T3). exact (T3 cd cn Hm). }
  destruct (String.eqb_spec cn end_node) as [->|Hne].
  - destruct (reconstruct rfuel (previous_nodes st) (Some end_node) [])
      as [[p|e]|] eqn:Hrec; try discriminate.
    destruct (dict_get (distances st) end_node); [|discriminate].
    intros [= <- <-].
    eapply reconstruct_shape in Hrec; eauto.
    destruct Hrec as (pre & -> & Hhd & Hce).
    rewrite app_nil_r. exists pre. auto.
  - destruct (dict_get g cn) as [items|] eqn:Hg; [|discriminate].
    destruct (relax disabled_stations cd cn items
                    (mkState (distances st) (previous_nodes st) pq'))
      as [st''|] eqn:Hr; [|discriminate].
    apply IH.
    eapply relax_tree_inv in Hr; eauto. tauto.
Qed.

Lemma initial_tree_inv : tree_inv g start_node (initial_state g start_node).
Proof.
  unfold initial_state. split; [|split]; simpl.
  - intros v u. rewrite dict_get_const. destruct (dict_mem g v); discriminate.
  - intros v [d Hd] _. simpl in Hd. rewrite dict_get_set in Hd.
    destruct (String.eqb_spec start_node v) as [->|Hne]; [reflexivity|].
    rewrite dict_get_const in Hd. destruct (dict_mem g v); discriminate.
  - intros d v [[= <- <-]|[]]. exists w0. simpl. apply dict_get_set_eq.
Qed.

End PathShape.

(* ------------------------------------------------------------------ *)
(** ** No [KeyError] on a closed graph *)

Section GraphShapeFacts.
Context {W : Type} {HW : Weight W}.
Variable g : graph W.

Lemma graph_closed_spec u nbrs v w :
  graph_closed g = true -> dict_get g u = Some nbrs -> In (v, w) nbrs ->
  dict_mem g v = true.
Proof.
  unfold graph_closed. rewrite forallb_forall. intros Hc Hg Hin.
  apply dict_get_In in Hg. specialize (Hc _ Hg). simpl in Hc.
  rewrite forallb_forall in Hc. exact (Hc _ Hin).
Qed.

Lemma graph_nonneg_spec u nbrs v w :
  graph_nonneg g = true -> dict_get g u = Some nbrs -> In (v, w) nbrs ->
  wle w0 w.
Proof.
  unfold graph_nonneg. rewrite forallb_forall. intros Hc Hg Hin.
  apply dict_get_In in Hg. specialize (Hc _ Hg). simpl in Hc.
  rewrite forallb_forall in Hc. specialize (Hc _ Hin). simpl in Hc.
  unfold wle. now apply negb_true_iff.
Qed.

Lemma graph_wf_spec u nbrs :
  graph_wf g = true -> dict_get g u = Some nbrs -> dict_wf nbrs = true.
Proof.
  unfold graph_wf. rewrite andb_true_iff, forallb_forall. intros [_ Hc] Hg.
  apply dict_get_In in Hg. exact (Hc _ Hg).
Qed.

Lemma graph_edge_weight u nbrs v w :
  graph_wf g = true -> dict_get g u = Some nbrs -> In (v, w) nbrs ->
  edge_weight g u v = Some w.
Proof.
  intros Hwf Hg Hin. unfold edge_weight. rewrite Hg.
  apply In_dict_get; [|exact Hin]. now apply (graph_wf_spec u).
Qed.

End GraphShapeFacts.

Section NoKeyError.
Context {W : Type} {HW : Weight W}.
Variable g : graph W.
Variable end_node : string.
Variable disabled_stations : list string.
Hypothesis Hclosed : graph_closed g = true.

Lemma relax_keys_inv cd cn all items st :
  dict_get g cn = Some all ->
  (forall x, In x items -> In x all) ->
  keys_inv g st ->
  exists st', relax disabled_stations cd cn items st = Some st' /\
              keys_inv g st'.
Proof.
  intros Hall. revert st.
  induction items as [|[nb w] items IH]; simpl; intros st Hsub Hinv.
  - eauto.
  - assert (Hsub' : forall x, In x items -> In x all)
      by (intros x Hx; apply Hsub; now right).
    destruct (str_in nb disabled_stations); [now apply IH|].
    assert (Hnb : dict_mem g nb = true).
    { eapply graph_closed_spec; [exact Hclosed | exact Hall |].
      apply Hsub. left. reflexivity. }
    pose proof Hinv as (K1 & K2 & K3).
    destruct (dict_get (distances st) nb) as [dn|] eqn:Hdn;
      [|destruct (K1 nb Hnb) as [Hd _]; congruence].
    destruct (ext_ltb (Fin (wadd cd w)) dn);
      [|apply IH; [exact Hsub' | exact Hinv]].
    apply IH; [exact Hsub'|]. split; [|split]; simpl.
    + intros v Hv. rewrite !dict_get_set.
      destruct (String.eqb nb v); [split; discriminate | now apply K1].
    + intros d v Hin. unfold heappush in Hin. apply in_app_or in Hin.
      destruct Hin as [Hin|[[= <- <-]|[]]]; [now apply (K2 d) | exact Hnb].
    + intros v u. rewrite dict_get_set.
      destruct (String.eqb nb v); [|apply K3].
      intros [= <-]. unfold dict_mem. now rewrite Hall.
Qed.

Lemma reconstruct_no_raise (st : state W) :
  keys_inv g st ->
  forall fuel c acc e,
    dict_mem g c = true ->
    reconstruct fuel (previous_nodes st) (Some c) acc <> Some (Raise e).
Proof.
  intros (K1 & K2 & K3).
  induction fuel as [|fuel IH]; intros c acc e Hc; simpl; [discriminate|].
  destruct (dict_get (previous_nodes st) c) as [[u|]|] eqn:Hp.
  - apply IH. exact (K3 c u Hp).
  - destruct fuel; discriminate.
  - destruct (K1 c Hc) as [_ Hn]. congruence.
Qed.

Lemma loop_no_raise rfuel fuel st e :
  keys_inv g st ->
  dijkstra_loop g end_node disabled_stations rfuel fuel st
    <> Some (Raise e).
Proof.
  revert st. induction fuel as [|fuel IH]; intros st Hinv; simpl;
    [discriminate|].
  destruct (heappop (priority_queue st)) as [[[cd cn] pq']|] eqn:Hpop;
    [|discriminate].
  destruct (heappop_subset _ Hpop) as [Hm Hsub].
  assert (Hinv' : keys_inv g
                    (mkState (distances st) (previous_nodes st) pq')).
  { destruct Hinv as (K1 & K2 & K3). split; [|split]; simpl; auto.
    intros d v Hin. apply (K2 d v). now apply Hsub. }
  destruct (str_in cn disabled_stations); [now apply IH|].
  assert (Hcn : dict_mem g cn = true).
  { destruct Hinv as (_ & K2 & _). exact (K2 cd cn Hm). }
  destruct (dict_get (distances st) cn) as [dc|] eqn:Hdc;
    [|destruct Hinv as (K1 & _); destruct (K1 cn Hcn); congruence].
  destruct (ext_ltb dc (Fin cd)); [now apply IH|].
  destruct (String.eqb_spec cn end_node) as [->|Hne].
  - pose proof (@reconstruct_no_raise st Hinv rfuel end_node [] e Hcn) as Hr.
    destruct (reconstruct rfuel (previous_nodes st) (Some end_node) [])
      as [[p|e']|]; [|congruence|discriminate].
    rewrite Hdc. discriminate.
  - unfold dict_mem in Hcn.
    destruct (dict_get g cn) as [items|] eqn:Hg; [|discriminate].
    destruct (@relax_keys_inv cd cn items items _ Hg (fun x Hx => Hx) Hinv')
      as (st'' & -> & Hinv'').
    now apply IH.
Qed.

Lemma initial_keys_inv start_node :
  dict_mem g start_node = true -> keys_inv g (initial_state g start_node).
Proof.
  intros Hs. unfold initial_state. split; [|split]; simpl.
  - intros v Hv. rewrite dict_get_set, !dict_get_const, Hv.
    destruct (String.eqb start_node v); split; discriminate.
  - intros d v [[= <- <-]|[]]. exact Hs.
  - intros v u. rewrite dict_get_const. destruct (dict_mem g v); discriminate.
Qed.

End NoKeyError.

(* ------------------------------------------------------------------ *)
(** ** Correctness of the search *)

Section Correctness.
Context {W : Type} {HW : Weight W} {HL : WeightLaws W}.
Variable g : graph W.
Variable start_node end_node : string.
Variable disabled_stations : list string.
Hypothesis Hwf : graph_wf g = true.
Hypothesis Hnonneg : graph_nonneg g = true.

Abbreviation inv := (search_inv g start_node disabled_stations end_node).
Abbreviation rel := (relaxed disabled_stations).
Abbreviation rel_all := (relaxed_all g disabled_stations).
Abbreviation walk_to := (walk g start_node disabled_stations).

Lemma wle_neq_wltb (a b : W) : wle a b -> a <> b -> wltb a b = true.
Proof.
  intros Hab Hne. destruct (wltb a b) eqn:E; [reflexivity|].
  exfalso. apply Hne. now apply wltb_total.
Qed.

Lemma chain_ok_ext previous previous' settled :
  (forall v, In v settled -> dict_get previous' v = dict_get previous v) ->
  chain_ok start_node previous settled ->
  chain_ok start_node previous' settled.
Proof.
  induction settled as [|x settled IH]; simpl; [auto|].
  intros Hext [Hx Hc]. split.
  - destruct Hx as [Hx|(u & Hu & Hin)]; [now left|].
    right. exists u. split; [|exact Hin].
    rewrite Hext; [exact Hu | now left].
  - apply IH; [|exact Hc]. intros v Hv. apply Hext. now right.
Qed.

Lemma NoDup_snoc {A : Type} (l : list A) (x : A) :
  NoDup l -> ~ In x l -> NoDup (l ++ [x]).
Proof.
  intros Hl Hx. apply NoDup_app; [exact Hl | repeat constructor; tauto |].
  intros a Ha [<-|[]]. tauto.
Qed.

(** One improving assignment of the inner loop keeps the invariant. *)
Lemma improve_step cn cd all settled st nb w dn :
  dict_get g cn = Some all -> In (nb, w) all ->
  str_in nb disabled_stations = false ->
  inv st (cn :: settled) -> rel_all st settled ->
  settled_below st (cn :: settled) cd ->
  dict_get (distances st) cn = Some (Fin cd) ->
  dict_get (distances st) nb = Some dn ->
  ext_ltb (Fin (wadd cd w)) dn = true ->
  let st2 := mkState (dict_set (distances st) nb (Fin (wadd cd w)))
                     (dict_set (previous_nodes st) nb (Some cn))
                     (heappush (priority_queue st) (wadd cd w, nb)) in
  inv st2 (cn :: settled) /\ rel_all st2 settled /\
  settled_below st2 (cn :: settled) cd /\
  dict_get (distances st2) cn = Some (Fin cd) /\
  (forall v w', rel st cn v w' -> rel st2 cn v w') /\
  rel st2 cn nb w.
Proof.
  intros Hall Hin Hnd Hinv Hrel Hbelow Hcn Hdn Himp st2.
  set (d' := wadd cd w) in *.
  assert (F1 : wle w0 w) by (eapply graph_nonneg_spec; eauto).
  assert (F2 : wle cd d') by now apply wle_add_nonneg.
  assert (F3 : wle w0 cd) by exact (si_nonneg Hinv _ Hcn).
  assert (F4 : forall x d, dict_get (distances st) x = Some (Fin d) ->
                           wle d d' -> nb <> x).
  { intros x d Hx Hle ->. rewrite Hx in Hdn. injection Hdn as <-.
    unfold ext_ltb in Himp. unfold wle in Hle. congruence. }
  assert (F5 : forall x, In x (cn :: settled) -> nb <> x).
  { intros x Hx. destruct (Hbelow x Hx) as (du & Hdu & Hle).
    apply (F4 x du Hdu). exact (wle_trans Hle F2). }
  assert (F5s : nb <> start_node).
  { apply (F4 _ w0 (proj1 (si_start Hinv))). exact (wle_trans F3 F2). }
  assert (F6 : forall x, nb <> x ->
                 dict_get (distances st2) x = dict_get (distances st) x).
  { intros x Hx. simpl. now apply dict_get_set_neq. }
  assert (F6' : dict_get (distances st2) nb = Some (Fin d')).
  { simpl. apply dict_get_set_eq. }
  assert (F6p : forall x, nb <> x ->
                 dict_get (previous_nodes st2) x
                 = dict_get (previous_nodes st) x).
  { intros x Hx. simpl. now apply dict_get_set_neq. }
  assert (F7 : forall x d, dict_get (distances st) x = Some (Fin d) ->
                 exists d2, dict_get (distances st2) x = Some (Fin d2) /\
                            wle d2 d).
  { intros x d Hx. destruct (String.eqb_spec nb x) as [<-|Hne].
    - exists d'. split; [exact F6'|].
      rewrite Hx in Hdn. injection Hdn as <-.
      unfold ext_ltb in Himp. now apply wltb_wle.
    - exists d. rewrite F6 by exact Hne. split; [exact Hx | apply wle_refl]. }
  assert (Hrelmono : forall u v w', In u (cn :: settled) ->
                       rel st u v w' -> rel st2 u v w').
  { intros u v w' Hu Hr Hv. destruct (Hr Hv) as (du & Hdu & Hsum).
    exists du. rewrite F6 by now apply F5. split; [exact Hdu|].
    intros Hf. destruct (Hsum Hf) as (dv & Hdv & Hle).
    destruct (F7 v dv Hdv) as (dv2 & Hdv2 & Hle2).
    exists dv2. split; [exact Hdv2 | exact (wle_trans Hle2 Hle)]. }
  assert (Ffin : wlt_inf d' = true).
  { destruct dn as [d|]; unfold ext_ltb in Himp; [|exact Himp].
    eapply wlt_inf_le; [apply wltb_wle; exact Himp|].
    exact (si_finite Hinv _ Hdn). }
  assert (Hqueue_old : forall d, In (d, nb) (priority_queue st) ->
                                 wltb d' d = true).
  { intros d Hd. destruct (si_queue Hinv _ _ Hd) as (d0 & Hd0 & Hle).
    rewrite Hd0 in Hdn. injection Hdn as <-. unfold ext_ltb in Himp.
    destruct (wltb d' d) eqn:E; [reflexivity|].
    assert (Hdd : wle d d') by exact E.
    pose proof (wle_trans Hle Hdd) as Hc. unfold wle in Hc. congruence. }
  split; [|split; [|split; [|split; [|split]]]].
  - constructor.
    + destruct (si_start Hinv) as [Hs1 Hs2]. split.
      * rewrite F6 by exact F5s. exact Hs1.
      * rewrite F6p by exact F5s. exact Hs2.
    + intros v d. destruct (String.eqb_spec nb v) as [<-|Hne].
      * rewrite F6'. intros [= <-]. exact (wle_trans F3 F2).
      * rewrite F6 by exact Hne. apply (si_nonneg Hinv).
    + intros v d. destruct (String.eqb_spec nb v) as [<-|Hne].
      * rewrite F6'. intros [= <-]. exact Ffin.
      * rewrite F6 by exact Hne. apply (si_finite Hinv).
    + intros d v Hq. simpl in Hq. unfold heappush in Hq.
      apply in_app_or in Hq. destruct Hq as [Hq|[[= <- <-]|[]]].
      * destruct (si_queue Hinv _ _ Hq) as (d0 & Hd0 & Hle).
        destruct (F7 v d0 Hd0) as (d2 & Hd2 & Hle2).
        exists d2. split; [exact Hd2 | exact (wle_trans Hle2 Hle)].
      * exists d'. split; [exact F6' | apply wle_refl].
    + simpl. unfold heappush. apply NoDup_snoc; [exact (si_nodup Hinv)|].
      intros Hq. apply Hqueue_old in Hq. rewrite wltb_irrefl in Hq.
      discriminate.
    + intros v d Hv. destruct (String.eqb_spec nb v) as [<-|Hne].
      * rewrite F6'. intros [= <-]. split; [exact Hnd|].
        exists cn, cd, w. split; [simpl; apply dict_get_set_eq|].
        split; [now left|]. split.
        -- rewrite F6; [exact Hcn | apply F5; now left].
        -- split; [|reflexivity]. eapply graph_edge_weight; eauto.
      * rewrite F6 by exact Hne. intros Hd.
        destruct (si_tree Hinv Hv Hd) as (Hvd & u & du & w' & H1 & H2 & H3 & H4).
        split; [exact Hvd|]. exists u, du, w'.
        rewrite F6p by exact Hne. rewrite F6 by now apply F5. auto.
    + intros v d. destruct (String.eqb_spec nb v) as [<-|Hne].
      * rewrite F6'. intros [= <-] _.
        eapply walk_step; [|exact Hall | exact Hin | exact Hnd].
        apply (si_walk Hinv _ Hcn).
        destruct (si_settled Hinv cn (or_introl eq_refl)) as [Hc _]. exact Hc.
      * rewrite F6 by exact Hne. apply (si_walk Hinv).
    + intros u Hu.
      destruct (si_settled Hinv u Hu) as (Hud & Hue & du & Hdu & Hq1 & Hq2).
      split; [exact Hud|]. split; [exact Hue|]. exists du.
      rewrite F6 by now apply F5. split; [exact Hdu|]. split.
      * intros d v Hq. simpl in Hq. unfold heappush in Hq.
        apply in_app_or in Hq. destruct Hq as [Hq|[[= <- <-]|[]]].
        -- exact (Hq1 d v Hq).
        -- destruct (Hbelow u Hu) as (du' & Hdu' & Hle).
           assert (du' = du) by congruence. subst du'.
           exact (wle_trans Hle F2).
      * intros d Hq. simpl in Hq. unfold heappush in Hq.
        apply in_app_or in Hq. destruct Hq as [Hq|[[= <- E]|[]]].
        -- exact (Hq2 d Hq).
        -- exfalso. now apply (F5 u Hu).
    + intros v d. simpl priority_queue. unfold heappush.
      destruct (String.eqb_spec nb v) as [<-|Hne].
      * rewrite F6'. intros [= <-] _ _. apply in_or_app. right. now left.
      * rewrite F6 by exact Hne. intros Hd Hvd Hvs.
        apply in_or_app. left. exact (si_frontier Hinv _ Hd Hvd Hvs).
    + eapply chain_ok_ext; [|exact (si_chain Hinv)].
      intros v Hv. apply F6p. now apply F5.
  - intros u nbrs v w' Hu Hg Hi. apply Hrelmono; [now right|].
    exact (Hrel u nbrs v w' Hu Hg Hi).
  - intros u Hu. destruct (Hbelow u Hu) as (du & Hdu & Hle).
    exists du. rewrite F6 by now apply F5. auto.
  - rewrite F6; [exact Hcn | apply F5; now left].
  - intros v w'. apply Hrelmono. now left.
  - intros _. exists cd. rewrite F6 by (apply F5; now left).
    split; [exact Hcn|]. intros _. exists d'.
    split; [exact F6' | apply wle_refl].
Qed.

(** The loop over the neighbours keeps the invariant and relaxes every
    edge it looks at. *)
Lemma relax_inv cn cd all settled :
  dict_get g cn = Some all ->
  forall items (D : string -> W -> Prop) st st',
    (forall x, In x items -> In x all) ->
    inv st (cn :: settled) -> rel_all st settled ->
    settled_below st (cn :: settled) cd ->
    dict_get (distances st) cn = Some (Fin cd) ->
    (forall v w, D v w -> rel st cn v w) ->
    relax disabled_stations cd cn items st = Some st' ->
    inv st' (cn :: settled) /\ rel_all st' settled /\
    settled_below st' (cn :: settled) cd /\
    dict_get (distances st') cn = Some (Fin cd) /\
    (forall v w, D v w \/ In (v, w) items -> rel st' cn v w) /\
    List.length (priority_queue st')
    <= List.length (priority_queue st) + List.length items.
Proof.
  intros Hall.
  induction items as [|[nb w] items IH]; simpl;
    intros D st st' Hsub Hinv Hrel Hbelow Hcn HD Hr.
  - injection Hr as <-. repeat (split; auto).
    + intros v w [Hd|[]]. now apply HD.
    + lia.
  - assert (Hsub' : forall x, In x items -> In x all)
      by (intros x Hx; apply Hsub; now right).
    assert (Hin : In (nb, w) all) by (apply Hsub; now left).
    set (D' := fun v w' => D v w' \/ (nb, w) = (v, w')).
    assert (Hfin : forall st1,
               (forall v w', D' v w' \/ In (v, w') items -> rel st1 cn v w') ->
               forall v w', D v w' \/ (nb, w) = (v, w') \/ In (v, w') items ->
                            rel st1 cn v w').
    { intros st1 H1 v w' [H2|[H2|H2]]; apply H1; unfold D'; auto. }
    destruct (str_in nb disabled_stations) eqn:Hnd.
    { destruct (IH D' st st' Hsub' Hinv Hrel Hbelow Hcn) as (I1 & I2 & I3 & I4 & I5 & I6);
        [|exact Hr|].
      - intros v w' [Hd|[= <- <-]]; [now apply HD|].
        intros Hc. congruence.
      - repeat (split; auto). lia. }
    destruct (dict_get (distances st) nb) as [dn|] eqn:Hdn; [|discriminate].
    destruct (ext_ltb (Fin (wadd cd w)) dn) eqn:Himp.
    + destruct (@improve_step cn cd all settled st nb w dn
                  Hall Hin Hnd Hinv Hrel Hbelow Hcn Hdn Himp)
        as (J1 & J2 & J3 & J4 & J5 & J6).
      destruct (IH D' _ st' Hsub' J1 J2 J3 J4) as (I1 & I2 & I3 & I4 & I5 & I6);
        [|exact Hr|].
      * intros v w' [Hd|[= <- <-]]; [apply J5; now apply HD | exact J6].
      * repeat (split; auto).
        simpl in I6. unfold heappush in I6. rewrite length_app in I6.
        simpl in I6. lia.
    + destruct (IH D' st st' Hsub' Hinv Hrel Hbelow Hcn) as (I1 & I2 & I3 & I4 & I5 & I6);
        [|exact Hr|].
      * intros v w' [Hd|[= <- <-]]; [now apply HD|].
        intros _. exists cd. split; [exact Hcn|]. intros Hf.
        destruct dn as [dv|].
        -- exists dv. split; [exact Hdn | exact Himp].
        -- unfold ext_ltb in Himp. congruence.
      * repeat (split; auto). lia.
Qed.

(** *** Popping an item *)

Lemma pop_exact st settled cd cn dc :
  inv st settled -> In (cd, cn) (priority_queue st) ->
  dict_get (distances st) cn = Some dc ->
  ext_ltb dc (Fin cd) = false ->
  dc = Fin cd /\ ~ In cn settled.
Proof.
  intros Hinv Hin Hdc Hstale.
  destruct (si_queue Hinv _ _ Hin) as (d' & Hd' & Hle).
  rewrite Hdc in Hd'. injection Hd' as ->. unfold ext_ltb in Hstale.
  assert (d' = cd) by (apply wle_antisym; [exact Hle | exact Hstale]).
  subst d'. split; [reflexivity|].
  intros Hs. destruct (si_settled Hinv cn Hs) as (_ & _ & du & Hdu & _ & Hq).
  specialize (Hq cd Hin). rewrite Hdc in Hdu. injection Hdu as <-.
  rewrite wltb_irrefl in Hq. discriminate.
Qed.

(** A disabled or stale item is dropped. *)
Lemma pop_skip st settled cd cn pq' :
  inv st settled ->
  heappop (priority_queue st) = Some ((cd, cn), pq') ->
  (str_in cn disabled_stations = true \/
   exists dc, dict_get (distances st) cn = Some dc /\
              ext_ltb dc (Fin cd) = true) ->
  inv (mkState (distances st) (previous_nodes st) pq') settled.
Proof.
  intros Hinv Hpop Hskip.
  destruct (heappop_spec _ Hpop) as (Hm & -> & Hmin & Hlen).
  constructor; simpl.
  - exact (si_start Hinv).
  - exact (si_nonneg Hinv).
  - exact (si_finite Hinv).
  - intros d v Hq. apply (si_queue Hinv). now apply heap_remove_In in Hq.
  - now apply heap_remove_NoDup, (si_nodup Hinv).
  - exact (si_tree Hinv).
  - exact (si_walk Hinv).
  - intros u Hu.
    destruct (si_settled Hinv u Hu) as (H1 & H2 & du & H3 & H4 & H5).
    split; [exact H1|]. split; [exact H2|]. exists du.
    split; [exact H3|]. split.
    + intros d v Hq. apply (H4 d v). now apply heap_remove_In in Hq.
    + intros d Hq. apply H5. now apply heap_remove_In in Hq.
  - intros v d Hd Hvd Hvs. apply In_heap_remove.
    + exact (si_frontier Hinv _ Hd Hvd Hvs).
    + intros [= -> ->]. destruct Hskip as [Hdis|(dc & Hdc & Hst)].
      * congruence.
      * rewrite Hd in Hdc. injection Hdc as <-. unfold ext_ltb in Hst.
        rewrite wltb_irrefl in Hst. discriminate.
  - exact (si_chain Hinv).
Qed.

(** A fresh item is expanded: its node joins the settled ones. *)
Lemma pop_expand st settled cd cn pq' :
  inv st settled ->
  heappop (priority_queue st) = Some ((cd, cn), pq') ->
  str_in cn disabled_stations = false ->
  dict_get (distances st) cn = Some (Fin cd) ->
  ~ In cn settled -> cn <> end_node ->
  let st' := mkState (distances st) (previous_nodes st) pq' in
  inv st' (cn :: settled) /\ settled_below st' (cn :: settled) cd.
Proof.
  intros Hinv Hpop Hnd Hdc Hfresh Hne st'.
  destruct (heappop_spec _ Hpop) as (Hm & -> & Hmin & Hlen).
  destruct (heap_remove_NoDup (cd, cn) (si_nodup Hinv)) as [Hnd' Hgone].
  split.
  - constructor; simpl.
    + exact (si_start Hinv).
    + exact (si_nonneg Hinv).
    + exact (si_finite Hinv).
    + intros d v Hq. apply (si_queue Hinv). now apply heap_remove_In in Hq.
    + exact Hnd'.
    + intros v d Hv Hd.
      destruct (si_tree Hinv Hv Hd) as (H1 & u & du & w & H2 & H3 & H4).
      split; [exact H1|]. exists u, du, w. split; [exact H2|].
      split; [now right | exact H4].
    + exact (si_walk Hinv).
    + intros u [<-|Hu].
      * split; [exact Hnd|]. split; [exact Hne|]. exists cd.
        split; [exact Hdc|]. split.
        -- intros d v Hq. apply heap_remove_In in Hq.
           exact (Hmin _ Hq).
        -- intros d Hq. apply wle_neq_wltb.
           ++ apply heap_remove_In in Hq. exact (Hmin _ Hq).
           ++ intros <-. exact (Hgone Hq).
      * destruct (si_settled Hinv u Hu) as (H1 & H2 & du & H3 & H4 & H5).
        split; [exact H1|]. split; [exact H2|]. exists du.
        split; [exact H3|]. split.
        -- intros d v Hq. apply (H4 d v). now apply heap_remove_In in Hq.
        -- intros d Hq. apply H5. now apply heap_remove_In in Hq.
    + intros v d Hd Hvd Hvs. apply In_heap_remove.
      * apply (si_frontier Hinv _ Hd Hvd). intros Hs. apply Hvs. now right.
      * intros [= -> ->]. apply Hvs. now left.
    + split; [|exact (si_chain Hinv)].
      destruct (String.eqb_spec cn start_node) as [->|Hns]; [now left|].
      right. destruct (si_tree Hinv Hns Hdc) as (_ & u & du & w & H2 & H3 & _).
      exists u. auto.
  - intros u [<-|Hu].
    + exists cd. split; [exact Hdc | apply wle_refl].
    + destruct (si_settled Hinv u Hu) as (_ & _ & du & H3 & H4 & _).
      exists du. split; [exact H3 | exact (H4 _ _ Hm)].
Qed.

(** *** The measure of the loop *)

Lemma potential_mono settled x (gr : graph W) :
  potential (x :: settled) gr <= potential settled gr.
Proof.
  induction gr as [|[k nbrs] gr IH]; simpl; [lia|].
  destruct (String.eqb k x); [lia|].
  destruct (str_in k settled); lia.
Qed.

Lemma potential_settle settled cn items (gr : graph W) :
  dict_get gr cn = Some items -> ~ In cn settled ->
  potential (cn :: settled) gr + List.length items <= potential settled gr.
Proof.
  intros Hg Hfresh. apply str_in_not_In in Hfresh.
  induction gr as [|[k nbrs] gr IH]; simpl in *; [discriminate|].
  destruct (String.eqb_spec cn k) as [->|Hne].
  - injection Hg as ->. rewrite String.eqb_refl, Hfresh.
    pose proof (potential_mono settled k gr). lia.
  - destruct (String.eqb_spec k cn); [congruence|].
    specialize (IH Hg). destruct (str_in k settled); lia.
Qed.

Lemma potential_nil (gr : graph W) : potential [] gr = edge_count gr.
Proof.
  unfold edge_count. induction gr as [|[k nbrs] gr IH]; simpl; [reflexivity|].
  now rewrite IH.
Qed.

(** *** The reconstructed path and its cost *)

Lemma last_default_irrelevant {A : Type} (q : list A) (z x y : A) :
  last (z :: q) x = last (z :: q) y.
Proof.
  revert z. induction q as [|a q IH]; intros z; [reflexivity|].
  exact (IH a).
Qed.

Lemma last_cons {A : Type} (q : list A) (y x : A) :
  last (y :: q) x = last q y.
Proof.
  destruct q as [|a q]; [reflexivity|].
  change (last (a :: q) x = last (a :: q) y).
  apply last_default_irrelevant.
Qed.

Lemma path_cost_from_snoc q acc x c v w :
  path_cost_from g acc x q = Some c ->
  edge_weight g (last q x) v = Some w ->
  path_cost_from g acc x (q ++ [v]) = Some (wadd c w).
Proof.
  revert acc x. induction q as [|y q IH]; intros acc x Hc He.
  - simpl in *. injection Hc as <-. now rewrite He.
  - cbn [path_cost_from app] in *.
    destruct (edge_weight g x y) as [w'|]; [|discriminate].
    apply IH; [exact Hc|].
    rewrite <- (last_cons q y x). exact He.
Qed.

Lemma path_cost_snoc pre u c v w :
  path_cost g (pre ++ [u]) = Some c ->
  edge_weight g u v = Some w ->
  path_cost g ((pre ++ [u]) ++ [v]) = Some (wadd c w).
Proof.
  destruct pre as [|x pre]; simpl; intros Hc He.
  - injection Hc as <-. now rewrite He.
  - apply path_cost_from_snoc; [exact Hc|]. now rewrite last_last.
Qed.

(** From a settled node the predecessor links lead back to the start,
    along a path whose cost is the distance recorded for the node. *)
Lemma chain_path st settled :
  inv st settled ->
  forall L,
    (forall v, In v L -> In v settled) ->
    chain_ok start_node (previous_nodes st) L ->
    forall v fuel acc,
      In v L -> List.length L <= fuel ->
      exists pre d,
        reconstruct fuel (previous_nodes st) (Some v) acc
        = Some (Ok ((pre ++ [v]) ++ acc)) /\
        dict_get (distances st) v = Some (Fin d) /\
        hd_error (pre ++ [v]) = Some start_node /\
        (forall x, In x (pre ++ [v]) ->
                   str_in x disabled_stations = false) /\
        path_cost g (pre ++ [v]) = Some d.
Proof.
  intros Hinv.
  induction L as [|x L IH]; [intros _ _ v fuel acc []|].
  cbn [chain_ok]. intros Hsub [Hx Hchain] v fuel acc Hv Hfuel.
  cbn [List.length] in Hfuel.
  assert (Hsub' : forall v, In v L -> In v settled)
    by (intros y Hy; apply Hsub; now right).
  destruct (String.eqb_spec v x) as [->|Hvx].
  - destruct fuel as [|fuel]; [lia|].
    destruct (si_settled Hinv x (Hsub x (or_introl eq_refl)))
      as (Hxd & _ & dx & Hdx & _).
    destruct (String.eqb_spec x start_node) as [->|Hns].
    + exists [], w0. simpl. rewrite (proj2 (si_start Hinv)).
      split; [destruct fuel; reflexivity|].
      split; [exact (proj1 (si_start Hinv))|].
      split; [reflexivity|]. split; [|reflexivity].
      intros y [<-|[]]. exact Hxd.
    + destruct (si_tree Hinv Hns Hdx)
        as (_ & u & du & w & Hp & _ & Hdu & Hew & ->).
      destruct Hx as [Hx|(u' & Hp' & Hu')]; [congruence|].
      assert (u' = u) by congruence. subst u'.
      destruct (IH Hsub' Hchain u fuel (x :: acc) Hu' ltac:(lia))
        as (pre & d & Hrec & Hd & Hhd & Hdis & Hcost).
      assert (d = du) by congruence. subst d.
      exists (pre ++ [u]), (wadd du w). simpl. rewrite Hp.
      split; [rewrite Hrec; now rewrite <- !app_assoc|].
      split; [exact Hdx|].
      split; [destruct pre; exact Hhd|]. split.
      * intros y Hy. apply in_app_or in Hy.
        destruct Hy as [Hy|[<-|[]]]; [now apply Hdis | exact Hxd].
      * now apply path_cost_snoc.
  - destruct Hv as [Hv|Hv]; [congruence|].
    apply IH; auto. lia.
Qed.

(** The path returned when the destination is popped. *)
Lemma end_path st settled cd rfuel :
  inv st settled ->
  dict_get (distances st) end_node = Some (Fin cd) ->
  str_in end_node disabled_stations = false ->
  List.length settled < rfuel ->
  exists path,
    reconstruct rfuel (previous_nodes st) (Some end_node) []
    = Some (Ok path) /\
    is_path g disabled_stations start_node end_node path cd.
Proof.
  intros Hinv Hd Hnd Hfuel.
  destruct rfuel as [|rfuel]; [lia|].
  destruct (String.eqb_spec end_node start_node) as [E|Hns].
  - exists [end_node]. simpl. rewrite E, (proj2 (si_start Hinv)).
    split; [destruct rfuel; reflexivity|].
    assert (cd = w0).
    { rewrite E in Hd. rewrite (proj1 (si_start Hinv)) in Hd. congruence. }
    subst cd. unfold is_path. simpl. repeat split; auto.
    intros x [<-|[]]. now rewrite <- E.
  - destruct (si_tree Hinv Hns Hd)
      as (_ & u & du & w & Hp & Hu & Hdu & Hew & ->).
    destruct (@chain_path st settled Hinv settled (fun v H => H)
                          (si_chain Hinv) u rfuel [end_node] Hu ltac:(lia))
      as (pre & d & Hrec & Hd' & Hhd & Hdis & Hcost).
    assert (d = du) by congruence. subst d.
    exists ((pre ++ [u]) ++ [end_node]). simpl. rewrite Hp, Hrec.
    split; [reflexivity|]. unfold is_path. split; [|split; [|split]].
    + destruct pre; exact Hhd.
    + now rewrite last_last.
    + intros y Hy. apply in_app_or in Hy.
      destruct Hy as [Hy|[<-|[]]]; [now apply Hdis | exact Hnd].
    + now apply path_cost_snoc.
Qed.

(** *** Paths of the graph and the search *)

Lemma path_cost_from_walk q x acc c :
  walk_to x acc ->
  (forall y, In y q -> str_in y disabled_stations = false) ->
  path_cost_from g acc x q = Some c ->
  walk_to (last q x) c.
Proof.
  revert x acc. induction q as [|v q IH]; intros x acc Hw Hdis Hc.
  - simpl in *. now injection Hc as <-.
  - cbn [path_cost_from] in Hc. unfold edge_weight in Hc.
    destruct (dict_get g x) as [nbrs|] eqn:Hg; [|discriminate].
    destruct (dict_get nbrs v) as [w|] eqn:Hn; [|discriminate].
    assert (Hv : walk_to v (wadd acc w)).
    { eapply walk_step; [exact Hw | exact Hg | now apply dict_get_In |].
      apply Hdis. now left. }
    specialize (IH v _ Hv (fun y Hy => Hdis y (or_intror Hy)) Hc).
    rewrite (last_cons q v x). exact IH.
Qed.

Lemma is_path_walk s e p c :
  s = start_node ->
  is_path g disabled_stations s e p c -> walk_to e c.
Proof.
  intros -> (Hhd & Hlast & Hdis & Hcost).
  destruct p as [|x q]; [discriminate|].
  injection Hhd as ->. simpl in Hcost. rewrite <- Hlast.
  rewrite last_cons. eapply path_cost_from_walk; [| |exact Hcost].
  - apply walk_start. apply Hdis. now left.
  - intros y Hy. apply Hdis. now right.
Qed.

(** When the frontier is empty every station that can be reached has
    been expanded. *)
Lemma empty_frontier_settled st settled v c :
  inv st settled -> rel_all st settled ->
  priority_queue st = [] ->
  walk_to v c -> wlt_inf c = true ->
  In v settled /\
  exists dv, dict_get (distances st) v = Some (Fin dv) /\ wle dv c.
Proof.
  intros Hinv Hrel Hpq Hw.
  assert (Hfr : forall x d, dict_get (distances st) x = Some (Fin d) ->
                  str_in x disabled_stations = false -> In x settled).
  { intros x d Hd Hx. destruct (in_dec string_dec x settled) as [Hs|Hs];
      [exact Hs|].
    pose proof (si_frontier Hinv _ Hd Hx Hs) as Hq. rewrite Hpq in Hq.
    destruct Hq. }
  induction Hw as [Hs|u c nbrs v w Hw IH Hg Hin Hv]; intros Hfin.
  - split; [exact (Hfr _ _ (proj1 (si_start Hinv)) Hs)|].
    exists w0. split; [exact (proj1 (si_start Hinv)) | apply wle_refl].
  - assert (Hw0 : wle w0 w) by (eapply graph_nonneg_spec; eauto).
    destruct (IH (wlt_inf_add c Hw0 Hfin)) as (Hu & du & Hdu & Hle).
    destruct (Hrel u nbrs v w Hu Hg Hin Hv) as (du' & Hdu' & Hsum).
    assert (du' = du) by congruence. subst du'.
    pose proof (wadd_mono_l w Hle) as Hmono.
    destruct (Hsum (wlt_inf_le Hmono Hfin)) as (dv & Hdv & Hrl).
    split; [exact (Hfr _ _ Hdv Hv)|].
    exists dv. split; [exact Hdv | exact (wle_trans Hrl Hmono)].
Qed.

(** No path beats the smallest item of the frontier, unless it ends in
    a settled node, whose distance it cannot beat either. *)
Lemma frontier_lower_bound st settled cd v c :
  inv st settled -> rel_all st settled ->
  (forall d x, In (d, x) (priority_queue st) -> wle cd d) ->
  walk_to v c -> wlt_inf c = true ->
  wle cd c \/
  (In v settled /\
   exists dv, dict_get (distances st) v = Some (Fin dv) /\ wle dv c).
Proof.
  intros Hinv Hrel Hmin Hw.
  induction Hw as [Hs|u c nbrs v w Hw IH Hg Hin Hv]; intros Hfin.
  - destruct (in_dec string_dec start_node settled) as [Hin|Hout].
    + right. split; [exact Hin|]. exists w0.
      split; [exact (proj1 (si_start Hinv)) | apply wle_refl].
    + left. apply (Hmin w0 start_node).
      exact (si_frontier Hinv _ (proj1 (si_start Hinv)) Hs Hout).
  - assert (Hw0 : wle w0 w) by (eapply graph_nonneg_spec; eauto).
    destruct (IH (wlt_inf_add c Hw0 Hfin)) as [Hle|(Hu & du & Hdu & Hle)].
    + left. exact (wle_trans Hle (wle_add_nonneg c Hw0)).
    + destruct (Hrel u nbrs v w Hu Hg Hin Hv) as (du' & Hdu' & Hsum).
      assert (du' = du) by congruence. subst du'.
      pose proof (wadd_mono_l w Hle) as Hmono.
      destruct (Hsum (wlt_inf_le Hmono Hfin)) as (dv & Hdv & Hrl).
      assert (Hdvc : wle dv (wadd c w)) by exact (wle_trans Hrl Hmono).
      destruct (in_dec string_dec v settled) as [Hin'|Hout].
      * right. split; [exact Hin'|]. exists dv. auto.
      * left. pose proof (si_frontier Hinv _ Hdv Hv Hout) as Hq.
        exact (wle_trans (Hmin _ _ Hq) Hdvc).
Qed.

(** *** The [while] loop *)

Hypothesis Hclosed : graph_closed g = true.

Lemma heappop_None (pq : list (W * string)) : heappop pq = None -> pq = [].
Proof. destruct pq; [reflexivity | discriminate]. Qed.

Theorem loop_correct rfuel :
  forall fuel st settled,
    keys_inv g st -> inv st settled -> rel_all st settled ->
    List.length (priority_queue st) + potential settled g < fuel ->
    List.length settled + fuel <= rfuel ->
    exists r,
      dijkstra_loop g end_node disabled_stations rfuel fuel st
      = Some (Ok r) /\
      search_post g start_node disabled_stations end_node r.
Proof.
  induction fuel as [|fuel IH]; intros st settled Hkeys Hinv Hrel Hm Hr;
    [lia|].
  cbn [dijkstra_loop].
  destruct (heappop (priority_queue st)) as [[[cd cn] pq']|] eqn:Hpop.
  2:{ exists NoRoute. split; [reflexivity|]. intros c Hw.
      apply heappop_None in Hpop.
      destruct (wlt_inf c) eqn:Hfin; [exfalso | reflexivity].
      destruct (empty_frontier_settled Hinv Hrel Hpop Hw Hfin) as [Hs _].
      destruct (si_settled Hinv _ Hs) as (_ & Hne & _). now apply Hne. }
  destruct (heappop_spec _ Hpop) as (Hin & Hpq' & Hmin & Hlen).
  assert (Hkeys' : keys_inv g (mkState (distances st) (previous_nodes st) pq')).
  { destruct Hkeys as (K1 & K2 & K3). split; [|split]; simpl; auto.
    intros d v Hq. apply (K2 d v). rewrite Hpq' in Hq.
    now apply heap_remove_In in Hq. }
  assert (Hcn : dict_mem g cn = true).
  { destruct Hkeys as (_ & K2 & _). exact (K2 cd cn Hin). }
  destruct (str_in cn disabled_stations) eqn:Hdis.
  { apply (IH _ settled); auto.
    - apply (pop_skip Hinv Hpop). now left.
    - simpl. lia.
    - lia. }
  destruct (dict_get (distances st) cn) as [dc|] eqn:Hdc.
  2:{ destruct Hkeys as (K1 & _). destruct (K1 cn Hcn). congruence. }
  destruct (ext_ltb dc (Fin cd)) eqn:Hstale.
  { apply (IH _ settled); auto.
    - apply (pop_skip Hinv Hpop). right. eauto.
    - simpl. lia.
    - lia. }
  destruct (@pop_exact st settled cd cn dc Hinv Hin Hdc Hstale)
    as [-> Hfresh].
  destruct (String.eqb_spec cn end_node) as [->|Hne].
  - destruct (@end_path st settled cd rfuel Hinv Hdc Hdis ltac:(lia))
      as (path & -> & Hpath).
    rewrite Hdc. exists (Route (Fin cd) path). split; [reflexivity|].
    exists cd. split; [reflexivity|]. split; [exact Hpath|].
    pose proof (si_finite Hinv _ Hdc) as Hcd. split; [exact Hcd|].
    intros c Hw.
    destruct (wlt_inf c) eqn:Hfin; [|now apply wlt_inf_below].
    destruct (@frontier_lower_bound st settled cd end_node c Hinv Hrel)
      as [Hle|(Hs & _)]; auto.
    + intros d x Hq. exact (Hmin _ Hq).
    + destruct (si_settled Hinv _ Hs) as (_ & Hne & _). now contradiction Hne.
  - unfold dict_mem in Hcn.
    destruct (dict_get g cn) as [items|] eqn:Hg; [|discriminate].
    destruct (@relax_keys_inv W HW g disabled_stations Hclosed cd cn items
                              items _ Hg (fun x Hx => Hx) Hkeys')
      as (st'' & Hrelax & Hkeys'').
    rewrite Hrelax.
    destruct (@pop_expand st settled cd cn pq' Hinv Hpop Hdis Hdc Hfresh Hne)
      as [Hinv' Hbelow].
    destruct (@relax_inv cn cd items settled Hg items (fun _ _ => False)
                         _ st'' (fun x Hx => Hx) Hinv' Hrel Hbelow Hdc
                         (fun v w (F : False) => match F with end) Hrelax)
      as (I1 & I2 & I3 & I4 & I5 & I6).
    apply (IH _ (cn :: settled)); auto.
    + intros u nbrs v w [<-|Hu] Hgu Hi.
      * apply I5. right. congruence.
      * exact (I2 u nbrs v w Hu Hgu Hi).
    + pose proof (@potential_settle settled cn items g Hg Hfresh).
      simpl in I6. lia.
    + simpl. lia.
Qed.

Lemma initial_inv :
  dict_mem g start_node = true ->
  inv (initial_state g start_node) [] /\
  rel_all (initial_state g start_node) [].
Proof.
  intros Hs.
  assert (Hd : forall v d,
             dict_get (distances (initial_state g start_node)) v
             = Some (Fin d) -> v = start_node /\ d = w0).
  { intros v d. simpl. rewrite dict_get_set, dict_get_const.
    destruct (String.eqb_spec start_node v) as [->|Hne].
    - intros [= <-]. auto.
    - destruct (dict_mem g v); discriminate. }
  split; [constructor|]; simpl.
  - split; [apply dict_get_set_eq|]. now rewrite dict_get_const, Hs.
  - intros v d Hv. destruct (Hd v d Hv) as [_ ->]. apply wle_refl.
  - intros v d Hv. destruct (Hd v d Hv) as [_ ->]. apply wlt_inf_0.
  - intros d v [[= <- <-]|[]]. exists w0.
    split; [apply dict_get_set_eq | apply wle_refl].
  - repeat constructor. simpl. tauto.
  - intros v d Hne Hv. destruct (Hd v d Hv) as [-> _]. congruence.
  - intros v d Hv Hdis. destruct (Hd v d Hv) as [-> ->].
    now apply walk_start.
  - intros u [].
  - intros v d Hv _ _. destruct (Hd v d Hv) as [-> ->]. now left.
  - exact I.
  - intros u nbrs v w [].
Qed.

(** The search ends, and returns a cheapest path exactly when there is
    a path. *)
Theorem dijkstra_total fuel :
  dict_mem g start_node = true ->
  edge_count g + 2 <= fuel ->
  exists r,
    dijkstra_fuel g end_node disabled_stations fuel start_node
    = Some (Ok r) /\
    search_post g start_node disabled_stations end_node r.
Proof.
  intros Hs Hfuel. unfold dijkstra_fuel.
  destruct (initial_inv Hs) as [Hinv Hrel].
  apply (@loop_correct fuel fuel _ []); auto.
  - now apply initial_keys_inv.
  - rewrite potential_nil. simpl. lia.
Qed.

End Correctness.

(* ------------------------------------------------------------------ *)
(** ** The carriers obey the laws *)

#[export] Instance WeightLaws_Z : WeightLaws Z.
Proof.
  constructor; unfold wle; simpl; intros.
  - apply Z.eqb_eq.
  - apply Z.ltb_irrefl.
  - rewrite Z.ltb_lt in *. lia.
  - rewrite Z.ltb_ge in *. lia.
  - apply Z.add_0_r.
  - rewrite Z.ltb_ge in *. lia.
  - rewrite Z.ltb_ge in *. lia.
  - reflexivity.
  - reflexivity.
Qed.

Lemma Rltb_true (x y : R) : Rltb x y = true <-> (x < y)%R.
Proof.
  unfold Rltb. destruct (Rlt_dec x y); split; auto; discriminate.
Qed.

Lemma Rltb_false (x y : R) : Rltb x y = false <-> (y <= x)%R.
Proof.
  unfold Rltb. destruct (Rlt_dec x y); split; intros;
    try lra; try discriminate; auto.
Qed.

Lemma Reqb_true (x y : R) : Reqb x y = true <-> x = y.
Proof.
  unfold Reqb. destruct (Req_dec_T x y); split; auto; discriminate.
Qed.

Lemma wle_R (x y : R) : wle x y <-> (x <= y)%R.
Proof. unfold wle. simpl. apply Rltb_false. Qed.

#[export] Instance WeightLaws_R : WeightLaws R.
Proof.
  constructor; unfold wle; simpl; intros.
  - apply Reqb_true.
  - apply Rltb_false. lra.
  - rewrite Rltb_true in *. lra.
  - rewrite Rltb_false in *. lra.
  - apply Rplus_0_r.
  - rewrite Rltb_false in *. lra.
  - rewrite Rltb_false in *. lra.
  - reflexivity.
  - reflexivity.
Qed.

(* ------------------------------------------------------------------ *)
(** ** More rounds do not change a result *)

Section Fuel.
Context {W : Type} {HW : Weight W}.
Variable g : graph W.
Variable end_node : string.
Variable disabled_stations : list string.

Lemma reconstruct_mono previous n m c acc r :
  reconstruct n previous c acc = Some r -> n <= m ->
  reconstruct m previous c acc = Some r.
Proof.
  revert m c acc. induction n as [|n IH]; intros m c acc Hr Hle.
  - destruct c; simpl in Hr; [discriminate|].
    destruct m; exact Hr.
  - destruct c as [c|]; [|destruct m; exact Hr].
    destruct m as [|m]; [lia|]. simpl in *.
    destruct (dict_get previous c) as [p|]; [|exact Hr].
    apply IH; [exact Hr | lia].
Qed.

Lemma loop_mono rfuel rfuel' fuel fuel' st r :
  dijkstra_loop g end_node disabled_stations rfuel fuel st = Some r ->
  rfuel <= rfuel' -> fuel <= fuel' ->
  dijkstra_loop g end_node disabled_stations rfuel' fuel' st = Some r.
Proof.
  intros Hr Hrf. revert fuel' st Hr.
  induction fuel as [|fuel IH]; intros fuel' st Hr Hle; [discriminate|].
  destruct fuel' as [|fuel']; [lia|].
  assert (Hle' : fuel <= fuel') by lia.
  cbn [dijkstra_loop] in *.
  destruct (heappop (priority_queue st)) as [[[cd cn] pq']|]; [|exact Hr].
  destruct (str_in cn disabled_stations); [now apply IH|].
  destruct (dict_get (distances st) cn) as [dc|]; [|exact Hr].
  destruct (ext_ltb dc (Fin cd)); [now apply IH|].
  destruct (String.eqb cn end_node).
  - destruct (reconstruct rfuel (previous_nodes st) (Some cn) [])
      as [rp|] eqn:Hrec; [|discriminate].
    now rewrite (reconstruct_mono _ _ _ Hrec Hrf).
  - destruct (dict_get g cn) as [items|]; [|exact Hr].
    destruct (relax disabled_stations cd cn items _) as [st''|];
      [now apply IH | exact Hr].
Qed.

Lemma dijkstra_fuel_mono fuel fuel' start_node r :
  dijkstra_fuel g end_node disabled_stations fuel start_node = Some r ->
  fuel <= fuel' ->
  dijkstra_fuel g end_node disabled_stations fuel' start_node = Some r.
Proof.
  unfold dijkstra_fuel. intros Hr Hle. now apply (loop_mono _ Hr).
Qed.

End Fuel.

(** The rounds [dijkstra] allows are enough: any larger number gives the
    same result. *)
Lemma dijkstra_fuel_enough
      (W : Type) (HW : Weight W) (HL : WeightLaws W)
      (g : graph W) (start_node end_node : string)
      (disabled_stations : list string) (fuel : nat) :
  graph_wf g = true -> graph_closed g = true -> graph_nonneg g = true ->
  dict_mem g start_node = true ->
  edge_count g + 2 <= fuel ->
  dijkstra_fuel g end_node disabled_stations fuel start_node
  = dijkstra g start_node end_node disabled_stations.
Proof.
  intros Hwf Hclosed Hnonneg Hs Hfuel. unfold dijkstra.
  destruct (@dijkstra_total W HW HL g start_node end_node disabled_stations
                            Hwf Hnonneg Hclosed (edge_count g + 2) Hs
                            (Nat.le_refl _)) as (r & Hr & _).
  rewrite Hr. exact (dijkstra_fuel_mono _ _ _ _ Hr Hfuel).
Qed.

(* ------------------------------------------------------------------ *)
(** ** The first round of the search *)

Section FirstRound.
Context {W : Type} {HW : Weight W} {HL : WeightLaws W}.
Variable g : graph W.
Variable disabled_stations : list string.

Lemma heappop_singleton (x : W * string) : heappop [x] = Some (x, []).
Proof.
  unfold heappop. simpl.
  assert (E : entry_eqb x x = true) by now apply entry_eqb_eq.
  now rewrite E.
Qed.

Lemma loop_empty_frontier end_node rfuel fuel (st : state W) :
  priority_queue st = [] ->
  dijkstra_loop g end_node disabled_stations rfuel (S fuel) st
  = Some (Ok NoRoute).
Proof. intros E. cbn [dijkstra_loop]. now rewrite E. Qed.

(** A disabled start is popped, dropped, and leaves the frontier empty. *)
Lemma disabled_start_no_route start_node end_node fuel :
  str_in start_node disabled_stations = true -> 2 <= fuel ->
  dijkstra_fuel g end_node disabled_stations fuel start_node
  = Some (Ok NoRoute).
Proof.
  intros Hdis Hfuel. unfold dijkstra_fuel, initial_state.
  destruct fuel as [|[|fuel]]; try lia.
  cbn [dijkstra_loop priority_queue].
  now rewrite heappop_singleton, Hdis.
Qed.

(** A query from a station to itself ends in the first round. *)
Lemma same_node_result s fuel r :
  dijkstra_fuel g s disabled_stations fuel s = Some (Ok r) ->
  r = NoRoute \/ r = Route (Fin w0) [s].
Proof.
  unfold dijkstra_fuel, initial_state.
  destruct fuel as [|fuel]; [discriminate|].
  cbn [dijkstra_loop priority_queue distances previous_nodes].
  rewrite heappop_singleton.
  destruct (str_in s disabled_stations).
  - destruct fuel; [discriminate|]. cbn [dijkstra_loop priority_queue].
    intros [= <-]. now left.
  - rewrite dict_get_set_eq. unfold ext_ltb at 1.
    rewrite wltb_irrefl, String.eqb_refl.
    cbn [reconstruct]. rewrite dict_get_const.
    destruct (dict_mem g s); [|discriminate].
    assert (E : reconstruct fuel (dict_const g None) None [s]
                = Some (Ok [s])) by (destruct fuel; reflexivity).
    rewrite E. intros [= <-]. now right.
Qed.

(** From a station without neighbours no other station is found. *)
Lemma isolated_start_no_route s end_node fuel :
  dict_get g s = Some [] -> s <> end_node -> 2 <= fuel ->
  dijkstra_fuel g end_node disabled_stations fuel s = Some (Ok NoRoute).
Proof.
  intros Hg Hne Hfuel. unfold dijkstra_fuel, initial_state.
  destruct fuel as [|[|fuel]]; try lia.
  cbn [dijkstra_loop priority_queue distances previous_nodes].
  rewrite heappop_singleton.
  destruct (str_in s disabled_stations); [reflexivity|].
  rewrite dict_get_set_eq. unfold ext_ltb at 1. rewrite wltb_irrefl.
  destruct (String.eqb_spec s end_node) as [E|_]; [contradiction|].
  rewrite Hg. reflexivity.
Qed.

End FirstRound.

(* ================================================================== *)
(** ** The claims about the search *)

(** C5.  A query whose start station is disabled returns the no-path
    result: the start is popped at distance 0 and dropped, and the next
    round finds the frontier empty.  Whenever the frontier is empty the
    loop returns the no-path result, and on a graph whose neighbours are
    all keys a query from a key never raises. *)
Theorem dijkstra_disabled_start_no_path
        (W : Type) (HW : Weight W) (HL : WeightLaws W)
        (g : graph W) (start_node end_node : string)
        (disabled_stations : list string) :
  (str_in start_node disabled_stations = true ->
   dijkstra g start_node end_node disabled_stations = Some (Ok NoRoute) /\
   forall fuel, 2 <= fuel ->
     dijkstra_fuel g end_node disabled_stations fuel start_node
     = Some (Ok NoRoute)) /\
  (forall rfuel fuel (st : state W),
      priority_queue st = [] ->
      dijkstra_loop g end_node disabled_stations rfuel (S fuel) st
      = Some (Ok NoRoute)) /\
  (graph_closed g = true -> dict_mem g start_node = true ->
   forall fuel e,
     dijkstra_fuel g end_node disabled_stations fuel start_node
     <> Some (Raise e)).
Proof.
  split; [|split].
  - intros Hdis. split.
    + unfold dijkstra. apply disabled_start_no_route; [exact Hdis | lia].
    + intros fuel Hfuel. now apply disabled_start_no_route.
  - intros rfuel fuel st. apply loop_empty_frontier.
  - intros Hclosed Hs fuel e. unfold dijkstra_fuel.
    apply loop_no_raise; [exact Hclosed|]. now apply initial_keys_inv.
Qed.

Lemma dijkstra_disabled_start_no_path_witness :
  dijkstra xyz_graph "X" "Z" ["X"] = Some (Ok NoRoute) /\
  forall fuel e,
    dijkstra_fuel xyz_graph "Z" ["Y"] fuel "X" <> Some (Raise e).
Proof.
  pose proof (dijkstra_disabled_start_no_path WeightLaws_Z xyz_graph
                "X" "Z" ["X"]) as (H1 & _ & _).
  pose proof (dijkstra_disabled_start_no_path WeightLaws_Z xyz_graph
                "X" "Z" ["Y"]) as (_ & _ & H3).
  split.
  - apply (proj1 (H1 eq_refl)).
  - apply H3; reflexivity.
Defined.

(** C7.  A returned path is not empty, starts with the given start,
    ends with the given end, and each consecutive pair of it is an edge of
    the graph; when start and end are the same station the result is
    [(0, [start])]. *)
Theorem dijkstra_path_shape
        (W : Type) (HW : Weight W) (HL : WeightLaws W)
        (g : graph W) (start_node end_node : string)
        (disabled_stations : list string) (fuel : nat)
        (t : ext W) (path : list string) :
  dijkstra_fuel g end_node disabled_stations fuel start_node
  = Some (Ok (Route t path)) ->
  path <> [] /\
  hd_error path = Some start_node /\
  last path start_node = end_node /\
  consecutive_edges g path /\
  (start_node = end_node -> t = Fin w0 /\ path = [start_node]).
Proof.
  intros Hr. pose proof Hr as Hr0. unfold dijkstra_fuel in Hr.
  pose proof (@loop_shape W HW g start_node end_node disabled_stations
                fuel fuel _ t path (initial_tree_inv g start_node) Hr)
    as (pre & -> & Hhd & Hce).
  split; [destruct pre; discriminate|].
  split; [exact Hhd|]. split; [apply last_last|]. split; [exact Hce|].
  intros <-. apply same_node_result in Hr0.
  destruct Hr0 as [E|E]; [discriminate|]. injection E as -> E. auto.
Qed.

Lemma dijkstra_path_shape_witness :
  dijkstra_fuel xyz_graph "Z" [] 8 "X"
  = Some (Ok (Route (Fin 8%Z) ["X"; "Y"; "Z"])) /\
  hd_error ["X"; "Y"; "Z"] = Some "X" /\
  last ["X"; "Y"; "Z"] "X" = "Z" /\
  consecutive_edges xyz_graph ["X"; "Y"; "Z"].
Proof.
  assert (E : dijkstra_fuel xyz_graph "Z" [] 8 "X"
              = Some (Ok (Route (Fin 8%Z) ["X"; "Y"; "Z"])))
    by (vm_compute; reflexivity).
  split; [exact E|].
  destruct (dijkstra_path_shape WeightLaws_Z xyz_graph "X" "Z" [] 8 E)
    as (_ & H1 & H2 & H3 & _).
  auto.
Defined.

(** The search on any graph with unique keys, closed under neighbours and
    without negative weights: it ends within [edge_count g + 2] rounds;
    when some path costs less than infinity it returns a path of least
    total weight, whose cost is below infinity too, and otherwise the
    no-path result.  The weights of a path are added up from the start,
    as the search adds them. *)
Theorem dijkstra_correct
        (W : Type) (HW : Weight W) (HL : WeightLaws W)
        (g : graph W) (start_node end_node : string)
        (disabled_stations : list string) (fuel : nat) :
  graph_wf g = true -> graph_closed g = true -> graph_nonneg g = true ->
  dict_mem g start_node = true ->
  edge_count g + 2 <= fuel ->
  ((exists p c, is_path g disabled_stations start_node end_node p c /\
                wlt_inf c = true) ->
   exists t path,
     dijkstra_fuel g end_node disabled_stations fuel start_node
     = Some (Ok (Route (Fin t) path)) /\
     is_path g disabled_stations start_node end_node path t /\
     wlt_inf t = true /\
     forall p c, is_path g disabled_stations start_node end_node p c ->
                 wle t c) /\
  ((forall p c, is_path g disabled_stations start_node end_node p c ->
                wlt_inf c = false) ->
   dijkstra_fuel g end_node disabled_stations fuel start_node
   = Some (Ok NoRoute)).
Proof.
  intros Hwf Hclosed Hnonneg Hs Hfuel.
  destruct (@dijkstra_total W HW HL g start_node end_node disabled_stations
                            Hwf Hnonneg Hclosed fuel Hs Hfuel)
    as (r & Hr & Hpost).
  destruct r as [t path|]; simpl in Hpost.
  - destruct Hpost as (d & -> & Hpath & Hfin & Hmin). split.
    + intros _. exists d, path. split; [exact Hr|]. split; [exact Hpath|].
      split; [exact Hfin|]. intros p c Hp. apply Hmin.
      exact (is_path_walk (g := g) eq_refl Hp).
    + intros Hno. rewrite (Hno _ _ Hpath) in Hfin. discriminate.
  - split; [|intros _; exact Hr].
    intros (p & c & Hp & Hfin). exfalso.
    rewrite (Hpost c (is_path_walk (g := g) eq_refl Hp)) in Hfin.
    discriminate.
Qed.

(** C9.  The time of a returned route is the total weight of the edges of
    the returned path, added up from the start. *)
Theorem dijkstra_time_is_path_cost
        (W : Type) (HW : Weight W) (HL : WeightLaws W)
        (g : graph W) (start_node end_node : string)
        (disabled_stations : list string) (fuel : nat)
        (t : ext W) (path : list string) :
  graph_wf g = true -> graph_closed g = true -> graph_nonneg g = true ->
  dict_mem g start_node = true ->
  dijkstra_fuel g end_node disabled_stations fuel start_node
  = Some (Ok (Route t path)) ->
  exists d, t = Fin d /\ path_cost g path = Some d.
Proof.
  intros Hwf Hclosed Hnonneg Hs Hr.
  set (fuel' := Nat.max fuel (edge_count g + 2)).
  assert (Hr' : dijkstra_fuel g end_node disabled_stations fuel' start_node
                = Some (Ok (Route t path)))
    by (apply (dijkstra_fuel_mono _ _ _ _ Hr); unfold fuel'; lia).
  destruct (@dijkstra_total W HW HL g start_node end_node disabled_stations
                            Hwf Hnonneg Hclosed fuel' Hs ltac:(unfold fuel'; lia))
    as (r & Hr2 & Hpost).
  rewrite Hr' in Hr2. injection Hr2 as <-. simpl in Hpost.
  destruct Hpost as (d & -> & (_ & _ & _ & Hcost) & _).
  exists d. auto.
Qed.

Lemma dijkstra_time_is_path_cost_witness :
  dijkstra_fuel xyz_graph "Z" [] 8 "X"
  = Some (Ok (Route (Fin 8%Z) ["X"; "Y"; "Z"])) /\
  exists d, Fin 8%Z = Fin d /\ path_cost xyz_graph ["X"; "Y"; "Z"] = Some d.
Proof.
  assert (E : dijkstra_fuel xyz_graph "Z" [] 8 "X"
              = Some (Ok (Route (Fin 8%Z) ["X"; "Y"; "Z"])))
    by (vm_compute; reflexivity).
  split; [exact E|].
  apply (dijkstra_time_is_path_cost WeightLaws_Z xyz_graph "X" "Z" [] 8);
    [reflexivity | reflexivity | reflexivity | reflexivity | exact E].
Defined.

(* ================================================================== *)
(** ** The graph builder *)

Section BuildFacts.
Context {W : Type} {HW : Weight W} {HF : Floating W}.
Variable stations_data : dict (station_record W).
Variable train_speed_kmph : W.
Variable line_change_penalty_minutes : W.

Lemma bind_Ok {A B : Type} (r : result A) (k : A -> result B) b :
  bind r k = Ok b -> exists a, r = Ok a /\ k a = Ok b.
Proof. destruct r; simpl; [eauto | discriminate]. Qed.

Lemma lookup_Ok {V : Type} (d : dict V) k v :
  lookup d k = Ok v <-> dict_get d k = Some v.
Proof.
  unfold lookup. destruct (dict_get d k); split; congruence.
Qed.

(** *** The first pass *)

Lemma add_nodes_spec items :
  forall g0 d0 g d,
    add_nodes items g0 d0 = Ok (g, d) ->
    (forall x, dict_get g x =
               if str_in x (dict_keys items) then Some []
               else dict_get g0 x) /\
    (forall x, ~ In x (dict_keys items) -> dict_get d x = dict_get d0 x) /\
    (forall x, In x (dict_keys items) ->
               exists data lat lon,
                 In (x, data) items /\
                 coordinate (latitude data) = Ok lat /\
                 coordinate (longitude data) = Ok lon /\
                 dict_get d x
                 = Some (mkDetail lat lon (get_list (lines data)))) /\
    (dict_wf g0 = true -> dict_wf g = true).
Proof.
  induction items as [|[name data] items IH]; intros g0 d0 g d Hb.
  - injection Hb as <- <-. simpl. repeat split; auto. intros x [].
  - cbn [add_nodes] in Hb.
    apply bind_Ok in Hb. destruct Hb as (lat & Hlat & Hb).
    apply bind_Ok in Hb. destruct Hb as (lon & Hlon & Hb).
    destruct (IH _ _ _ _ Hb) as (I1 & I2 & I3 & I4).
    split; [|split; [|split]].
    + intros x. rewrite I1. simpl.
      destruct (String.eqb_spec x name) as [->|Hne].
      * destruct (str_in name (dict_keys items)); [reflexivity|].
        apply dict_get_set_eq.
      * destruct (str_in x (dict_keys items)); [reflexivity|].
        apply dict_get_set_neq. congruence.
    + intros x Hx. simpl in Hx. rewrite I2 by tauto.
      apply dict_get_set_neq. tauto.
    + intros x Hx.
      destruct (in_dec string_dec x (dict_keys items)) as [Hin|Hout].
      * destruct (I3 x Hin) as (data' & lat' & lon' & Hi & H1 & H2 & H3).
        exists data', lat', lon'. split; [now right | auto].
      * destruct Hx as [Hx|Hx]; [|tauto]. simpl in Hx. subst x.
        exists data, lat, lon. split; [now left|].
        split; [exact Hlat|]. split; [exact Hlon|].
        rewrite I2 by exact Hout. apply dict_get_set_eq.
    + intros Hwf0. apply I4. now apply dict_wf_set.
Qed.

(** *** The second pass *)

Lemma set_edge_Ok (g g' : graph W) a b t :
  set_edge g a b t = Ok g' ->
  exists nbrs, dict_get g a = Some nbrs /\
               g' = dict_set g a (dict_set nbrs b t).
Proof.
  unfold set_edge. intros Hb. apply bind_Ok in Hb.
  destruct Hb as (nbrs & Hl & [= <-]). apply lookup_Ok in Hl. eauto.
Qed.

Lemma set_edge_weight (g g' : graph W) a b t x y :
  set_edge g a b t = Ok g' ->
  edge_weight g' x y =
  if String.eqb a x && String.eqb b y then Some t else edge_weight g x y.
Proof.
  intros Hs. apply set_edge_Ok in Hs. destruct Hs as (nbrs & Hg & ->).
  unfold edge_weight. rewrite dict_get_set.
  destruct (String.eqb_spec a x) as [->|Hne]; simpl; [|reflexivity].
  rewrite dict_get_set, Hg. reflexivity.
Qed.

Lemma set_edge_mem (g g' : graph W) a b t x :
  set_edge g a b t = Ok g' -> dict_mem g' x = dict_mem g x.
Proof.
  intros Hs. apply set_edge_Ok in Hs. destruct Hs as (nbrs & Hg & ->).
  unfold dict_mem. rewrite dict_get_set.
  destruct (String.eqb_spec a x) as [->|Hne]; [now rewrite Hg | reflexivity].
Qed.

Lemma set_edge_wf (g g' : graph W) a b t :
  set_edge g a b t = Ok g' ->
  dict_wf g = true ->
  (forall u nbrs, dict_get g u = Some nbrs -> dict_wf nbrs = true) ->
  dict_wf g' = true /\
  (forall u nbrs, dict_get g' u = Some nbrs -> dict_wf nbrs = true).
Proof.
  intros Hs Hwf Hin. apply set_edge_Ok in Hs.
  destruct Hs as (nbrs & Hg & ->). split; [now apply dict_wf_set|].
  intros u nb. rewrite dict_get_set.
  destruct (String.eqb_spec a u) as [->|Hne]; [|apply Hin].
  intros [= <-]. apply dict_wf_set. exact (Hin _ _ Hg).
Qed.

Variable station_details : dict (station_detail W).

Abbreviation binv :=
  (build_inv stations_data train_speed_kmph line_change_penalty_minutes
             station_details).
Abbreviation justified :=
  (edge_justified train_speed_kmph line_change_penalty_minutes
                  station_details).

Lemma edge_justified_sym u v w : justified u v w -> justified v u w.
Proof.
  intros (la1 & lo1 & la2 & lo2 & l1 & l2 & Hloc & Hw).
  exists la2, lo2, la1, lo1, l2, l1. split; [|tauto].
  destruct Hloc as (du & dv & H1 & H2 & H3 & H4 & H5 & H6 & H7 & H8).
  exists dv, du. repeat split; assumption.
Qed.

(** Writing one computed weight in both directions keeps the invariant. *)
Lemma set_both_inv g g1 g2 a b t :
  binv g ->
  dict_mem stations_data a = true -> dict_mem stations_data b = true ->
  justified a b t ->
  set_edge g a b t = Ok g1 -> set_edge g1 b a t = Ok g2 ->
  binv g2.
Proof.
  intros Hinv Ha Hb Hj H1 H2.
  assert (Hw : forall x y,
             edge_weight g2 x y =
             if String.eqb b x && String.eqb a y then Some t
             else if String.eqb a x && String.eqb b y then Some t
                  else edge_weight g x y).
  { intros x y. rewrite (@set_edge_weight g1 g2 b a t x y H2).
    now rewrite (@set_edge_weight g g1 a b t x y H1). }
  destruct (@set_edge_wf g g1 a b t H1 (bi_wf Hinv) (bi_wf_inner Hinv))
    as [W1 W1'].
  destruct (@set_edge_wf g1 g2 b a t H2 W1 W1') as [W2 W2'].
  constructor.
  - intros x. rewrite (@set_edge_mem g1 g2 b a t x H2).
    rewrite (@set_edge_mem g g1 a b t x H1). apply (bi_keys Hinv).
  - exact W2.
  - exact W2'.
  - intros u v w. rewrite Hw.
    destruct (String.eqb b u && String.eqb a v) eqn:E1.
    { apply andb_true_iff in E1. destruct E1 as [_ E1].
      apply String.eqb_eq in E1. subst v. intros _. exact Ha. }
    destruct (String.eqb a u && String.eqb b v) eqn:E2.
    { apply andb_true_iff in E2. destruct E2 as [_ E2].
      apply String.eqb_eq in E2. subst v. intros _. exact Hb. }
    apply (bi_closed Hinv).
  - intros u v. rewrite !Hw.
    rewrite (andb_comm (String.eqb b v)), (andb_comm (String.eqb a v)).
    destruct (String.eqb b u && String.eqb a v);
      destruct (String.eqb a u && String.eqb b v);
      try reflexivity. apply (bi_sym Hinv).
  - intros u v w. rewrite Hw.
    destruct (String.eqb b u && String.eqb a v) eqn:E1.
    { apply andb_true_iff in E1. destruct E1 as [E0 E1].
      apply String.eqb_eq in E0, E1. subst u v. intros [= <-].
      now apply edge_justified_sym. }
    destruct (String.eqb a u && String.eqb b v) eqn:E2.
    { apply andb_true_iff in E2. destruct E2 as [E0 E2].
      apply String.eqb_eq in E0, E2. subst u v. intros [= <-]. exact Hj. }
    apply (bi_just Hinv).
Qed.

Lemma add_relations_inv station_name_en rels :
  forall g g',
    binv g -> dict_mem stations_data station_name_en = true ->
    add_relations stations_data train_speed_kmph
                  line_change_penalty_minutes station_details
                  station_name_en rels g = Ok g' ->
    binv g'.
Proof.
  induction rels as [|rel rels IH]; intros g g' Hinv Hname Hr.
  - now injection Hr as <-.
  - cbn [add_relations] in Hr.
    destruct (dict_mem stations_data rel) eqn:Hrel; [|now apply (IH g)].
    apply bind_Ok in Hr. destruct Hr as (d1 & Hd1 & Hr).
    apply bind_Ok in Hr. destruct Hr as (d2 & Hd2 & Hr).
    apply lookup_Ok in Hd1, Hd2.
    destruct (detail_latitude d1) as [lat1|] eqn:E1; [|now apply (IH g)].
    destruct (detail_longitude d1) as [lon1|] eqn:E2; [|now apply (IH g)].
    destruct (detail_latitude d2) as [lat2|] eqn:E3; [|now apply (IH g)].
    destruct (detail_longitude d2) as [lon2|] eqn:E4; [|now apply (IH g)].
    apply bind_Ok in Hr. destruct Hr as (t & Ht & Hr).
    apply bind_Ok in Hr. destruct Hr as (g1 & Hg1 & Hr).
    apply bind_Ok in Hr. destruct Hr as (g2 & Hg2 & Hr).
    apply (IH g2); [|exact Hname | exact Hr].
    apply (@set_both_inv g g1 g2 station_name_en rel t); auto.
    exists lat1, lon1, lat2, lon2, (detail_lines d1), (detail_lines d2).
    split; [|now left]. exists d1, d2. repeat split; assumption.
Qed.

Lemma add_edges_inv items :
  forall g g',
    (forall x, In x items -> dict_mem stations_data (fst x) = true) ->
    binv g ->
    add_edges stations_data train_speed_kmph line_change_penalty_minutes
              station_details items g = Ok g' ->
    binv g'.
Proof.
  induction items as [|[name data] items IH]; intros g g' Hsub Hinv Hr.
  - now injection Hr as <-.
  - assert (Hsub' : forall x, In x items ->
                              dict_mem stations_data (fst x) = true)
      by (intros x Hx; apply Hsub; now right).
    cbn [add_edges] in Hr.
    apply bind_Ok in Hr. destruct Hr as (d & Hd & Hr).
    destruct (detail_latitude d); [|now apply (IH g)].
    destruct (detail_longitude d); [|now apply (IH g)].
    apply bind_Ok in Hr. destruct Hr as (g1 & Hg1 & Hr).
    apply (IH g1); [exact Hsub' | | exact Hr].
    eapply add_relations_inv; [exact Hinv | | exact Hg1].
    exact (Hsub (name, data) (or_introl eq_refl)).
Qed.

End BuildFacts.

Section BuildSpec.
Context {W : Type} {HW : Weight W} {HF : Floating W}.
Variable stations_data : dict (station_record W).
Variable train_speed_kmph : W.
Variable line_change_penalty_minutes : W.

Lemma In_dict_mem {V : Type} (d : dict V) k v :
  In (k, v) d -> dict_mem d k = true.
Proof.
  intros Hin. apply dict_mem_keys. apply (in_map fst) in Hin. exact Hin.
Qed.

Lemma dict_mem_str_in {V : Type} (d : dict V) k :
  dict_mem d k = str_in k (dict_keys d).
Proof.
  destruct (str_in k (dict_keys d)) eqn:E.
  - apply dict_mem_keys. now apply str_in_In.
  - apply str_in_not_In in E. rewrite <- dict_mem_keys in E.
    now destruct (dict_mem d k).
Qed.

(** What a successful build returns: the details come from the first
    pass, and the graph satisfies the builder's invariant. *)
Lemma build_spec g station_details :
  build_metro_graph stations_data train_speed_kmph
                    line_change_penalty_minutes = Ok (g, station_details) ->
  build_inv stations_data train_speed_kmph line_change_penalty_minutes
            station_details g /\
  exists g0,
    add_nodes stations_data [] [] = Ok (g0, station_details) /\
    (forall x, dict_get g0 x =
               if dict_mem stations_data x then Some [] else None).
Proof.
  unfold build_metro_graph. intros Hb.
  apply bind_Ok in Hb. destruct Hb as ([g0 d0] & Hn & Hb).
  apply bind_Ok in Hb. destruct Hb as (g' & He & [= <- <-]).
  destruct (add_nodes_spec _ _ _ Hn) as (N1 & N2 & N3 & N4).
  assert (Hg0 : forall x, dict_get g0 x =
                          if dict_mem stations_data x then Some [] else None).
  { intros x. rewrite N1, dict_mem_str_in. reflexivity. }
  assert (He0 : forall u v, edge_weight g0 u v = None).
  { intros u v. unfold edge_weight. rewrite Hg0.
    destruct (dict_mem stations_data u); reflexivity. }
  split; [|exists g0; auto].
  eapply add_edges_inv; [| |exact He].
  - intros [k v] Hx. simpl. now apply (In_dict_mem _ _ v).
  - constructor.
    + intros x. unfold dict_mem at 1. rewrite Hg0.
      destruct (dict_mem stations_data x); reflexivity.
    + now apply N4.
    + intros u nbrs. rewrite Hg0.
      destruct (dict_mem stations_data u); [|discriminate].
      now intros [= <-].
    + intros u v w. rewrite He0. discriminate.
    + intros u v. now rewrite !He0.
    + intros u v w. rewrite He0. discriminate.
Qed.

Lemma coordinate_Raise (field : option (json W)) e :
  coordinate field = Raise e ->
  exists v, field = Some v /\ py_float v = Raise e /\
            (e = TypeError \/ e = ValueError).
Proof.
  destruct field as [v|]; [|discriminate]. simpl.
  destruct (py_float v) as [x|e'] eqn:E; [discriminate|].
  intros [= <-]. exists v. split; [reflexivity|]. split; [exact E|].
  destruct v; simpl in E; try discriminate; try (injection E as <-; auto).
  destruct (float_of_str s); [discriminate|]. injection E as <-. auto.
Qed.



(** The detail entry of a station of the input. *)
Lemma build_detail g station_details name data :
  build_metro_graph stations_data train_speed_kmph
                    line_change_penalty_minutes = Ok (g, station_details) ->
  dict_wf stations_data = true ->
  dict_get stations_data name = Some data ->
  exists lat lon,
    coordinate (latitude data) = Ok lat /\
    coordinate (longitude data) = Ok lon /\
    dict_get station_details name
    = Some (mkDetail lat lon (get_list (lines data))).
Proof.
  intros Hb Hwf Hget. apply build_spec in Hb.
  destruct Hb as (_ & g0 & Hn & _).
  destruct (add_nodes_spec _ _ _ Hn) as (_ & _ & N3 & _).
  destruct (N3 name) as (data' & lat & lon & Hin & H1 & H2 & H3).
  { apply dict_get_In in Hget. apply (in_map fst) in Hget. exact Hget. }
  apply (In_dict_get _ _ _ Hwf) in Hin.
  assert (data' = data) by congruence. subst data'.
  exists lat, lon. auto.
Qed.

(** In a built graph every edge entry is an edge weight. *)
Lemma build_edges g station_details k nbrs v w :
  build_inv stations_data train_speed_kmph line_change_penalty_minutes
            station_details g ->
  In (k, nbrs) g -> In (v, w) nbrs -> edge_weight g k v = Some w.
Proof.
  intros Hinv Hk Hv. unfold edge_weight.
  apply (In_dict_get _ _ _ (bi_wf Hinv)) in Hk. rewrite Hk.
  apply In_dict_get; [|exact Hv]. exact (bi_wf_inner Hinv _ Hk).
Qed.

(** A built graph has unique keys and is closed under neighbours. *)
Lemma build_graph_shape g station_details :
  build_metro_graph stations_data train_speed_kmph
                    line_change_penalty_minutes = Ok (g, station_details) ->
  graph_wf g = true /\ graph_closed g = true.
Proof.
  intros Hb. apply build_spec in Hb. destruct Hb as (Hinv & _). split.
  - unfold graph_wf. rewrite (bi_wf Hinv). simpl.
    apply forallb_forall. intros [k nbrs] Hk. simpl.
    apply (bi_wf_inner Hinv k).
    now apply (In_dict_get _ _ _ (bi_wf Hinv)).
  - unfold graph_closed. apply forallb_forall. intros [k nbrs] Hk.
    apply forallb_forall. intros [v w] Hv. simpl.
    rewrite (bi_keys Hinv).
    apply (bi_closed Hinv k v (w := w)).
    eapply build_edges; eauto.
Qed.

End BuildSpec.

(* ------------------------------------------------------------------ *)
(** ** The haversine distance on the reals *)

Section Haversine.
Local Open Scope R_scope.

Lemma sin_sq_bound x : 0 <= sin x * sin x <= 1.
Proof.
  pose proof (sin2_cos2 x) as H. unfold Rsqr in H.
  pose proof (Rle_0_sqr (sin x)) as H1.
  pose proof (Rle_0_sqr (cos x)) as H2.
  unfold Rsqr in *. lra.
Qed.

(** [cos p cos q = (cos (q - p) + cos (q + p)) / 2], bounded through
    the half angle of [q - p]. *)
Lemma cos_product p q :
  - (sin ((q - p) / 2) * sin ((q - p) / 2)) <= cos p * cos q
  <= 1 - sin ((q - p) / 2) * sin ((q - p) / 2).
Proof.
  pose proof (cos_minus q p) as Hm. pose proof (cos_plus q p) as Hp.
  pose proof (cos_2a_sin ((q - p) / 2)) as H2.
  replace (2 * ((q - p) / 2)) with (q - p) in H2 by lra.
  pose proof (COS_bound (q + p)) as Hb.
  lra.
Qed.

Lemma haversine_a_bounds lat1 lon1 lat2 lon2 :
  0 <= haversine_a lat1 lon1 lat2 lon2 <= 1.
Proof.
  unfold haversine_a.
  set (p := radians lat1). set (q := radians lat2).
  set (y := (radians lon2 - radians lon1) / 2).
  pose proof (sin_sq_bound ((q - p) / 2)) as HA.
  pose proof (sin_sq_bound y) as HB.
  pose proof (cos_product p q) as HC.
  set (A := sin ((q - p) / 2) * sin ((q - p) / 2)) in *.
  set (B := sin y * sin y) in *.
  set (C := cos p * cos q) in *.
  split; nra.
Qed.

Lemma haversine_a_sym lat1 lon1 lat2 lon2 :
  haversine_a lat1 lon1 lat2 lon2 = haversine_a lat2 lon2 lat1 lon1.
Proof.
  unfold haversine_a.
  replace ((radians lat1 - radians lat2) / 2)
    with (- ((radians lat2 - radians lat1) / 2)) by lra.
  replace ((radians lon1 - radians lon2) / 2)
    with (- ((radians lon2 - radians lon1) / 2)) by lra.
  rewrite !sin_neg. ring.
Qed.

Lemma atan2_nonneg y x : 0 <= y -> 0 <= x -> 0 <= atan2 y x.
Proof.
  intros Hy Hx. unfold atan2.
  destruct (Rlt_dec 0 x) as [Hpos|Hnpos].
  - destruct (Req_dec y 0) as [->|Hne].
    + unfold Rdiv. rewrite Rmult_0_l, atan_0. lra.
    + assert (H : 0 < y / x) by (apply Rdiv_lt_0_compat; lra).
      pose proof (atan_increasing 0 (y / x) H) as Hi.
      rewrite atan_0 in Hi. lra.
  - destruct (Rlt_dec x 0); [lra|].
    pose proof PI_RGT_0.
    destruct (Rlt_dec 0 y); [lra|].
    destruct (Rlt_dec y 0); lra.
Qed.

Lemma haversine_km_nonneg lat1 lon1 lat2 lon2 :
  0 <= haversine_km lat1 lon1 lat2 lon2.
Proof.
  unfold haversine_km.
  pose proof (atan2_nonneg (sqrt_pos (haversine_a lat1 lon1 lat2 lon2))
                           (sqrt_pos (1 - haversine_a lat1 lon1 lat2 lon2))).
  lra.
Qed.

(** The distance from a point to itself is zero. *)
Lemma haversine_km_same lat lon : haversine_km lat lon lat lon = 0.
Proof.
  unfold haversine_km, haversine_a.
  replace ((radians lat - radians lat) / 2) with 0 by lra.
  replace ((radians lon - radians lon) / 2) with 0 by lra.
  rewrite sin_0.
  replace (0 * 0 + cos (radians lat) * cos (radians lat) * (0 * 0))
    with 0 by ring.
  rewrite sqrt_0, Rminus_0_r, sqrt_1.
  unfold atan2. destruct (Rlt_dec 0 1) as [_|H]; [|lra].
  unfold Rdiv. rewrite Rmult_0_l, atan_0. ring.
Qed.

Lemma haversine_km_sym lat1 lon1 lat2 lon2 :
  haversine_km lat1 lon1 lat2 lon2 = haversine_km lat2 lon2 lat1 lon1.
Proof.
  unfold haversine_km. now rewrite (haversine_a_sym lat1 lon1 lat2 lon2).
Qed.

Variable parse : string -> option R.
#[local] Hint Extern 0 (Floating R) =>
  exact (Floating_R parse) : typeclass_instances.

(** On the reals [haversine_distance] never raises. *)
Lemma haversine_distance_R lat1 lon1 lat2 lon2 :
  haversine_distance lat1 lon1 lat2 lon2
  = Ok (haversine_km lat1 lon1 lat2 lon2).
Proof.
  unfold haversine_distance, py_div, py_sqrt, py_sin, py_cos, square,
    EARTH_RADIUS_KM.
  cbn [weqb wltb w0 wadd Weight_R of_Z fsub fmul fdiv fsin fcos fsqrt
       fatan2 fradians fis_inf Floating_R].
  assert (E2 : Reqb 2 0 = false).
  { destruct (Reqb 2 0) eqn:E; [|reflexivity].
    apply Reqb_true in E. lra. }
  rewrite E2. cbn [bind].
  fold (haversine_a lat1 lon1 lat2 lon2).
  pose proof (haversine_a_bounds lat1 lon1 lat2 lon2) as [Ha0 Ha1].
  assert (E3 : Rltb (haversine_a lat1 lon1 lat2 lon2) 0 = false)
    by (apply Rltb_false; lra).
  assert (E4 : Rltb (1 - haversine_a lat1 lon1 lat2 lon2) 0 = false)
    by (apply Rltb_false; lra).
  rewrite E3. cbn [bind]. rewrite E4. cbn [bind]. reflexivity.
Qed.

End Haversine.

(* ------------------------------------------------------------------ *)
(** ** Shared lines *)

Lemma py_set_In (x : string) (l : list string) : In x (py_set l) <-> In x l.
Proof.
  induction l as [|y l IH]; simpl; [tauto|].
  destruct (str_in y l) eqn:E.
  - rewrite IH. apply str_in_In in E. split; [auto | intros [<-|H]; auto].
  - simpl. rewrite IH. tauto.
Qed.

Lemma truthy_exists {A : Type} (l : list A) :
  truthy l = true <-> exists x, In x l.
Proof.
  destruct l as [|a l]; simpl.
  - split; [discriminate | intros [x []]].
  - split; [intros _; exists a; now left | reflexivity].
Qed.

(** The intersection of the two line sets is not empty exactly when the
    two lists have an element in common. *)
Lemma common_line (l1 l2 : list string) :
  truthy (set_intersection (py_set l1) (py_set l2)) = true <->
  exists x, In x l1 /\ In x l2.
Proof.
  rewrite truthy_exists. unfold set_intersection.
  split; intros [x Hx]; exists x.
  - apply filter_In in Hx. destruct Hx as [H1 H2].
    apply str_in_In in H2. now rewrite !py_set_In in *.
  - apply filter_In. rewrite str_in_In, !py_set_In. exact Hx.
Qed.

Lemma common_line_sym (l1 l2 : list string) :
  truthy (set_intersection (py_set l1) (py_set l2))
  = truthy (set_intersection (py_set l2) (py_set l1)).
Proof.
  destruct (truthy (set_intersection (py_set l1) (py_set l2))) eqn:E1;
    destruct (truthy (set_intersection (py_set l2) (py_set l1))) eqn:E2;
    try reflexivity.
  - apply common_line in E1. destruct E1 as (x & H1 & H2).
    assert (E : truthy (set_intersection (py_set l2) (py_set l1)) = true)
      by (apply common_line; eauto).
    congruence.
  - apply common_line in E2. destruct E2 as (x & H1 & H2).
    assert (E : truthy (set_intersection (py_set l1) (py_set l2)) = true)
      by (apply common_line; eauto).
    congruence.
Qed.

(* ------------------------------------------------------------------ *)
(** ** The builder on the reals *)

Section RealBuild.
Local Open Scope R_scope.
Variable parse : string -> option R.
#[local] Hint Extern 0 (Floating R) =>
  exact (Floating_R parse) : typeclass_instances.

Variable train_speed_kmph : R.
Variable line_change_penalty_minutes : R.

Abbreviation travel_minutes := (travel_minutes train_speed_kmph).

Lemma py_div_R (x y : R) :
  py_div x y = if Reqb y 0 then Raise ZeroDivisionError else Ok (x / y).
Proof. reflexivity. Qed.

Lemma edge_minutes_R lat1 lon1 lat2 lon2 lines1 lines2 :
  edge_minutes train_speed_kmph line_change_penalty_minutes
               lat1 lon1 lat2 lon2 lines1 lines2
  = if Reqb train_speed_kmph 0 then Raise ZeroDivisionError
    else if truthy (set_intersection (py_set lines1) (py_set lines2))
         then Ok (travel_minutes lat1 lon1 lat2 lon2)
         else Ok (travel_minutes lat1 lon1 lat2 lon2
                  + line_change_penalty_minutes).
Proof.
  unfold edge_minutes. rewrite haversine_distance_R. cbn [bind].
  rewrite py_div_R. destruct (Reqb train_speed_kmph 0); [reflexivity|].
  cbn [bind]. unfold travel_minutes.
  destruct (truthy _); reflexivity.
Qed.

(** The weight computed for a pair does not depend on the direction. *)
Lemma edge_minutes_sym lat1 lon1 lat2 lon2 lines1 lines2 :
  edge_minutes train_speed_kmph line_change_penalty_minutes
               lat1 lon1 lat2 lon2 lines1 lines2
  = edge_minutes train_speed_kmph line_change_penalty_minutes
                 lat2 lon2 lat1 lon1 lines2 lines1.
Proof.
  rewrite !edge_minutes_R. unfold travel_minutes.
  now rewrite (haversine_km_sym lat1 lon1 lat2 lon2),
              (common_line_sym lines1 lines2).
Qed.

Lemma travel_minutes_nonneg lat1 lon1 lat2 lon2 :
  0 < train_speed_kmph -> 0 <= travel_minutes lat1 lon1 lat2 lon2.
Proof.
  intros Hs. unfold travel_minutes.
  pose proof (haversine_km_nonneg lat1 lon1 lat2 lon2) as Hk.
  assert (0 <= haversine_km lat1 lon1 lat2 lon2 / train_speed_kmph).
  { apply Rmult_le_pos; [exact Hk|].
    left. now apply Rinv_0_lt_compat. }
  lra.
Qed.

End RealBuild.

(* ================================================================== *)
(** ** The claims about the builder *)

(** C6.  A station whose record has no latitude or no longitude is still
    a node of the graph, with an empty neighbour map, and no edge leads
    to it from any station; the search does not raise on such a graph,
    and from the isolated station it finds no other station. *)
Theorem coordinate_less_station_is_isolated
        (W : Type) (HW : Weight W) (HF : Floating W) (HL : WeightLaws W)
        (stations_data : dict (station_record W))
        (train_speed_kmph line_change_penalty_minutes : W)
        (g : graph W) (station_details : dict (station_detail W))
        (name : string) (data : station_record W) :
  build_metro_graph stations_data train_speed_kmph
                    line_change_penalty_minutes = Ok (g, station_details) ->
  dict_wf stations_data = true ->
  dict_get stations_data name = Some data ->
  latitude data = None \/ longitude data = None ->
  dict_get g name = Some [] /\
  (forall other, edge_weight g other name = None /\
                 edge_weight g name other = None) /\
  (forall start_node end_node disabled_stations fuel e,
      dict_mem g start_node = true ->
      dijkstra_fuel g end_node disabled_stations fuel start_node
      <> Some (Raise e)) /\
  (forall end_node disabled_stations,
      name <> end_node ->
      dijkstra g name end_node disabled_stations = Some (Ok NoRoute)).
Proof.
  intros Hb Hwf Hget Hmiss.
  destruct (build_detail _ _ _ _ Hb Hwf Hget) as (lat & lon & Hlat & Hlon & Hd).
  destruct (build_graph_shape _ _ _ Hb) as [Hgwf Hclosed].
  pose proof Hb as Hb'. apply build_spec in Hb'. destruct Hb' as (Hinv & _).
  assert (Hnone : lat = None \/ lon = None).
  { destruct Hmiss as [E|E]; rewrite E in *; simpl in *;
      [left | right]; congruence. }
  assert (Hno : forall u v w, edge_weight g u v = Some w ->
                              u <> name /\ v <> name).
  { intros u v w Hw. apply (bi_just Hinv) in Hw.
    destruct Hw as (la1 & lo1 & la2 & lo2 & l1 & l2 & Hloc & _).
    destruct Hloc as (du & dv & H1 & H2 & H3 & H4 & H5 & H6 & _).
    split; intros ->; rewrite Hd in *.
    - injection H1 as <-. simpl in *. destruct Hnone; congruence.
    - injection H2 as <-. simpl in *. destruct Hnone; congruence. }
  assert (Hedge : forall other, edge_weight g other name = None /\
                                edge_weight g name other = None).
  { intros other. split.
    - destruct (edge_weight g other name) as [w|] eqn:E; [|reflexivity].
      destruct (Hno _ _ _ E) as [_ H]. congruence.
    - destruct (edge_weight g name other) as [w|] eqn:E; [|reflexivity].
      destruct (Hno _ _ _ E) as [H _]. congruence. }
  assert (Hempty : dict_get g name = Some []).
  { assert (Hk : dict_mem g name = true).
    { rewrite (bi_keys Hinv). unfold dict_mem. now rewrite Hget. }
    unfold dict_mem in Hk.
    destruct (dict_get g name) as [nbrs|] eqn:Hg; [|discriminate].
    destruct nbrs as [|[v w] nbrs]; [reflexivity|].
    destruct (Hedge v) as [_ H]. unfold edge_weight in H.
    rewrite Hg in H. simpl in H. rewrite String.eqb_refl in H. discriminate. }
  split; [exact Hempty|]. split; [exact Hedge|]. split.
  - intros start_node end_node disabled_stations fuel e Hs.
    unfold dijkstra_fuel. apply loop_no_raise; [exact Hclosed|].
    now apply initial_keys_inv.
  - intros end_node disabled_stations Hne. unfold dijkstra.
    apply isolated_start_no_route; [exact Hempty | exact Hne | lia].
Qed.


(** C8, as the code has it.  The detail of a station holds the list of
    lines of its record as it is (the empty list when the record has
    none), and each coordinate converted by [float] when present and
    [None] when absent. *)
Theorem station_detail_keeps_lines_list
        (W : Type) (HW : Weight W) (HF : Floating W)
        (stations_data : dict (station_record W))
        (train_speed_kmph line_change_penalty_minutes : W)
        (g : graph W) (station_details : dict (station_detail W))
        (name : string) (data : station_record W) :
  build_metro_graph stations_data train_speed_kmph
                    line_change_penalty_minutes = Ok (g, station_details) ->
  dict_wf stations_data = true ->
  dict_get stations_data name = Some data ->
  exists d,
    dict_get station_details name = Some d /\
    detail_lines d = get_list (lines data) /\
    coordinate (latitude data) = Ok (detail_latitude d) /\
    coordinate (longitude data) = Ok (detail_longitude d).
Proof.
  intros Hb Hwf Hget.
  destruct (build_detail _ _ _ _ Hb Hwf Hget) as (lat & lon & Hlat & Hlon & Hd).
  exists (mkDetail lat lon (get_list (lines data))). simpl. auto.
Qed.

Section RealClaims.
Local Open Scope R_scope.
Variable parse : string -> option R.
#[local] Hint Extern 0 (Floating R) =>
  exact (Floating_R parse) : typeclass_instances.

Variable stations_data : dict (station_record R).
Variable train_speed_kmph : R.
Variable line_change_penalty_minutes : R.
Variable g : graph R.
Variable station_details : dict (station_detail R).
Hypothesis Hbuild :
  build_metro_graph stations_data train_speed_kmph
                    line_change_penalty_minutes = Ok (g, station_details).

(** Every edge of a built graph carries the weight computed for its
    two stations, which is the same in both directions. *)
Lemma built_edge A B w :
  edge_weight g A B = Some w ->
  exists lat1 lon1 lat2 lon2 lines1 lines2,
    both_located station_details A B lat1 lon1 lat2 lon2 lines1 lines2 /\
    edge_minutes train_speed_kmph line_change_penalty_minutes
                 lat1 lon1 lat2 lon2 lines1 lines2 = Ok w /\
    edge_minutes train_speed_kmph line_change_penalty_minutes
                 lat2 lon2 lat1 lon1 lines2 lines1 = Ok w.
Proof.
  intros Hw. pose proof Hbuild as Hb. apply build_spec in Hb.
  destruct Hb as (Hinv & _). apply (bi_just Hinv) in Hw.
  destruct Hw as (la1 & lo1 & la2 & lo2 & l1 & l2 & Hloc & Hmin).
  exists la1, lo1, la2, lo2, l1, l2. split; [exact Hloc|].
  rewrite <- (edge_minutes_sym parse train_speed_kmph
                line_change_penalty_minutes la1 lo1 la2 lo2 l1 l2)
    in Hmin |- *.
  destruct Hmin; auto.
Qed.

(** C2.  The weight of an edge between two stations with coordinates
    is the travel-time term [(distance_km / speed) * 60], plus the
    penalty exactly when the two stations share no line; for a positive
    speed and a penalty that is not negative the weight is at least the
    travel-time term, which is at least zero. *)
Theorem edge_weight_is_travel_time_plus_penalty A B w :
  edge_weight g A B = Some w ->
  exists lat1 lon1 lat2 lon2 lines1 lines2,
    both_located station_details A B lat1 lon1 lat2 lon2 lines1 lines2 /\
    haversine_distance lat1 lon1 lat2 lon2
    = Ok (haversine_km lat1 lon1 lat2 lon2) /\
    ((forall x, In x lines1 -> ~ In x lines2) ->
     w = travel_minutes train_speed_kmph lat1 lon1 lat2 lon2
         + line_change_penalty_minutes) /\
    ((exists x, In x lines1 /\ In x lines2) ->
     w = travel_minutes train_speed_kmph lat1 lon1 lat2 lon2) /\
    (0 < train_speed_kmph -> 0 <= line_change_penalty_minutes ->
     travel_minutes train_speed_kmph lat1 lon1 lat2 lon2 <= w /\
     0 <= travel_minutes train_speed_kmph lat1 lon1 lat2 lon2).
Proof.
  intros Hw. destruct (@built_edge A B w Hw)
    as (la1 & lo1 & la2 & lo2 & l1 & l2 & Hloc & Hmin & _).
  exists la1, lo1, la2, lo2, l1, l2. split; [exact Hloc|].
  split; [apply haversine_distance_R|].
  rewrite edge_minutes_R in Hmin.
  destruct (Reqb train_speed_kmph 0); [discriminate|].
  destruct (truthy (set_intersection (py_set l1) (py_set l2))) eqn:Hc.
  - injection Hmin as <-. apply common_line in Hc.
    split; [|split].
    + intros Hdisj. destruct Hc as (x & H1 & H2). destruct (Hdisj x H1 H2).
    + reflexivity.
    + intros Hs Hp.
      pose proof (travel_minutes_nonneg la1 lo1 la2 lo2 Hs). lra.
  - injection Hmin as <-. split; [|split].
    + reflexivity.
    + intros Hex. apply common_line in Hex. congruence.
    + intros Hs Hp.
      pose proof (travel_minutes_nonneg la1 lo1 la2 lo2 Hs). lra.
Qed.

Lemma dict_set_idem {V : Type} (d : dict V) k v :
  dict_set (dict_set d k v) k v = dict_set d k v.
Proof.
  induction d as [|[k' v'] d IH]; simpl.
  - now rewrite String.eqb_refl.
  - destruct (String.eqb_spec k k') as [->|Hne]; simpl.
    + now rewrite String.eqb_refl.
    + destruct (String.eqb_spec k k'); [congruence|]. now rewrite IH.
Qed.

(** C3.  A built graph is symmetric: an edge from A to B of weight [w]
    comes with the edge from B to A of the same weight.  The weight is
    the one value the builder computes for the pair, whichever of the
    two records lists the relation, and writing it again leaves the
    graph as it is: a relation listed twice is overwritten, not added
    up. *)
Theorem built_graph_symmetric_overwrite :
  (forall A B w, edge_weight g A B = Some w ->
                 edge_weight g B A = Some w) /\
  (forall A B w,
      edge_weight g A B = Some w ->
      exists lat1 lon1 lat2 lon2 lines1 lines2,
        both_located station_details A B lat1 lon1 lat2 lon2
                     lines1 lines2 /\
        edge_minutes train_speed_kmph line_change_penalty_minutes
                     lat1 lon1 lat2 lon2 lines1 lines2 = Ok w /\
        edge_minutes train_speed_kmph line_change_penalty_minutes
                     lat2 lon2 lat1 lon1 lines2 lines1 = Ok w) /\
  (forall (g0 g1 : graph R) A B t,
      set_edge g0 A B t = Ok g1 -> set_edge g1 A B t = Ok g1).
Proof.
  split; [|split].
  - intros A B w Hw. pose proof Hbuild as Hb. apply build_spec in Hb.
    destruct Hb as (Hinv & _). now rewrite <- (bi_sym Hinv A B).
  - intros A B w. apply built_edge.
  - intros g0 g1 A B t Hs. unfold set_edge in *.
    destruct (lookup g0 A) as [nbrs|] eqn:Hl; [|discriminate].
    cbn [bind] in Hs. injection Hs as <-.
    unfold lookup. rewrite dict_get_set_eq. cbn [bind].
    now rewrite !dict_set_idem.
Qed.

(** No edge of a graph built with a positive speed and a penalty that
    is not negative has a negative weight. *)
Lemma built_graph_nonneg :
  0 < train_speed_kmph -> 0 <= line_change_penalty_minutes ->
  graph_nonneg g = true.
Proof.
  intros Hs Hp. pose proof Hbuild as Hb. apply build_spec in Hb.
  destruct Hb as (Hinv & _).
  unfold graph_nonneg. apply forallb_forall. intros [k nbrs] Hk.
  apply forallb_forall. intros [v w] Hv. simpl.
  assert (Hw : edge_weight g k v = Some w) by (eapply build_edges; eauto).
  destruct (@built_edge k v w Hw)
    as (la1 & lo1 & la2 & lo2 & l1 & l2 & _ & Hmin & _).
  rewrite edge_minutes_R in Hmin.
  destruct (Reqb train_speed_kmph 0); [discriminate|].
  pose proof (travel_minutes_nonneg la1 lo1 la2 lo2 Hs) as Ht.
  apply negb_true_iff, Rltb_false.
  destruct (truthy _); injection Hmin as <-; lra.
Qed.

End RealClaims.

(* ================================================================== *)
(** ** Determinism: ties in the frontier *)

Lemma str_ltb_irrefl (s : string) : String.ltb s s = false.
Proof.
  unfold String.ltb. pose proof (String.compare_antisym s s) as H.
  destruct (String.compare s s); simpl in H; congruence.
Qed.

Lemma str_ltb_trans (a b c : string) :
  String.ltb a b = true -> String.ltb b c = true -> String.ltb a c = true.
Proof.
  unfold String.ltb. intros Hab Hbc.
  assert (L1 : String_as_OT.lt a b).
  { apply String_as_OT.cmp_lt. unfold String_as_OT.cmp.
    destruct (String.compare a b); congruence. }
  assert (L2 : String_as_OT.lt b c).
  { apply String_as_OT.cmp_lt. unfold String_as_OT.cmp.
    destruct (String.compare b c); congruence. }
  pose proof (String_as_OT.lt_trans _ _ _ L1 L2) as L3.
  apply String_as_OT.cmp_lt in L3. unfold String_as_OT.cmp in L3.
  now rewrite L3.
Qed.

Lemma str_ltb_total (a b : string) :
  String.ltb a b = false -> String.ltb b a = false -> a = b.
Proof.
  unfold String.ltb. intros Hab Hba. apply String.compare_eq_iff.
  rewrite (String.compare_antisym a b) in Hab |- *.
  destruct (String.compare b a); simpl in *; congruence.
Qed.

Section FrontierOrder.
Context {W : Type} {HW : Weight W} {HL : WeightLaws W}.
Implicit Types (a b c m x y : W * string).

Lemma entry_ltb_irrefl a : entry_ltb a a = false.
Proof.
  unfold entry_ltb. rewrite weqb_refl. apply str_ltb_irrefl.
Qed.

Lemma entry_ltb_trans a b c :
  entry_ltb a b = true -> entry_ltb b c = true -> entry_ltb a c = true.
Proof.
  unfold entry_ltb. destruct a as [da na], b as [db nb], c as [dc nc]; simpl.
  destruct (weqb da db) eqn:Eab.
  - apply weqb_eq in Eab. subst db.
    destruct (weqb da dc) eqn:Eac; [apply str_ltb_trans | auto].
  - destruct (weqb db dc) eqn:Ebc.
    + apply weqb_eq in Ebc. subst dc. now rewrite Eab.
    + intros Hab Hbc. pose proof (wltb_trans _ _ _ Hab Hbc) as Hac.
      destruct (weqb da dc) eqn:Eac; [|exact Hac].
      apply weqb_eq in Eac. subst dc.
      pose proof (wltb_trans _ _ _ Hab Hbc) as Haa.
      rewrite wltb_irrefl in Haa. discriminate.
Qed.

Lemma entry_ltb_total a b :
  entry_ltb a b = false -> entry_ltb b a = false -> a = b.
Proof.
  unfold entry_ltb. destruct a as [da na], b as [db nb]; simpl.
  destruct (weqb da db) eqn:Eab.
  - apply weqb_eq in Eab. subst db. rewrite weqb_refl.
    intros H1 H2. f_equal. now apply str_ltb_total.
  - assert (Eba : weqb db da = false).
    { apply weqb_neq. apply weqb_neq in Eab. congruence. }
    rewrite Eba. intros H1 H2. apply weqb_neq in Eab.
    exfalso. apply Eab. now apply wltb_total.
Qed.

Lemma entry_ltb_asym a b : entry_ltb a b = true -> entry_ltb b a = false.
Proof.
  intros Hab. destruct (entry_ltb b a) eqn:Hba; [|reflexivity].
  pose proof (entry_ltb_trans _ _ _ Hab Hba) as Haa.
  rewrite entry_ltb_irrefl in Haa. discriminate.
Qed.

(** [entry_ltb y x = false] reads [x <= y]; it is transitive. *)
Lemma entry_le_trans a b c :
  entry_ltb b a = false -> entry_ltb c b = false -> entry_ltb c a = false.
Proof.
  intros Hab Hbc. destruct (entry_ltb c a) eqn:Hca; [|reflexivity].
  destruct (entry_ltb a b) eqn:Hlt.
  - rewrite (entry_ltb_trans _ _ _ Hca Hlt) in Hbc. discriminate.
  - assert (a = b) by now apply entry_ltb_total. subst. congruence.
Qed.

Lemma heap_min_is_min x l : is_min (heap_min x l) (x :: l).
Proof.
  split; [apply heap_min_In|].
  revert x. induction l as [|z l IH]; intros x y Hy.
  - destruct Hy as [<-|[]]. apply entry_ltb_irrefl.
  - cbn [heap_min].
    set (m := if entry_ltb z x then z else x).
    assert (Hmx : entry_ltb x m = false).
    { unfold m. destruct (entry_ltb z x) eqn:E;
        [now apply entry_ltb_asym | apply entry_ltb_irrefl]. }
    assert (Hmz : entry_ltb z m = false).
    { unfold m. destruct (entry_ltb z x) eqn:E;
        [apply entry_ltb_irrefl | exact E]. }
    pose proof (IH m m (or_introl eq_refl)) as Hm.
    destruct Hy as [<-|[<-|Hy]].
    + exact (entry_le_trans _ _ _ Hm Hmx).
    + exact (entry_le_trans _ _ _ Hm Hmz).
    + apply IH. now right.
Qed.

(** The smallest item is unique: ties in the distance are decided by
    the station name. *)
Lemma is_min_unique m m' pq : is_min m pq -> is_min m' pq -> m = m'.
Proof.
  intros [Hin Hle] [Hin' Hle']. apply entry_ltb_total; auto.
Qed.

Lemma is_min_perm m pq pq' : Permutation pq pq' -> is_min m pq -> is_min m pq'.
Proof.
  intros Hp [Hin Hle]. split.
  - now apply (Permutation_in _ Hp).
  - intros y Hy. apply Hle. apply (Permutation_in _ (Permutation_sym Hp) Hy).
Qed.

Lemma heap_remove_perm m l : In m l -> Permutation l (m :: heap_remove m l).
Proof.
  induction l as [|z l IH]; [intros []|]. intros Hin. cbn [heap_remove].
  destruct (entry_eqb m z) eqn:E.
  - apply entry_eqb_eq in E. now subst z.
  - destruct Hin as [->|Hin].
    + assert (entry_eqb m m = true) by now apply entry_eqb_eq. congruence.
    + eapply perm_trans; [apply perm_skip, IH, Hin | apply perm_swap].
Qed.

(** [heappop] returns the same item from two layouts of one heap, and
    leaves two layouts of one heap. *)
Lemma heappop_perm pq pq' :
  Permutation pq pq' ->
  match heappop pq, heappop pq' with
  | Some (m, r), Some (m', r') => m = m' /\ Permutation r r'
  | None, None => True
  | _, _ => False
  end.
Proof.
  intros Hp. destruct pq as [|x l], pq' as [|x' l'].
  - exact I.
  - apply Permutation_nil in Hp. discriminate.
  - apply Permutation_sym, Permutation_nil in Hp. discriminate.
  - cbn [heappop].
    pose proof (heap_min_is_min x l) as Hm.
    pose proof (heap_min_is_min x' l') as Hm'.
    assert (E : heap_min x l = heap_min x' l').
    { apply (is_min_unique (pq := x' :: l')); [|exact Hm'].
      exact (is_min_perm Hp Hm). }
    split; [exact E|]. rewrite <- E.
    apply (Permutation_cons_inv (a := heap_min x l)).
    eapply perm_trans;
      [apply Permutation_sym, heap_remove_perm, (proj1 Hm)|].
    eapply perm_trans; [exact Hp|].
    apply heap_remove_perm. rewrite E. exact (proj1 Hm').
Qed.

End FrontierOrder.

Section SameRuns.
Context {W : Type} {HW : Weight W}.

Lemma same_dict_set {V : Type} (d d' : dict V) k v :
  same_dict d d' -> same_dict (dict_set d k v) (dict_set d' k v).
Proof. intros H x. rewrite !dict_get_set. now rewrite (H x). Qed.

Lemma same_dict_swap {V : Type} (d : dict V) k1 v1 k2 v2 :
  k1 <> k2 ->
  same_dict (dict_set (dict_set d k1 v1) k2 v2)
            (dict_set (dict_set d k2 v2) k1 v1).
Proof.
  intros Hne x. rewrite !dict_get_set.
  destruct (String.eqb_spec k2 x) as [->|H2];
    destruct (String.eqb_spec k1 x) as [->|H1]; congruence.
Qed.

Lemma same_state_refl (st : state W) : same_state st st.
Proof. split; [|split]; [intros k | intros k |]; reflexivity. Qed.

Lemma same_state_trans (a b c : state W) :
  same_state a b -> same_state b c -> same_state a c.
Proof.
  intros (A1 & A2 & A3) (B1 & B2 & B3). split; [|split].
  - intros k. now rewrite (A1 k).
  - intros k. now rewrite (A2 k).
  - exact (perm_trans A3 B3).
Qed.

Lemma same_outcome_refl (a : option (state W)) : same_outcome a a.
Proof. destruct a; simpl; [apply same_state_refl | exact I]. Qed.

Lemma same_outcome_trans (a b c : option (state W)) :
  same_outcome a b -> same_outcome b c -> same_outcome a c.
Proof.
  destruct a, b, c; simpl; try tauto. apply same_state_trans.
Qed.

Lemma relax_app disabled cd cn l1 l2 (st : state W) :
  relax disabled cd cn (l1 ++ l2) st =
  match relax disabled cd cn l1 st with
  | Some s => relax disabled cd cn l2 s
  | None => None
  end.
Proof.
  revert st. induction l1 as [|[nb w] l1 IH]; intros st; [reflexivity|].
  cbn [app relax]. destruct (str_in nb disabled); [apply IH|].
  destruct (dict_get (distances st) nb) as [dn|]; [|reflexivity].
  destruct (ext_ltb (Fin (wadd cd w)) dn); apply IH.
Qed.

(** The inner loop on two states with the same entries. *)
Lemma relax_same_items disabled disabled' cd cn items :
  (forall s, str_in s disabled = str_in s disabled') ->
  forall st st' : state W,
    same_state st st' ->
    same_outcome (relax disabled cd cn items st)
                 (relax disabled' cd cn items st').
Proof.
  intros Hs. induction items as [|[nb w] items IH]; intros st st' Hst;
    cbn [relax].
  - exact Hst.
  - rewrite <- Hs. destruct (str_in nb disabled); [now apply IH|].
    destruct Hst as (Hd & Hp & Hq). rewrite <- (Hd nb).
    destruct (dict_get (distances st) nb) as [dn|]; [|exact I].
    destruct (ext_ltb (Fin (wadd cd w)) dn).
    + apply IH. split; [|split]; simpl.
      * now apply same_dict_set.
      * now apply same_dict_set.
      * unfold heappush. now apply Permutation_app_tail.
    + apply IH. split; [|split]; assumption.
Qed.

(** Two neighbours may be looked at in either order. *)
Lemma relax_swap disabled cd cn (x y : string * W) (st : state W) :
  fst x <> fst y ->
  same_outcome (relax disabled cd cn [x; y] st)
               (relax disabled cd cn [y; x] st).
Proof.
  destruct x as [a wa], y as [b wb]. simpl fst. intros Hne.
  assert (Hne' : b <> a) by congruence.
  cbn [relax].
  destruct (str_in a disabled), (str_in b disabled);
    try apply same_outcome_refl.
  destruct (dict_get (distances st) a) as [da|] eqn:Ha;
    destruct (dict_get (distances st) b) as [db|] eqn:Hb;
    cbn [distances];
    repeat first
      [ rewrite (dict_get_set_neq _ _ Hne)
      | rewrite (dict_get_set_neq _ _ Hne')
      | rewrite Ha | rewrite Hb ];
    try (destruct (ext_ltb (Fin (wadd cd wa)) da));
    try (destruct (ext_ltb (Fin (wadd cd wb)) db));
    cbn [distances];
    repeat first
      [ rewrite (dict_get_set_neq _ _ Hne)
      | rewrite (dict_get_set_neq _ _ Hne')
      | rewrite Ha | rewrite Hb ];
    try exact I; try apply same_outcome_refl.
  simpl. split; [|split]; simpl.
  - now apply same_dict_swap.
  - now apply same_dict_swap.
  - unfold heappush. rewrite <- !app_assoc. apply Permutation_app_head.
    apply perm_swap.
Qed.

(** The neighbours of a station may be looked at in any order. *)
Lemma relax_perm disabled cd cn items items' :
  Permutation items items' -> NoDup (map fst items) ->
  forall st : state W,
    same_outcome (relax disabled cd cn items st)
                 (relax disabled cd cn items' st).
Proof.
  induction 1 as [|x l l' Hp IH|x y l|l l' l'' Hp1 IH1 Hp2 IH2];
    intros HN st.
  - apply same_outcome_refl.
  - inversion HN as [|? ? _ HN']; subst.
    change (x :: l) with ([x] ++ l). change (x :: l') with ([x] ++ l').
    rewrite !relax_app.
    destruct (relax disabled cd cn [x] st) as [s|]; [now apply IH | exact I].
  - inversion HN as [|? ? Hy HN']; subst.
    change (y :: x :: l) with ([y; x] ++ l).
    change (x :: y :: l) with ([x; y] ++ l).
    rewrite !relax_app.
    assert (Hne : fst y <> fst x) by (intros E; apply Hy; now left).
    pose proof (relax_swap disabled cd cn y x st Hne) as Hsw.
    destruct (relax disabled cd cn [y; x] st) as [s|];
      destruct (relax disabled cd cn [x; y] st) as [s'|];
      simpl in Hsw; try contradiction; [|exact I].
    now apply relax_same_items.
  - eapply same_outcome_trans; [now apply IH1|]. apply IH2.
    exact (Permutation_NoDup (Permutation_map fst Hp1) HN).
Qed.

Lemma reconstruct_same previous previous' :
  same_dict previous previous' ->
  forall fuel c acc,
    reconstruct fuel previous c acc = reconstruct fuel previous' c acc.
Proof.
  intros Hp. induction fuel as [|fuel IH]; intros c acc; [reflexivity|].
  destruct c as [c|]; [|reflexivity]. cbn [reconstruct].
  rewrite <- (Hp c). destruct (dict_get previous c); [apply IH | reflexivity].
Qed.

Context {HL : WeightLaws W}.
Variables g g' : graph W.
Variable end_node : string.
Variables disabled disabled' : list string.
Hypothesis Hwf : graph_wf g = true.
Hypothesis Hgraph : same_graph g g'.
Hypothesis Hsame : forall s : string, In s disabled <-> In s disabled'.

Lemma str_in_same (s : string) : str_in s disabled = str_in s disabled'.
Proof.
  destruct (str_in s disabled') eqn:E.
  - apply str_in_In. apply Hsame. now apply str_in_In.
  - apply str_in_not_In. rewrite Hsame. now apply str_in_not_In.
Qed.

Lemma loop_same rfuel fuel :
  forall st st',
    same_state st st' ->
    dijkstra_loop g end_node disabled rfuel fuel st
    = dijkstra_loop g' end_node disabled' rfuel fuel st'.
Proof.
  induction fuel as [|fuel IH]; intros st st' Hst; [reflexivity|].
  cbn [dijkstra_loop]. pose proof Hst as (Hd & Hp & Hq).
  pose proof (heappop_perm Hq) as Hpop.
  destruct (heappop (priority_queue st)) as [[[cd cn] r]|];
    destruct (heappop (priority_queue st')) as [[[cd' cn'] r']|];
    try contradiction; [|reflexivity].
  destruct Hpop as [[= <- <-] Hr].
  assert (Hst' : same_state (mkState (distances st) (previous_nodes st) r)
                            (mkState (distances st') (previous_nodes st') r'))
    by (split; [|split]; assumption).
  rewrite <- str_in_same.
  destruct (str_in cn disabled); [now apply IH|].
  rewrite <- (Hd cn).
  destruct (dict_get (distances st) cn) as [dc|]; [|reflexivity].
  destruct (ext_ltb dc (Fin cd)); [now apply IH|].
  destruct (String.eqb cn end_node).
  - rewrite (reconstruct_same Hp), <- (Hd end_node). reflexivity.
  - pose proof (Hgraph cn) as Hg.
    destruct (dict_get g cn) as [items|] eqn:Hgc;
      destruct (dict_get g' cn) as [items'|];
      try contradiction; [|reflexivity].
    assert (HN : NoDup (map fst items)).
    { apply nodup_keys_NoDup. exact (graph_wf_spec g cn Hwf Hgc). }
    pose proof (same_outcome_trans _ _ _
                  (@relax_perm disabled cd cn items items' Hg HN _)
                  (@relax_same_items disabled disabled' cd cn items'
                                     str_in_same _ _ Hst'))
      as Hrel.
    destruct (relax disabled cd cn items _) as [a|];
      destruct (relax disabled' cd cn items' _) as [b|];
      simpl in Hrel; try contradiction; [|reflexivity].
    now apply IH.
Qed.

Lemma same_graph_mem k : dict_mem g k = dict_mem g' k.
Proof.
  unfold dict_mem. pose proof (Hgraph k) as H.
  destruct (dict_get g k), (dict_get g' k); tauto.
Qed.

Lemma initial_same start_node :
  same_state (initial_state g start_node) (initial_state g' start_node).
Proof.
  unfold initial_state. split; [|split]; simpl.
  - intros k. rewrite !dict_get_set, !dict_get_const.
    now rewrite same_graph_mem.
  - intros k. rewrite !dict_get_const. now rewrite same_graph_mem.
  - reflexivity.
Qed.

End SameRuns.

(** C10.  The search is deterministic.  Its result is a function of its
    arguments, and of no more than their contents: ties in the frontier
    are decided by the order of the [(distance, node)] tuples, so the
    item that [heappop] returns does not depend on how the heap lays its
    items out; the disabled stations count only as a set, and the graph
    only as a mapping, whatever the order of its entries. *)
Theorem dijkstra_deterministic
        (W : Type) (HW : Weight W) (HL : WeightLaws W)
        (g g' : graph W) (start_node end_node : string)
        (disabled disabled' : list string) :
  graph_wf g = true -> same_graph g g' ->
  (forall x, In x disabled <-> In x disabled') ->
  dijkstra g start_node end_node disabled
  = dijkstra g start_node end_node disabled' /\
  (forall fuel,
      dijkstra_fuel g end_node disabled fuel start_node
      = dijkstra_fuel g' end_node disabled' fuel start_node) /\
  (forall pq pq' m m' r r',
      Permutation pq pq' ->
      heappop pq = Some (m, r) -> heappop pq' = Some (m', r') ->
      m = m' /\ Permutation r r') /\
  (forall rfuel fuel st st',
      same_state st st' ->
      dijkstra_loop g end_node disabled rfuel fuel st
      = dijkstra_loop g' end_node disabled' rfuel fuel st').
Proof.
  intros Hwf Hgraph Hsame.
  assert (Hgg : same_graph g g).
  { intros k. destruct (dict_get g k); [apply Permutation_refl | exact I]. }
  split; [|split; [|split]].
  - unfold dijkstra, dijkstra_fuel.
    eapply loop_same; [exact Hwf | exact Hgg | exact Hsame |].
    apply same_state_refl.
  - intros fuel. unfold dijkstra_fuel.
    eapply loop_same; [exact Hwf | exact Hgraph | exact Hsame |].
    now apply initial_same.
  - intros pq pq' m m' r r' Hp H1 H2.
    pose proof (heappop_perm Hp) as H. rewrite H1, H2 in H. exact H.
  - intros rfuel fuel st st' Hst.
    eapply loop_same; [exact Hwf | exact Hgraph | exact Hsame | exact Hst].
Qed.

(* ================================================================== *)
(** ** The claims on a small network *)

Lemma Reqb_40 : Reqb 40 0 = false.
Proof.
  destruct (Reqb 40 0) eqn:E; [|reflexivity]. apply Reqb_true in E. lra.
Qed.

Lemma two_build : build_R two_stations 40 4 = Ok (two_graph, two_details).
Proof.
  unfold build_R, build_metro_graph, two_stations.
  cbn [add_nodes bind coordinate py_float latitude longitude lines get_list
       dict_set String.eqb Ascii.eqb Bool.eqb].
  cbn [add_edges add_relations lookup dict_get bind detail_latitude
       detail_longitude detail_lines relations get_list dict_mem
       String.eqb Ascii.eqb Bool.eqb].
  rewrite !(edge_minutes_R no_parse), Reqb_40.
  unfold travel_minutes. rewrite (haversine_km_sym 36 51 35 51).
  reflexivity.
Qed.

Lemma two_edge : edge_weight two_graph "A" "B" = Some two_weight.
Proof. reflexivity. Qed.

Lemma two_nonneg : graph_nonneg two_graph = true.
Proof.
  apply (@built_graph_nonneg no_parse two_stations 40%R 4%R two_graph
           two_details two_build); lra.
Qed.

Lemma edge_weight_is_travel_time_plus_penalty_witness :
  exists lat1 lon1 lat2 lon2 lines1 lines2,
    both_located two_details "A" "B" lat1 lon1 lat2 lon2 lines1 lines2 /\
    @haversine_distance R Weight_R (Floating_R no_parse) lat1 lon1 lat2 lon2
    = Ok (haversine_km lat1 lon1 lat2 lon2) /\
    ((forall x, In x lines1 -> ~ In x lines2) ->
     two_weight = (travel_minutes 40 lat1 lon1 lat2 lon2 + 4)%R) /\
    ((exists x, In x lines1 /\ In x lines2) ->
     two_weight = travel_minutes 40 lat1 lon1 lat2 lon2) /\
    ((0 < 40)%R -> (0 <= 4)%R ->
     (travel_minutes 40 lat1 lon1 lat2 lon2 <= two_weight)%R /\
     (0 <= travel_minutes 40 lat1 lon1 lat2 lon2)%R).
Proof.
  exact (@edge_weight_is_travel_time_plus_penalty no_parse two_stations
           40%R 4%R two_graph two_details two_build "A" "B" two_weight
           two_edge).
Defined.

Lemma built_graph_symmetric_overwrite_witness :
  edge_weight two_graph "B" "A" = Some two_weight.
Proof.
  destruct (@built_graph_symmetric_overwrite no_parse two_stations 40%R 4%R
              two_graph two_details two_build) as [Hsym _].
  exact (Hsym "A" "B" two_weight two_edge).
Defined.

Lemma coordinate_less_station_is_isolated_witness :
  dict_get two_graph "C" = Some [] /\
  (forall other, edge_weight two_graph other "C" = None /\
                 edge_weight two_graph "C" other = None).
Proof.
  destruct (@coordinate_less_station_is_isolated R Weight_R
              (Floating_R no_parse) WeightLaws_R two_stations 40%R 4%R
              two_graph two_details "C"
              (mkRecord None None (Some ["2"]) (Some ["B"]))
              two_build eq_refl eq_refl (or_introl eq_refl))
    as (H1 & H2 & _).
  split; assumption.
Defined.



(** The claim C8 fails on a list that names a line twice: the detail
    holds the list, not the set of its elements. *)
Lemma detail_lines_not_a_set :
  exists g details d,
    build_R twice_station 40 4 = Ok (g, details) /\
    dict_get details "A" = Some d /\
    detail_lines d = ["1"; "1"] /\
    detail_lines d <> py_set ["1"; "1"] /\
    ~ NoDup (detail_lines d).
Proof.
  exists [("A", [])], [("A", mkDetail None None ["1"; "1"])],
         (mkDetail None None ["1"; "1"]).
  split; [reflexivity|]. split; [reflexivity|]. split; [reflexivity|].
  split; [discriminate|].
  simpl. intros HN. inversion HN as [|? ? Hin _]. apply Hin. now left.
Qed.

Lemma station_detail_keeps_lines_list_witness :
  exists d,
    dict_get two_details "A" = Some d /\
    detail_lines d = ["1"] /\
    @coordinate R Weight_R (Floating_R no_parse) (Some (JNumber 35%R))
    = Ok (detail_latitude d) /\
    @coordinate R Weight_R (Floating_R no_parse) (Some (JNumber 51%R))
    = Ok (detail_longitude d).
Proof.
  exact (@station_detail_keeps_lines_list R Weight_R (Floating_R no_parse)
           two_stations 40%R 4%R two_graph two_details "A"
           (mkRecord (Some (JNumber 35%R)) (Some (JNumber 51%R))
                     (Some ["1"]) (Some ["B"]))
           two_build eq_refl eq_refl).
Defined.

Lemma dijkstra_deterministic_witness :
  dijkstra xyz_graph "X" "Z" ["Y"; "Y"] = dijkstra xyz_graph "X" "Z" ["Y"] /\
  forall fuel,
    dijkstra_fuel xyz_graph "Z" ["Y"; "Y"] fuel "X"
    = dijkstra_fuel zyx_graph "Z" ["Y"] fuel "X".
Proof.
  assert (Hs : forall x : string, In x ["Y"; "Y"] <-> In x ["Y"])
    by (intros x; simpl; tauto).
  assert (Hg : same_graph xyz_graph zyx_graph).
  { intros k. unfold xyz_graph, zyx_graph. cbn [dict_get].
    destruct (String.eqb_spec k "X") as [->|HX]; [simpl; apply perm_swap|].
    destruct (String.eqb_spec k "Y") as [->|HY]; [simpl; apply perm_swap|].
    destruct (String.eqb_spec k "Z") as [->|HZ]; [simpl; apply perm_swap|].
    exact I. }
  destruct (@dijkstra_deterministic Z Weight_Z WeightLaws_Z xyz_graph
              zyx_graph "X" "Z" ["Y"; "Y"] ["Y"] eq_refl Hg Hs)
    as (H1 & H2 & _).
  split; assumption.
Defined.

(* ================================================================== *)
(** * The search on numbers that round and overflow *)

(** ** The numbers of [good] obey the laws *)

(** A carrier that obeys the laws obeys them on all of its numbers. *)
Lemma LawsOn_all (W : Type) (HW : Weight W) (HL : WeightLaws W) :
  LawsOn (fun _ : W => true).
Proof.
  constructor; intros.
  - reflexivity.
  - reflexivity.
  - apply weqb_eq.
  - apply wltb_irrefl.
  - eapply wltb_trans; eassumption.
  - now apply wltb_total.
  - apply wadd_0_r.
  - now apply wadd_mono_l.
  - now apply wadd_mono_r.
  - apply wlt_inf_0.
  - eapply wlt_inf_le; eassumption.
Qed.

Lemma graph_good_all (W : Type) (g : graph W) :
  graph_good (fun _ : W => true) g = true.
Proof.
  unfold graph_good. apply forallb_forall. intros kv _.
  apply forallb_forall. reflexivity.
Qed.

Section GoodFacts.
Context {W : Type} {HW : Weight W}.
Variable good : W -> bool.
Hypothesis HG : LawsOn good.

Lemma good_num_eq (a b : good_num good) :
  proj1_sig a = proj1_sig b -> a = b.
Proof.
  apply eq_sig_hprop. intros x p q.
  apply Eqdep_dec.UIP_dec. apply Bool.bool_dec.
Qed.

Lemma WeightLaws_good : @WeightLaws (good_num good) (Weight_good HG).
Proof.
  constructor; unfold wle; cbn [w0 wadd wltb weqb wlt_inf Weight_good].
  - intros [a Ha] [b Hb]. cbn [proj1_sig]. split.
    + intros E. apply good_num_eq. cbn [proj1_sig].
      now apply (on_weqb_eq HG).
    + intros E. apply (on_weqb_eq HG); [exact Ha | exact Hb|].
      now injection E.
  - intros [a Ha]. now apply (on_wltb_irrefl HG).
  - intros [a Ha] [b Hb] [c Hc]. now apply (on_wltb_trans HG).
  - intros [a Ha] [b Hb] H1 H2. apply good_num_eq.
    now apply (on_wltb_total HG).
  - intros [a Ha]. apply good_num_eq. now apply (on_wadd_0_r HG).
  - intros [a Ha] [b Hb] [w Hw]. now apply (on_wadd_mono_l HG).
  - intros [a Ha] [b Hb] [c Hc]. now apply (on_wadd_mono_r HG).
  - apply (on_wlt_inf_0 HG).
  - intros [a Ha] [b Hb]. now apply (on_wlt_inf_le HG).
Qed.

Lemma restrict_good (x : W) :
  good x = true -> good_val (restrict HG x) = x.
Proof.
  intros Hx. unfold restrict, good_val.
  destruct (Bool.bool_dec (good x) true); [reflexivity | contradiction].
Qed.

End GoodFacts.

(* ------------------------------------------------------------------ *)
(** ** A search commutes with a map that keeps the operations *)

Section MapFacts.
Context {A B : Type}.
Variable h : A -> B.

Lemma dict_get_map_dict (d : dict A) k :
  dict_get (map_dict h d) k = option_map h (dict_get d k).
Proof.
  induction d as [|[k' v] d IH]; simpl; [reflexivity|].
  destruct (String.eqb k k'); [reflexivity | exact IH].
Qed.

Lemma dict_set_map_dict (d : dict A) k v :
  dict_set (map_dict h d) k (h v) = map_dict h (dict_set d k v).
Proof.
  induction d as [|[k' v'] d IH]; simpl; [reflexivity|].
  destruct (String.eqb k k'); simpl; [reflexivity|].
  f_equal. exact IH.
Qed.

Lemma dict_keys_map_dict (d : dict A) :
  dict_keys (map_dict h d) = dict_keys d.
Proof.
  unfold dict_keys, map_dict. rewrite map_map. reflexivity.
Qed.

Lemma dict_mem_map_dict (d : dict A) k :
  dict_mem (map_dict h d) k = dict_mem d k.
Proof.
  unfold dict_mem. rewrite dict_get_map_dict.
  destruct (dict_get d k); reflexivity.
Qed.

Lemma dict_wf_map_dict (d : dict A) : dict_wf (map_dict h d) = dict_wf d.
Proof. unfold dict_wf. now rewrite dict_keys_map_dict. Qed.

Lemma dict_const_map_dict {C : Type} (d : dict A) (c : C) :
  dict_const (map_dict h d) c = dict_const d c.
Proof. unfold dict_const, map_dict. rewrite map_map. reflexivity. Qed.

Lemma map_dict_const {C : Type} (d : dict C) (c : A) :
  map_dict h (dict_const d c) = dict_const d (h c).
Proof. unfold dict_const, map_dict. rewrite map_map. reflexivity. Qed.

Lemma map_dict_id (k : A -> A) (d : dict A) :
  (forall kv, In kv d -> k (snd kv) = snd kv) -> map_dict k d = d.
Proof.
  intros Hk. unfold map_dict. rewrite <- (map_id d) at 2.
  apply map_ext_in. intros [x v] Hin. simpl. f_equal.
  exact (Hk _ Hin).
Qed.

End MapFacts.

Lemma forallb_of_map {A B : Type} (h : A -> B) (p : B -> bool)
      (q : A -> bool) (l : list A) :
  (forall x, p (h x) = q x) -> forallb p (map h l) = forallb q l.
Proof.
  intros Hpq. induction l as [|x l IH]; cbn [map forallb]; [reflexivity|].
  now rewrite Hpq, IH.
Qed.

Lemma map_dict_map_dict {A B C : Type} (h : A -> B) (k : B -> C)
      (d : dict A) :
  map_dict k (map_dict h d) = map_dict (fun x => k (h x)) d.
Proof. unfold map_dict. rewrite map_map. reflexivity. Qed.

Section Simulation.
Context {V W : Type} {HV : Weight V} {HW : Weight W}.
Variable f : V -> W.
Hypothesis f_0 : f w0 = w0.
Hypothesis f_add : forall a b, f (wadd a b) = wadd (f a) (f b).
Hypothesis f_ltb : forall a b, wltb (f a) (f b) = wltb a b.
Hypothesis f_eqb : forall a b, weqb (f a) (f b) = weqb a b.
Hypothesis f_inf : forall a, wlt_inf (f a) = wlt_inf a.

Lemma entry_ltb_map a b :
  entry_ltb (map_entry f a) (map_entry f b) = entry_ltb a b.
Proof.
  unfold entry_ltb, map_entry. cbn [fst snd]. now rewrite f_eqb, f_ltb.
Qed.

Lemma entry_eqb_map a b :
  entry_eqb (map_entry f a) (map_entry f b) = entry_eqb a b.
Proof. unfold entry_eqb, map_entry. cbn [fst snd]. now rewrite f_eqb. Qed.

Lemma heap_min_map l :
  forall x, heap_min (map_entry f x) (map (map_entry f) l)
            = map_entry f (heap_min x l).
Proof.
  induction l as [|y l IH]; intros x; cbn [map heap_min]; [reflexivity|].
  rewrite entry_ltb_map. destruct (entry_ltb y x); apply IH.
Qed.

Lemma heap_remove_map m l :
  heap_remove (map_entry f m) (map (map_entry f) l)
  = map (map_entry f) (heap_remove m l).
Proof.
  induction l as [|y l IH]; cbn [map heap_remove]; [reflexivity|].
  rewrite entry_eqb_map. destruct (entry_eqb m y); [reflexivity|].
  cbn [map]. now rewrite IH.
Qed.

Lemma heappop_map pq :
  heappop (map (map_entry f) pq)
  = match heappop pq with
    | Some (m, pq') => Some (map_entry f m, map (map_entry f) pq')
    | None => None
    end.
Proof.
  destruct pq as [|x l]; [reflexivity|].
  unfold heappop. cbn [map]. cbv zeta. rewrite heap_min_map.
  change (map_entry f x :: map (map_entry f) l)
    with (map (map_entry f) (x :: l)).
  now rewrite heap_remove_map.
Qed.

Lemma ext_ltb_map a b : ext_ltb (map_ext f a) (map_ext f b) = ext_ltb a b.
Proof.
  unfold ext_ltb. destruct a as [x|], b as [y|]; cbn [map_ext];
    auto.
Qed.

Lemma relax_map dis cd cn items :
  forall st,
    relax dis (f cd) cn (map_dict f items) (map_state f st)
    = option_map (map_state f) (relax dis cd cn items st).
Proof.
  induction items as [|[nb w] items IH]; intros st; [reflexivity|].
  cbn [map_dict map relax fst snd].
  change (map (fun kv : string * V => (fst kv, f (snd kv))) items)
    with (map_dict f items).
  destruct (str_in nb dis); [apply IH|]. cbv zeta.
  cbn [map_state distances previous_nodes priority_queue].
  rewrite dict_get_map_dict.
  destruct (dict_get (distances st) nb) as [dn|]; cbn [option_map];
    [|reflexivity].
  rewrite <- f_add.
  change (Fin (f (wadd cd w))) with (map_ext f (Fin (wadd cd w))).
  rewrite ext_ltb_map.
  destruct (ext_ltb (Fin (wadd cd w)) dn).
  - rewrite <- IH. f_equal. unfold map_state.
    cbn [distances previous_nodes priority_queue].
    rewrite <- dict_set_map_dict. unfold heappush. rewrite map_app.
    reflexivity.
  - rewrite <- IH. reflexivity.
Qed.

Variable g : graph V.
Variable end_node : string.
Variable disabled_stations : list string.

Lemma loop_map rfuel fuel :
  forall st,
    dijkstra_loop (map_graph f g) end_node disabled_stations rfuel fuel
                  (map_state f st)
    = option_map (map_result (map_route f))
                 (dijkstra_loop g end_node disabled_stations rfuel fuel st).
Proof.
  induction fuel as [|fuel IH]; intros st; [reflexivity|].
  cbn [dijkstra_loop].
  cbn [map_state priority_queue distances previous_nodes].
  rewrite heappop_map.
  destruct (heappop (priority_queue st)) as [[[cd cn] pq']|];
    [|reflexivity].
  cbn [map_entry fst snd]. cbv zeta.
  change (mkState (map_dict (map_ext f) (distances st))
                  (previous_nodes st) (map (map_entry f) pq'))
    with (map_state f (mkState (distances st) (previous_nodes st) pq')).
  destruct (str_in cn disabled_stations); [apply IH|].
  rewrite dict_get_map_dict.
  destruct (dict_get (distances st) cn) as [dc|]; cbn [option_map];
    [|reflexivity].
  change (Fin (f cd)) with (map_ext f (Fin cd)). rewrite ext_ltb_map.
  destruct (ext_ltb dc (Fin cd)); [apply IH|].
  destruct (String.eqb cn end_node).
  - destruct (reconstruct rfuel (previous_nodes st) (Some cn) [])
      as [[path|e]|]; try reflexivity.
    rewrite dict_get_map_dict.
    destruct (dict_get (distances st) end_node); reflexivity.
  - unfold map_graph. rewrite dict_get_map_dict.
    destruct (dict_get g cn) as [items|]; cbn [option_map];
      [|reflexivity].
    rewrite relax_map.
    destruct (relax disabled_stations cd cn items
                    (mkState (distances st) (previous_nodes st) pq'))
      as [st''|]; cbn [option_map]; [apply IH | reflexivity].
Qed.

Lemma initial_state_map start_node :
  initial_state (map_graph f g) start_node
  = map_state f (initial_state g start_node).
Proof.
  unfold initial_state, map_state, map_graph.
  cbn [distances previous_nodes priority_queue map map_entry fst snd].
  rewrite !dict_const_map_dict, <- dict_set_map_dict, map_dict_const.
  unfold map_entry. cbn [map_ext fst snd]. now rewrite f_0.
Qed.

Lemma edge_count_map : edge_count (map_graph f g) = edge_count g.
Proof.
  unfold edge_count, map_graph, map_dict.
  induction g as [|[k nbrs] g' IH]; cbn [map fold_right fst snd];
    [reflexivity|].
  now rewrite IH, length_map.
Qed.

Lemma dijkstra_fuel_map fuel start_node :
  dijkstra_fuel (map_graph f g) end_node disabled_stations fuel start_node
  = option_map (map_result (map_route f))
               (dijkstra_fuel g end_node disabled_stations fuel start_node).
Proof.
  unfold dijkstra_fuel. rewrite initial_state_map. apply loop_map.
Qed.

Lemma dijkstra_map start_node :
  dijkstra (map_graph f g) start_node end_node disabled_stations
  = option_map (map_result (map_route f))
               (dijkstra g start_node end_node disabled_stations).
Proof. unfold dijkstra. rewrite edge_count_map. apply dijkstra_fuel_map. Qed.

Lemma edge_weight_map u v :
  edge_weight (map_graph f g) u v = option_map f (edge_weight g u v).
Proof.
  unfold edge_weight, map_graph. rewrite dict_get_map_dict.
  destruct (dict_get g u) as [nbrs|]; cbn [option_map]; [|reflexivity].
  apply dict_get_map_dict.
Qed.

Lemma path_cost_from_map q :
  forall acc u,
    path_cost_from (map_graph f g) (f acc) u q
    = option_map f (path_cost_from g acc u q).
Proof.
  induction q as [|v q IH]; intros acc u; cbn [path_cost_from];
    [reflexivity|].
  rewrite edge_weight_map.
  destruct (edge_weight g u v) as [w|]; cbn [option_map]; [|reflexivity].
  rewrite <- f_add. apply IH.
Qed.

Lemma is_path_map s e p c :
  is_path (map_graph f g) disabled_stations s e p c <->
  exists c', c = f c' /\ is_path g disabled_stations s e p c'.
Proof.
  unfold is_path, path_cost. split.
  - intros (H1 & H2 & H3 & H4). destruct p as [|u q]; [discriminate|].
    rewrite <- f_0, path_cost_from_map in H4.
    destruct (path_cost_from g w0 u q) as [c'|]; [|discriminate].
    injection H4 as <-. exists c'. auto.
  - intros (c' & -> & H1 & H2 & H3 & H4). split; [exact H1|].
    split; [exact H2|]. split; [exact H3|].
    destruct p as [|u q]; [discriminate|].
    rewrite <- f_0, path_cost_from_map, H4. reflexivity.
Qed.

Lemma graph_wf_map : graph_wf (map_graph f g) = graph_wf g.
Proof.
  unfold graph_wf, map_graph. rewrite dict_wf_map_dict. f_equal.
  unfold map_dict at 1. apply forallb_of_map. intros [k nbrs].
  cbn [fst snd]. apply dict_wf_map_dict.
Qed.

Lemma graph_closed_map : graph_closed (map_graph f g) = graph_closed g.
Proof.
  unfold graph_closed, map_graph. unfold map_dict at 1.
  apply forallb_of_map. intros [k nbrs]. cbn [fst snd].
  unfold map_dict at 1. apply forallb_of_map. intros [v w].
  cbn [fst snd]. apply (dict_mem_map_dict (map_dict f)).
Qed.

Lemma graph_nonneg_map : graph_nonneg (map_graph f g) = graph_nonneg g.
Proof.
  unfold graph_nonneg, map_graph. unfold map_dict at 1.
  apply forallb_of_map. intros [k nbrs]. cbn [fst snd].
  unfold map_dict. apply forallb_of_map. intros [v w]. cbn [fst snd].
  now rewrite <- f_0, f_ltb.
Qed.

End Simulation.

(* ------------------------------------------------------------------ *)
(** ** The search on a graph whose weights obey the laws *)

Section OnGood.
Context {W : Type} {HW : Weight W}.
Variable good : W -> bool.
Hypothesis HG : LawsOn good.
Variable g : graph W.
Hypothesis Hwf : graph_wf g = true.
Hypothesis Hclosed : graph_closed g = true.
Hypothesis Hnonneg : graph_nonneg g = true.
Hypothesis Hgood : graph_good good g = true.

(** The graph is its own image: its weights are numbers of [good]. *)
Lemma sub_graph_back :
  map_graph (good_val (good := good)) (map_graph (restrict HG) g) = g.
Proof.
  unfold map_graph. rewrite map_dict_map_dict. apply map_dict_id.
  intros [k nbrs] Hk. cbn [snd]. rewrite map_dict_map_dict.
  apply map_dict_id. intros [v w] Hv. cbn [snd]. apply restrict_good.
  unfold graph_good in Hgood. rewrite forallb_forall in Hgood.
  specialize (Hgood _ Hk). cbn [snd] in Hgood.
  rewrite forallb_forall in Hgood. exact (Hgood _ Hv).
Qed.

(** The result of the search, for a start that is a key of the graph:
    a route of least cost among the paths, its cost below infinity, or
    the answer that every path costs infinity or more. *)
Lemma dijkstra_fuel_result_on s e dis fuel :
  dict_mem g s = true ->
  edge_count g + 2 <= fuel ->
  exists r,
    dijkstra_fuel g e dis fuel s = Some (Ok r) /\
    match r with
    | Route t path =>
        exists d, t = Fin d /\ is_path g dis s e path d /\
                  wlt_inf d = true /\
                  forall p c, is_path g dis s e p c -> wle d c
    | NoRoute => forall p c, is_path g dis s e p c -> wlt_inf c = false
    end.
Proof.
  intros Hs Hfuel.
  pose proof sub_graph_back as Hback.
  set (pr := good_val (good := good)) in *.
  set (gV := map_graph (restrict HG) g) in *.
  pose (HV := Weight_good HG).
  assert (HwfV : graph_wf gV = true)
    by (rewrite <- (graph_wf_map pr gV), Hback; exact Hwf).
  assert (HclV : graph_closed gV = true)
    by (rewrite <- (graph_closed_map pr gV), Hback; exact Hclosed).
  assert (HnnV : @graph_nonneg _ HV gV = true).
  { rewrite <- (@graph_nonneg_map _ _ HV HW pr eq_refl
                                  (fun _ _ => eq_refl) gV), Hback.
    exact Hnonneg. }
  assert (HsV : dict_mem gV s = true).
  { rewrite <- (dict_mem_map_dict (map_dict pr) gV).
    change (map_dict (map_dict pr) gV) with (map_graph pr gV).
    rewrite Hback. exact Hs. }
  assert (HfV : edge_count gV + 2 <= fuel)
    by (rewrite <- (edge_count_map pr gV), Hback; exact Hfuel).
  destruct (@dijkstra_total _ HV (WeightLaws_good HG) gV s e dis
                            HwfV HnnV HclV fuel HsV HfV)
    as (r & Hr & Hpost).
  exists (map_route pr r). split.
  - rewrite <- Hback at 1.
    rewrite (@dijkstra_fuel_map _ _ HV HW pr eq_refl
               (fun _ _ => eq_refl) (fun _ _ => eq_refl)
               (fun _ _ => eq_refl) (fun _ => eq_refl) gV e dis fuel s).
    rewrite Hr. reflexivity.
  - assert (Hto : forall p c,
               is_path g dis s e p c ->
               exists c', c = pr c' /\ @is_path _ HV gV dis s e p c').
    { intros p c Hp. rewrite <- Hback in Hp.
      exact (proj1 (@is_path_map _ _ HV HW pr eq_refl
                      (fun _ _ => eq_refl) gV dis s e p c) Hp). }
    destruct r as [t path|]; cbn [map_route]; simpl in Hpost.
    + destruct Hpost as (d & -> & Hpath & Hfin & Hmin).
      exists (pr d). split; [reflexivity|]. split; [|split].
      * rewrite <- Hback.
        apply (@is_path_map _ _ HV HW pr eq_refl (fun _ _ => eq_refl)).
        exists d. auto.
      * exact Hfin.
      * intros p c Hp. destruct (Hto p c Hp) as (c' & -> & Hp').
        exact (Hmin c' (is_path_walk (g := gV) eq_refl Hp')).
    + intros p c Hp. destruct (Hto p c Hp) as (c' & -> & Hp').
      exact (Hpost c' (is_path_walk (g := gV) eq_refl Hp')).
Qed.

Lemma dijkstra_result_on s e dis :
  dict_mem g s = true ->
  exists r,
    dijkstra g s e dis = Some (Ok r) /\
    match r with
    | Route t path =>
        exists d, t = Fin d /\ is_path g dis s e path d /\
                  wlt_inf d = true /\
                  forall p c, is_path g dis s e p c -> wle d c
    | NoRoute => forall p c, is_path g dis s e p c -> wlt_inf c = false
    end.
Proof.
  intros Hs. exact (dijkstra_fuel_result_on s e dis Hs (Nat.le_refl _)).
Qed.

(** The rounds [dijkstra] allows are enough. *)
Lemma dijkstra_fuel_enough_on s e dis fuel :
  dict_mem g s = true ->
  edge_count g + 2 <= fuel ->
  dijkstra_fuel g e dis fuel s = dijkstra g s e dis.
Proof.
  intros Hs Hfuel.
  destruct (dijkstra_result_on s e dis Hs) as (r & Hr & _).
  rewrite Hr. unfold dijkstra in Hr.
  exact (dijkstra_fuel_mono _ _ _ _ Hr Hfuel).
Qed.

(** The two cases of the result, told apart by the paths there are. *)
Lemma dijkstra_cases_on s e dis :
  dict_mem g s = true ->
  ((exists p c, is_path g dis s e p c /\ wlt_inf c = true) ->
   exists t path,
     dijkstra g s e dis = Some (Ok (Route (Fin t) path)) /\
     is_path g dis s e path t /\
     wlt_inf t = true /\
     forall p c, is_path g dis s e p c -> wle t c) /\
  ((forall p c, is_path g dis s e p c -> wlt_inf c = false) ->
   dijkstra g s e dis = Some (Ok NoRoute)).
Proof.
  intros Hs. destruct (dijkstra_result_on s e dis Hs) as (r & Hr & Hpost).
  destruct r as [t path|].
  - destruct Hpost as (d & -> & Hpath & Hfin & Hmin). split.
    + intros _. exists d, path. auto.
    + intros Hno. rewrite (Hno _ _ Hpath) in Hfin. discriminate.
  - split; [|intros _; exact Hr].
    intros (p & c & Hp & Hfin). rewrite (Hpost _ _ Hp) in Hfin.
    discriminate.
Qed.

End OnGood.

(** C1, as the code has it.  On a graph that [build_metro_graph]
    returned, whose weights are not negative and are numbers that obey
    the laws -- of the floats: not NaN, not negative -- and for a start
    that is a key of the graph: when some path from start to end in the
    graph without the disabled stations costs less than infinity,
    [dijkstra] returns a time and a path, the path is such a path, the
    time is its total weight and is below infinity, and no such path
    weighs less; when every such path costs infinity or more, or there
    is none, [dijkstra] returns the no-path result.  The weights of a
    path are added up from the start, as the search adds them: the sums
    may round, and may overflow to infinity. *)
Theorem dijkstra_minimum_time_below_infinity
        (W : Type) (HW : Weight W) (HF : Floating W)
        (good : W -> bool) (HG : LawsOn good)
        (stations_data : dict (station_record W))
        (train_speed_kmph line_change_penalty_minutes : W)
        (g : graph W) (station_details : dict (station_detail W))
        (start_node end_node : string) (disabled_stations : list string) :
  build_metro_graph stations_data train_speed_kmph
                    line_change_penalty_minutes = Ok (g, station_details) ->
  graph_good good g = true ->
  graph_nonneg g = true ->
  dict_mem g start_node = true ->
  ((exists p c, is_path g disabled_stations start_node end_node p c /\
                wlt_inf c = true) ->
   exists t path,
     dijkstra g start_node end_node disabled_stations
     = Some (Ok (Route (Fin t) path)) /\
     is_path g disabled_stations start_node end_node path t /\
     wlt_inf t = true /\
     forall p c, is_path g disabled_stations start_node end_node p c ->
                 wle t c) /\
  ((forall p c, is_path g disabled_stations start_node end_node p c ->
                wlt_inf c = false) ->
   dijkstra g start_node end_node disabled_stations = Some (Ok NoRoute)).
Proof.
  intros Hbuild Hgood Hnn Hstart.
  destruct (build_graph_shape _ _ _ Hbuild) as [Hwf Hclosed].
  exact (@dijkstra_cases_on W HW good HG g Hwf Hclosed Hnn Hgood
                            start_node end_node disabled_stations Hstart).
Qed.

Lemma dijkstra_minimum_time_below_infinity_witness :
  ((exists p c, is_path two_graph [] "A" "B" p c /\ wlt_inf c = true) ->
   exists t path,
     dijkstra two_graph "A" "B" [] = Some (Ok (Route (Fin t) path)) /\
     is_path two_graph [] "A" "B" path t /\
     wlt_inf t = true /\
     forall p c, is_path two_graph [] "A" "B" p c -> wle t c) /\
  ((forall p c, is_path two_graph [] "A" "B" p c -> wlt_inf c = false) ->
   dijkstra two_graph "A" "B" [] = Some (Ok NoRoute)).
Proof.
  apply (@dijkstra_minimum_time_below_infinity R Weight_R
           (Floating_R no_parse) (fun _ => true) (LawsOn_all WeightLaws_R)
           two_stations 40%R 4%R two_graph two_details "A" "B" []
           two_build).
  - apply graph_good_all.
  - exact two_nonneg.
  - reflexivity.
Defined.

(** The claim C1 fails when a sum overflows.  On the floats, two stations
    joined by an edge whose weight is the float infinity -- the weight
    [(d / 5e-324) * 60 + 4] that the builder computes for a distance [d]
    of some hundred kilometres at the least positive speed -- are joined
    by a path, and the search finds none: [0 + inf < inf] is false, so
    the edge is never relaxed. *)
Lemma overflowed_edge_is_never_relaxed :
  overflowed_weight = PrimFloat.infinity /\
  wltb w0 least_speed = true /\
  graph_wf inf_graph = true /\ graph_closed inf_graph = true /\
  graph_nonneg inf_graph = true /\
  dict_mem inf_graph "A" = true /\ dict_mem inf_graph "B" = true /\
  is_path inf_graph [] "A" "B" ["A"; "B"] PrimFloat.infinity /\
  dijkstra inf_graph "A" "B" [] = Some (Ok NoRoute).
Proof.
  repeat split; vm_compute; reflexivity.
Qed.

(** A sum that overflows on the way: the two edges from A to C exist and
    weigh [1e308] each, their sum is the infinity, and the search finds
    B and not C. *)
Example overflowed_sum_is_no_route :
  path_cost huge_graph ["A"; "B"; "C"] = Some PrimFloat.infinity /\
  dijkstra huge_graph "A" "C" [] = Some (Ok NoRoute) /\
  exists t, dijkstra huge_graph "A" "B" [] = Some (Ok (Route (Fin t) ["A"; "B"])).
Proof.
  split; [vm_compute; reflexivity|]. split; [vm_compute; reflexivity|].
  eexists. vm_compute. reflexivity.
Qed.

(** A weight that is NaN is below nothing: the edge is never relaxed. *)
Example nan_edge_is_no_route :
  graph_nonneg nan_graph = true /\
  dijkstra nan_graph "A" "B" [] = Some (Ok NoRoute).
Proof. split; vm_compute; reflexivity. Qed.

(** X14.  On the floats a journey and the journey back need not take
    the same time, on a graph whose edges weigh the same in both
    directions: the search adds the weights up from its start, and the
    sum of floats depends on the order.  From A to D along edges of
    0.1, 0.2 and 0.3 minutes it returns 0.6000000000000001, from D to A
    it returns 0.6. *)
Theorem journey_back_time_differs :
  dijkstra tenths_graph "A" "D" []
  = Some (Ok (Route (Fin time_there) ["A"; "B"; "C"; "D"])) /\
  dijkstra tenths_graph "D" "A" []
  = Some (Ok (Route (Fin time_back) ["D"; "C"; "B"; "A"])) /\
  weqb time_there time_back = false /\
  wltb time_back time_there = true.
Proof. repeat split; vm_compute; reflexivity. Qed.

(* ================================================================== *)
(** * Further properties of the code *)

(** ** [haversine_distance] *)

(** The exits of [haversine_distance]. *)
Lemma haversine_distance_outcome
      (W : Type) (HW : Weight W) (HF : Floating W)
      (lat1 lon1 lat2 lon2 : W) :
  weqb (of_Z 2) w0 = false ->
  (exists d, haversine_distance lat1 lon1 lat2 lon2 = Ok d) \/
  haversine_distance lat1 lon1 lat2 lon2 = Raise ValueError.
Proof.
  intros H2. unfold haversine_distance, py_div, py_sin, py_cos, py_sqrt.
  rewrite H2. cbn [bind].
  repeat match goal with
         | |- context [if ?b then _ else _] => destruct b; cbn [bind]
         end;
    solve [now right | left; eexists; reflexivity].
Qed.

(** X1.  [haversine_distance] returns a distance or raises [ValueError]
    -- the sine or the cosine of an infinite angle, the square root of a
    negative number -- and nothing else, whatever the numbers are, as
    long as the literal 2 is not equal to zero. *)
Theorem haversine_distance_value_error_only
        (W : Type) (HW : Weight W) (HF : Floating W)
        (lat1 lon1 lat2 lon2 : W) :
  weqb (of_Z 2) w0 = false ->
  (exists d, haversine_distance lat1 lon1 lat2 lon2 = Ok d) \/
  haversine_distance lat1 lon1 lat2 lon2 = Raise ValueError.
Proof.
  intros H2. unfold haversine_distance, py_div. rewrite H2. cbn [bind].
  unfold py_sin.
  destruct (fis_inf (fdiv (fsub (fradians lat2) (fradians lat1)) (of_Z 2)));
    cbn [bind]; [now right|].
  unfold py_cos.
  destruct (fis_inf (fradians lat1)); cbn [bind]; [now right|].
  destruct (fis_inf (fradians lat2)); cbn [bind]; [now right|].
  destruct (fis_inf (fdiv (fsub (fradians lon2) (fradians lon1)) (of_Z 2)));
    cbn [bind]; [now right|].
  unfold py_sqrt.
  match goal with
  | |- context [if wltb ?a w0 then _ else _] =>
      destruct (wltb a w0); cbn [bind]; [now right|]
  end.
  match goal with
  | |- context [if wltb ?a w0 then _ else _] =>
      destruct (wltb a w0); cbn [bind]; [now right|]
  end.
  left. eexists. reflexivity.
Qed.

Lemma Reqb_refl (x : R) : Reqb x x = true.
Proof. now apply Reqb_true. Qed.

Lemma Reqb_2 : Reqb 2 0 = false.
Proof.
  destruct (Reqb 2 0) eqn:E; [|reflexivity]. apply Reqb_true in E. lra.
Qed.

Lemma haversine_distance_value_error_only_witness :
  (exists d, @haversine_distance R Weight_R (Floating_R no_parse)
               35%R 51%R 36%R 51%R = Ok d) \/
  @haversine_distance R Weight_R (Floating_R no_parse) 35%R 51%R 36%R 51%R
  = Raise ValueError.
Proof.
  apply (@haversine_distance_value_error_only R Weight_R
           (Floating_R no_parse) 35%R 51%R 36%R 51%R).
  exact Reqb_2.
Defined.

Section HaversineMore.
Local Open Scope R_scope.
Variable parse : string -> option R.
#[local] Hint Extern 0 (Floating R) =>
  exact (Floating_R parse) : typeclass_instances.

Lemma Rabs_le_between x a : Rabs x <= a -> - a <= x <= a.
Proof. unfold Rabs. destruct (Rcase_abs x); lra. Qed.

(** X2.  The distance from a point to itself is zero. *)
Theorem haversine_distance_same_point lat lon :
  haversine_distance lat lon lat lon = Ok 0.
Proof. now rewrite haversine_distance_R, haversine_km_same. Qed.

(** X3.  The distance does not depend on the order of the two points. *)
Theorem haversine_distance_symmetric lat1 lon1 lat2 lon2 :
  haversine_distance lat1 lon1 lat2 lon2
  = haversine_distance lat2 lon2 lat1 lon1.
Proof.
  rewrite !haversine_distance_R.
  now rewrite (haversine_km_sym lat1 lon1 lat2 lon2).
Qed.

(** X5.  Along a meridian the distance is the arc between the two
    latitudes: the radius times their difference in radians. *)
Theorem haversine_distance_meridian lat1 lat2 lon :
  Rabs (lat2 - lat1) <= 180 ->
  haversine_distance lat1 lon lat2 lon
  = Ok (6371 * Rabs (radians lat2 - radians lat1)).
Proof.
  intros Hlat. rewrite haversine_distance_R. f_equal.
  unfold haversine_km. f_equal.
  pose proof PI_RGT_0 as Hpi.
  set (d := (radians lat2 - radians lat1) / 2).
  assert (Hd : Rabs d <= PI / 2).
  { unfold d, radians.
    replace ((lat2 * PI / 180 - lat1 * PI / 180) / 2)
      with ((lat2 - lat1) * (PI / 360)) by lra.
    rewrite Rabs_mult, (Rabs_right (PI / 360)) by lra.
    apply Rle_trans with (180 * (PI / 360)); [|lra].
    apply Rmult_le_compat_r; [lra | exact Hlat]. }
  replace (radians lat2 - radians lat1) with (2 * d) by (unfold d; lra).
  rewrite Rabs_mult, (Rabs_right 2) by lra. f_equal.
  assert (Ha : haversine_a lat1 lon lat2 lon = sin d * sin d).
  { unfold haversine_a. fold d.
    replace ((radians lon - radians lon) / 2) with 0 by lra.
    rewrite sin_0. ring. }
  rewrite Ha.
  assert (Hcos : 0 <= cos d).
  { apply Rabs_le_between in Hd. apply cos_ge_0; lra. }
  assert (Hs1 : sqrt (sin d * sin d) = Rabs (sin d))
    by (exact (sqrt_Rsqr_abs (sin d))).
  assert (Hs2 : sqrt (1 - sin d * sin d) = cos d).
  { pose proof (sin2_cos2 d) as H. unfold Rsqr in H.
    replace (1 - sin d * sin d) with (cos d * cos d) by lra.
    now apply sqrt_square. }
  rewrite Hs1, Hs2.
  assert (Hsin : Rabs (sin d) = sin (Rabs d)).
  { unfold Rabs at 2. destruct (Rcase_abs d) as [Hn|Hp].
    - rewrite sin_neg. apply Rabs_left1.
      apply Rabs_le_between in Hd.
      pose proof (sin_ge_0 (- d) ltac:(lra) ltac:(lra)) as H.
      rewrite sin_neg in H. lra.
    - apply Rabs_right. apply Rle_ge.
      apply Rabs_le_between in Hd. apply sin_ge_0; lra. }
  assert (Hcosabs : cos d = cos (Rabs d)).
  { unfold Rabs. destruct (Rcase_abs d); [now rewrite cos_neg | reflexivity]. }
  unfold atan2. destruct (Rlt_dec 0 (cos d)) as [Hpos|Hzero].
  - assert (Hlt : Rabs d < PI / 2).
    { destruct (Rle_lt_or_eq_dec _ _ Hd) as [H|H]; [exact H|].
      rewrite Hcosabs, H, cos_PI2 in Hpos. lra. }
    rewrite Hsin, Hcosabs.
    change (sin (Rabs d) / cos (Rabs d)) with (tan (Rabs d)).
    apply atan_tan. pose proof (Rabs_pos d). lra.
  - destruct (Rlt_dec (cos d) 0) as [H|_]; [lra|].
    assert (Hc0 : cos d = 0) by lra.
    assert (Heq : Rabs d = PI / 2).
    { destruct (Rle_lt_or_eq_dec _ _ Hd) as [H|H]; [|exact H].
      pose proof (Rabs_pos d) as Hp.
      pose proof (cos_gt_0 (Rabs d) ltac:(lra) H) as Hg.
      rewrite <- Hcosabs in Hg. lra. }
    rewrite Hsin, Heq, sin_PI2.
    destruct (Rlt_dec 0 1) as [_|H]; [reflexivity | lra].
Qed.

End HaversineMore.

Lemma haversine_distance_meridian_witness :
  @haversine_distance R Weight_R (Floating_R no_parse) 35%R 51%R 36%R 51%R
  = Ok (6371 * Rabs (radians 36 - radians 35))%R.
Proof.
  apply (@haversine_distance_meridian no_parse 35%R 36%R 51%R).
  unfold Rabs. destruct (Rcase_abs (36 - 35)); lra.
Defined.

(* ================================================================== *)
(** ** [dijkstra] *)

Section Avoid.
Context {W : Type} {HW : Weight W}.
Variable g : graph W.
Variable end_node : string.
Variable disabled_stations : list string.

Lemma relax_avoid cd cn items :
  str_in cn disabled_stations = false ->
  forall st st',
    avoid_inv disabled_stations st ->
    relax disabled_stations cd cn items st = Some st' ->
    avoid_inv disabled_stations st'.
Proof.
  intros Hcn. induction items as [|[nb w] items IH]; intros st st' Hinv Hr.
  - now injection Hr as <-.
  - cbn [relax] in Hr.
    destruct (str_in nb disabled_stations) eqn:Hnb; [now apply (IH st)|].
    destruct (dict_get (distances st) nb) as [dn|]; [|discriminate].
    destruct (ext_ltb (Fin (wadd cd w)) dn); [|now apply (IH st)].
    apply IH in Hr; [exact Hr|].
    intros v u. simpl. rewrite dict_get_set.
    destruct (String.eqb_spec nb v) as [<-|Hne]; [|apply Hinv].
    intros [= <-]. auto.
Qed.

Lemma reconstruct_avoid (st : state W) :
  avoid_inv disabled_stations st ->
  forall fuel c acc path,
    str_in c disabled_stations = false ->
    (forall x, In x acc -> str_in x disabled_stations = false) ->
    reconstruct fuel (previous_nodes st) (Some c) acc = Some (Ok path) ->
    forall x, In x path -> str_in x disabled_stations = false.
Proof.
  intros Hinv. induction fuel as [|fuel IH]; intros c acc path Hc Hacc;
    [discriminate|].
  cbn [reconstruct].
  destruct (dict_get (previous_nodes st) c) as [[u|]|] eqn:Hp;
    [| |discriminate].
  - apply IH; [exact (proj1 (Hinv c u Hp))|].
    intros x [<-|Hx]; auto.
  - destruct fuel; intros [= <-] x [<-|Hx]; auto.
Qed.

Lemma loop_avoid rfuel fuel :
  forall st t path,
    avoid_inv disabled_stations st ->
    dijkstra_loop g end_node disabled_stations rfuel fuel st
    = Some (Ok (Route t path)) ->
    forall x, In x path -> str_in x disabled_stations = false.
Proof.
  induction fuel as [|fuel IH]; intros st t path Hinv; [discriminate|].
  cbn [dijkstra_loop].
  destruct (heappop (priority_queue st)) as [[[cd cn] pq']|];
    [|discriminate].
  destruct (str_in cn disabled_stations) eqn:Hcn; [now apply IH|].
  destruct (dict_get (distances st) cn) as [dc|]; [|discriminate].
  destruct (ext_ltb dc (Fin cd)); [now apply IH|].
  destruct (String.eqb_spec cn end_node) as [->|Hne].
  - destruct (reconstruct rfuel (previous_nodes st) (Some end_node) [])
      as [[p|e]|] eqn:Hrec; try discriminate.
    destruct (dict_get (distances st) end_node); [|discriminate].
    intros [= <- <-].
    eapply reconstruct_avoid; [exact Hinv | exact Hcn | | exact Hrec].
    intros x [].
  - destruct (dict_get g cn) as [items|]; [|discriminate].
    destruct (relax disabled_stations cd cn items
                    (mkState (distances st) (previous_nodes st) pq'))
      as [st''|] eqn:Hr; [|discriminate].
    apply IH. eapply relax_avoid; [exact Hcn | | exact Hr]. exact Hinv.
Qed.

Lemma initial_avoid start_node :
  avoid_inv disabled_stations (initial_state g start_node).
Proof.
  intros v u. simpl. rewrite dict_get_const.
  destruct (dict_mem g v); discriminate.
Qed.

End Avoid.

(** X6.  A returned path never contains a disabled station, whatever the
    graph; in particular no route is returned to a disabled end. *)
Theorem dijkstra_path_avoids_disabled
        (W : Type) (HW : Weight W)
        (g : graph W) (start_node end_node : string)
        (disabled_stations : list string) (fuel : nat)
        (t : ext W) (path : list string) :
  dijkstra_fuel g end_node disabled_stations fuel start_node
  = Some (Ok (Route t path)) ->
  (forall x, In x path -> str_in x disabled_stations = false) /\
  str_in end_node disabled_stations = false.
Proof.
  intros Hr.
  assert (Hall : forall x, In x path -> str_in x disabled_stations = false).
  { unfold dijkstra_fuel in Hr.
    eapply loop_avoid; [apply initial_avoid | exact Hr]. }
  split; [exact Hall|].
  unfold dijkstra_fuel in Hr.
  pose proof (@loop_shape W HW g start_node end_node disabled_stations
                fuel fuel _ t path (initial_tree_inv g start_node) Hr)
    as (pre & -> & _).
  apply Hall. apply in_or_app. right. now left.
Qed.

Lemma dijkstra_path_avoids_disabled_witness :
  (forall x, In x ["X"; "Z"] -> str_in x ["Y"] = false) /\
  str_in "Z" ["Y"] = false.
Proof.
  assert (E : dijkstra_fuel xyz_graph "Z" ["Y"] 8 "X"
              = Some (Ok (Route (Fin 10%Z) ["X"; "Z"])))
    by (vm_compute; reflexivity).
  exact (@dijkstra_path_avoids_disabled Z Weight_Z xyz_graph "X" "Z"
           ["Y"] 8 (Fin 10%Z) ["X"; "Z"] E).
Defined.

(** X7.  A start that is not a key of the graph and is not disabled makes
    the search raise [KeyError]: from [graph[start]], or, when start and
    end are the same, from [previous_nodes[start]]. *)
Theorem dijkstra_unknown_start_raises
        (W : Type) (HW : Weight W) (HL : WeightLaws W)
        (g : graph W) (start_node end_node : string)
        (disabled_stations : list string) (fuel : nat) :
  dict_mem g start_node = false ->
  str_in start_node disabled_stations = false ->
  1 <= fuel ->
  dijkstra_fuel g end_node disabled_stations fuel start_node
  = Some (Raise KeyError).
Proof.
  intros Hmem Hdis Hfuel. unfold dijkstra_fuel, initial_state.
  destruct fuel as [|fuel]; [lia|].
  cbn [dijkstra_loop priority_queue distances previous_nodes].
  rewrite heappop_singleton, Hdis, dict_get_set_eq.
  unfold ext_ltb at 1. rewrite wltb_irrefl.
  destruct (String.eqb_spec start_node end_node) as [<-|Hne].
  - cbn [reconstruct]. rewrite dict_get_const, Hmem. reflexivity.
  - unfold dict_mem in Hmem.
    destruct (dict_get g start_node); [discriminate | reflexivity].
Qed.

Lemma dijkstra_unknown_start_raises_witness :
  dijkstra xyz_graph "Q" "Z" [] = Some (Raise KeyError).
Proof.
  apply (@dijkstra_unknown_start_raises Z Weight_Z WeightLaws_Z xyz_graph
           "Q" "Z" [] (edge_count xyz_graph + 2));
    [reflexivity | reflexivity | simpl; lia].
Defined.

Section Consequences.
Context {W : Type} {HW : Weight W} {HL : WeightLaws W}.
Variable g : graph W.
Hypothesis Hwf : graph_wf g = true.
Hypothesis Hclosed : graph_closed g = true.
Hypothesis Hnonneg : graph_nonneg g = true.

(** What a result of [dijkstra] means on such a graph. *)
Lemma dijkstra_result s e dis :
  dict_mem g s = true ->
  exists r,
    dijkstra g s e dis = Some (Ok r) /\
    match r with
    | Route t path =>
        exists d, t = Fin d /\ is_path g dis s e path d /\
                  wlt_inf d = true /\
                  forall p c, is_path g dis s e p c -> wle d c
    | NoRoute => forall p c, is_path g dis s e p c -> wlt_inf c = false
    end.
Proof.
  intros Hs.
  destruct (@dijkstra_total W HW HL g s e dis Hwf Hnonneg Hclosed
                            (edge_count g + 2) Hs (Nat.le_refl _))
    as (r & Hr & Hpost).
  exists r. split; [exact Hr|].
  destruct r as [t path|]; simpl in Hpost.
  - destruct Hpost as (d & -> & Hpath & Hfin & Hmin).
    exists d. split; [reflexivity|]. split; [exact Hpath|].
    split; [exact Hfin|].
    intros p c Hp. apply Hmin. exact (is_path_walk (g := g) eq_refl Hp).
  - intros p c Hp. apply (Hpost c).
    exact (is_path_walk (g := g) eq_refl Hp).
Qed.

Lemma is_path_end_in s e dis p c :
  is_path g dis s e p c -> In e p.
Proof.
  intros (Hhd & Hlast & _). destruct p as [|x q]; [discriminate|].
  rewrite <- Hlast. destruct (exists_last (l := x :: q)) as (l' & a & E);
    [discriminate|].
  rewrite E, last_last. apply in_or_app. right. now left.
Qed.

Lemma is_path_end_key s e dis p c :
  dict_mem g s = true -> is_path g dis s e p c -> dict_mem g e = true.
Proof.
  intros Hs Hp. pose proof (is_path_walk (g := g) eq_refl Hp) as Hw.
  clear Hp. induction Hw as [_|u c' nbrs v w _ _ Hg Hin _]; [exact Hs|].
  eapply graph_closed_spec; eauto.
Qed.

Lemma is_path_weaken s e dis dis' p c :
  (forall x, str_in x dis = true -> str_in x dis' = true) ->
  is_path g dis' s e p c -> is_path g dis s e p c.
Proof.
  intros Hsub (H1 & H2 & H3 & H4). repeat split; auto.
  intros x Hx. specialize (H3 x Hx).
  destruct (str_in x dis) eqn:E; [|reflexivity].
  rewrite (Hsub x E) in H3. discriminate.
Qed.

End Consequences.

(** X8.  On every graph with unique keys, closed under neighbours,
    whose weights are not negative and are numbers that obey the laws
    -- of the floats: not NaN, not negative -- and for a start that is
    a key: the search ends within [edge_count g + 2] rounds; when a
    path avoiding the disabled stations costs less than infinity it
    returns one of least total weight, and when every such path costs
    infinity or more, or there is none, the no-path result.  The sums
    may round; a sum that overflowed is not below infinity. *)
Theorem dijkstra_optimal_on_any_graph
        (W : Type) (HW : Weight W) (good : W -> bool) (HG : LawsOn good)
        (g : graph W) (start_node end_node : string)
        (disabled_stations : list string) (fuel : nat) :
  graph_wf g = true -> graph_closed g = true -> graph_nonneg g = true ->
  graph_good good g = true ->
  dict_mem g start_node = true ->
  edge_count g + 2 <= fuel ->
  dijkstra_fuel g end_node disabled_stations fuel start_node
  = dijkstra g start_node end_node disabled_stations /\
  ((exists p c, is_path g disabled_stations start_node end_node p c /\
                wlt_inf c = true) ->
   exists t path,
     dijkstra g start_node end_node disabled_stations
     = Some (Ok (Route (Fin t) path)) /\
     is_path g disabled_stations start_node end_node path t /\
     wlt_inf t = true /\
     forall p c, is_path g disabled_stations start_node end_node p c ->
                 wle t c) /\
  ((forall p c, is_path g disabled_stations start_node end_node p c ->
                wlt_inf c = false) ->
   dijkstra g start_node end_node disabled_stations = Some (Ok NoRoute)).
Proof.
  intros Hwf Hclosed Hnonneg Hgood Hs Hfuel. split.
  - exact (@dijkstra_fuel_enough_on W HW good HG g Hwf Hclosed Hnonneg
             Hgood start_node end_node disabled_stations fuel Hs Hfuel).
  - exact (@dijkstra_cases_on W HW good HG g Hwf Hclosed Hnonneg Hgood
             start_node end_node disabled_stations Hs).
Qed.

Lemma dijkstra_optimal_on_any_graph_witness :
  dijkstra_fuel xyz_graph "Z" [] 20 "X" = dijkstra xyz_graph "X" "Z" [].
Proof.
  apply (@dijkstra_optimal_on_any_graph Z Weight_Z (fun _ => true)
           (LawsOn_all WeightLaws_Z) xyz_graph "X" "Z" [] 20);
    try reflexivity. simpl. lia.
Defined.

(** X9.  A disabled end is unreachable: the search returns the no-path
    result (also when start and end are the same station). *)
Theorem dijkstra_disabled_end_no_path
        (W : Type) (HW : Weight W) (HL : WeightLaws W)
        (g : graph W) (start_node end_node : string)
        (disabled_stations : list string) :
  graph_wf g = true -> graph_closed g = true -> graph_nonneg g = true ->
  dict_mem g start_node = true ->
  str_in end_node disabled_stations = true ->
  dijkstra g start_node end_node disabled_stations = Some (Ok NoRoute).
Proof.
  intros Hwf Hclosed Hnonneg Hs Hend.
  destruct (@dijkstra_result W HW HL g Hwf Hclosed Hnonneg start_node end_node
                            disabled_stations Hs) as (r & Hr & Hpost).
  destruct r as [t path|]; [|exact Hr].
  destruct Hpost as (d & _ & Hpath & _). exfalso.
  pose proof (is_path_end_in Hpath) as Hin.
  destruct Hpath as (_ & _ & Hdis & _). rewrite (Hdis _ Hin) in Hend.
  discriminate.
Qed.

Lemma dijkstra_disabled_end_no_path_witness :
  dijkstra xyz_graph "X" "Z" ["Z"] = Some (Ok NoRoute).
Proof.
  apply (@dijkstra_disabled_end_no_path Z Weight_Z WeightLaws_Z xyz_graph
           "X" "Z" ["Z"]); reflexivity.
Defined.

(** X10.  An end that is not a key of the graph is never reached: the
    search returns the no-path result instead of raising. *)
Theorem dijkstra_unknown_end_no_path
        (W : Type) (HW : Weight W) (HL : WeightLaws W)
        (g : graph W) (start_node end_node : string)
        (disabled_stations : list string) :
  graph_wf g = true -> graph_closed g = true -> graph_nonneg g = true ->
  dict_mem g start_node = true ->
  dict_mem g end_node = false ->
  dijkstra g start_node end_node disabled_stations = Some (Ok NoRoute).
Proof.
  intros Hwf Hclosed Hnonneg Hs Hend.
  destruct (@dijkstra_result W HW HL g Hwf Hclosed Hnonneg start_node end_node
                            disabled_stations Hs) as (r & Hr & Hpost).
  destruct r as [t path|]; [|exact Hr].
  destruct Hpost as (d & _ & Hpath & _). exfalso.
  rewrite (is_path_end_key Hclosed Hs Hpath) in Hend. discriminate.
Qed.

Lemma dijkstra_unknown_end_no_path_witness :
  dijkstra xyz_graph "X" "Q" [] = Some (Ok NoRoute).
Proof.
  apply (@dijkstra_unknown_end_no_path Z Weight_Z WeightLaws_Z xyz_graph
           "X" "Q" []); reflexivity.
Defined.

(** X11.  Disabling more stations never shortens a route: when a route
    is found with the larger set disabled, one is found with the smaller
    set, and its time is no larger. *)
Theorem dijkstra_monotone_in_disabled
        (W : Type) (HW : Weight W) (HL : WeightLaws W)
        (g : graph W) (start_node end_node : string)
        (disabled disabled' : list string) (t' : W) (path' : list string) :
  graph_wf g = true -> graph_closed g = true -> graph_nonneg g = true ->
  dict_mem g start_node = true ->
  (forall x, In x disabled -> In x disabled') ->
  dijkstra g start_node end_node disabled'
  = Some (Ok (Route (Fin t') path')) ->
  exists t path,
    dijkstra g start_node end_node disabled = Some (Ok (Route (Fin t) path)) /\
    wle t t'.
Proof.
  intros Hwf Hclosed Hnonneg Hs Hsub Hr'.
  assert (Hsub' : forall x, str_in x disabled = true ->
                            str_in x disabled' = true).
  { intros x Hx. apply str_in_In. apply Hsub. now apply str_in_In. }
  destruct (@dijkstra_result W HW HL g Hwf Hclosed Hnonneg start_node end_node
                            disabled' Hs) as (r' & Hr2 & Hpost').
  rewrite Hr' in Hr2. injection Hr2 as <-.
  destruct Hpost' as (d' & [= <-] & Hpath' & Hfin' & _).
  assert (Hp : is_path g disabled start_node end_node path' t')
    by (eapply is_path_weaken; [exact Hsub' | exact Hpath']).
  destruct (@dijkstra_result W HW HL g Hwf Hclosed Hnonneg start_node end_node
                            disabled Hs) as (r & Hr & Hpost).
  destruct r as [t path|].
  2:{ rewrite (Hpost _ _ Hp) in Hfin'. discriminate. }
  destruct Hpost as (d & -> & _ & _ & Hmin).
  exists d, path. split; [exact Hr | exact (Hmin _ _ Hp)].
Qed.

Lemma dijkstra_monotone_in_disabled_witness :
  exists t path,
    dijkstra xyz_graph "X" "Z" [] = Some (Ok (Route (Fin t) path)) /\
    wle t 10%Z.
Proof.
  apply (@dijkstra_monotone_in_disabled Z Weight_Z WeightLaws_Z xyz_graph
           "X" "Z" [] ["Y"] 10%Z ["X"; "Z"]); try reflexivity.
  intros x [].
Defined.

(** X12.  Disabling a station that is not on the returned path leaves
    the shortest time as it is. *)
Theorem dijkstra_disable_off_path
        (W : Type) (HW : Weight W) (HL : WeightLaws W)
        (g : graph W) (start_node end_node x : string)
        (disabled_stations : list string) (t : W) (path : list string) :
  graph_wf g = true -> graph_closed g = true -> graph_nonneg g = true ->
  dict_mem g start_node = true ->
  dijkstra g start_node end_node disabled_stations
  = Some (Ok (Route (Fin t) path)) ->
  ~ In x path ->
  exists path',
    dijkstra g start_node end_node (x :: disabled_stations)
    = Some (Ok (Route (Fin t) path')).
Proof.
  intros Hwf Hclosed Hnonneg Hs Hr Hx.
  destruct (@dijkstra_result W HW HL g Hwf Hclosed Hnonneg start_node end_node
                            disabled_stations Hs) as (r & Hr2 & Hpost).
  rewrite Hr in Hr2. injection Hr2 as <-.
  destruct Hpost as (d & [= <-] & Hpath & Hfin & Hmin).
  assert (Hp : is_path g (x :: disabled_stations) start_node end_node path t).
  { destruct Hpath as (H1 & H2 & H3 & H4). repeat split; auto.
    intros y Hy. simpl. destruct (String.eqb_spec y x) as [->|_];
      [contradiction | now apply H3]. }
  destruct (@dijkstra_result W HW HL g Hwf Hclosed Hnonneg start_node end_node
                            (x :: disabled_stations) Hs)
    as (r' & Hr' & Hpost').
  destruct r' as [t' path'|].
  2:{ rewrite (Hpost' _ _ Hp) in Hfin. discriminate. }
  destruct Hpost' as (d' & -> & Hpath' & _ & Hmin').
  assert (Hweak : is_path g disabled_stations start_node end_node path' d').
  { eapply is_path_weaken; [|exact Hpath'].
    intros y Hy. simpl. rewrite Hy. now destruct (String.eqb y x). }
  assert (d' = t).
  { apply wle_antisym; [exact (Hmin' _ _ Hp) | exact (Hmin _ _ Hweak)]. }
  subst d'. exists path'. exact Hr'.
Qed.

Lemma dijkstra_disable_off_path_witness :
  exists path',
    dijkstra xyz_graph "X" "Y" ["Z"] = Some (Ok (Route (Fin 5%Z) path')).
Proof.
  apply (@dijkstra_disable_off_path Z Weight_Z WeightLaws_Z xyz_graph
           "X" "Y" "Z" [] 5%Z ["X"; "Y"]); try reflexivity.
  simpl. intros [H|[H|[]]]; discriminate.
Defined.

Section SimplePath.
Context {W : Type} {HW : Weight W} {HL : WeightLaws W}.
Variable g : graph W.
Variable start_node end_node : string.
Variable disabled_stations : list string.
Hypothesis Hwf : graph_wf g = true.
Hypothesis Hnonneg : graph_nonneg g = true.
Hypothesis Hclosed : graph_closed g = true.

Abbreviation sinv := (search_inv g start_node disabled_stations end_node).

(** The predecessor links from a settled node run through settled
    nodes that were expanded earlier, each met once. *)
Lemma chain_simple st settled :
  sinv st settled ->
  forall L,
    chain_ok start_node (previous_nodes st) L -> NoDup L ->
    forall v fuel acc path,
      In v L ->
      reconstruct fuel (previous_nodes st) (Some v) acc = Some (Ok path) ->
      exists chain, path = chain ++ acc /\ NoDup chain /\
                    forall x, In x chain -> In x L.
Proof.
  intros Hinv. induction L as [|x L IH]; [intros _ _ v fuel acc path []|].
  cbn [chain_ok]. intros [Hx Hchain] HN v fuel acc path Hv Hrec.
  inversion HN as [|? ? HxL HNL]; subst.
  destruct (String.eqb_spec v x) as [->|Hvx].
  - destruct fuel as [|fuel]; [discriminate|]. cbn [reconstruct] in Hrec.
    destruct (String.eqb_spec x start_node) as [->|Hns].
    + rewrite (proj2 (si_start Hinv)) in Hrec.
      assert (E : path = start_node :: acc)
        by (destruct fuel; simpl in Hrec; congruence).
      exists [start_node]. split; [exact E|]. split.
      * constructor; [intros [] | constructor].
      * intros y [<-|[]]. now left.
    + destruct Hx as [Hx|(u & Hp & Hu)]; [congruence|].
      rewrite Hp in Hrec.
      destruct (IH Hchain HNL u fuel (x :: acc) path Hu Hrec)
        as (chain & -> & HNc & Hsub).
      exists (chain ++ [x]). split; [now rewrite <- app_assoc|]. split.
      * apply NoDup_snoc; [exact HNc|]. intros Hin. apply HxL.
        now apply Hsub.
      * intros y Hy. apply in_app_or in Hy.
        destruct Hy as [Hy|[<-|[]]]; [right; now apply Hsub | now left].
  - destruct Hv as [Hv|Hv]; [congruence|].
    destruct (IH Hchain HNL v fuel acc path Hv Hrec)
      as (chain & -> & HNc & Hsub).
    exists chain. split; [reflexivity|]. split; [exact HNc|].
    intros y Hy. right. now apply Hsub.
Qed.

Lemma end_path_simple st settled cd rfuel path :
  sinv st settled -> NoDup settled -> ~ In end_node settled ->
  dict_get (distances st) end_node = Some (Fin cd) ->
  reconstruct rfuel (previous_nodes st) (Some end_node) []
  = Some (Ok path) ->
  NoDup path.
Proof.
  intros Hinv HN Hfresh Hd Hrec.
  destruct rfuel as [|rfuel]; [discriminate|]. cbn [reconstruct] in Hrec.
  destruct (String.eqb_spec end_node start_node) as [E|Hns].
  - rewrite E, (proj2 (si_start Hinv)) in Hrec.
    assert (E' : path = [start_node])
      by (destruct rfuel; simpl in Hrec; congruence).
    rewrite E'. constructor; [intros [] | constructor].
  - destruct (si_tree Hinv Hns Hd) as (_ & u & du & w & Hp & Hu & _).
    rewrite Hp in Hrec.
    destruct (@chain_simple st settled Hinv settled (si_chain Hinv) HN u
                            rfuel [end_node] path Hu Hrec)
      as (chain & -> & HNc & Hsub).
    apply NoDup_snoc; [exact HNc|]. intros Hin. apply Hfresh.
    now apply Hsub.
Qed.

Lemma loop_simple rfuel :
  forall fuel st settled t path,
    keys_inv g st -> sinv st settled ->
    relaxed_all g disabled_stations st settled -> NoDup settled ->
    dijkstra_loop g end_node disabled_stations rfuel fuel st
    = Some (Ok (Route t path)) ->
    NoDup path.
Proof.
  induction fuel as [|fuel IH];
    intros st settled t path Hkeys Hinv Hrel HN; [discriminate|].
  cbn [dijkstra_loop].
  destruct (heappop (priority_queue st)) as [[[cd cn] pq']|] eqn:Hpop;
    [|discriminate].
  destruct (heappop_spec _ Hpop) as (Hin & Hpq' & Hmin & Hlen).
  assert (Hkeys' : keys_inv g (mkState (distances st) (previous_nodes st) pq')).
  { destruct Hkeys as (K1 & K2 & K3). split; [|split]; simpl; auto.
    intros d v Hq. apply (K2 d v). rewrite Hpq' in Hq.
    now apply heap_remove_In in Hq. }
  destruct (str_in cn disabled_stations) eqn:Hdis.
  { apply (IH _ settled); auto.
    eapply pop_skip; [exact Hinv | exact Hpop | now left]. }
  destruct (dict_get (distances st) cn) as [dc|] eqn:Hdc; [|discriminate].
  destruct (ext_ltb dc (Fin cd)) eqn:Hstale.
  { apply (IH _ settled); auto.
    eapply pop_skip; [exact Hinv | exact Hpop | right; eauto]. }
  assert (Hex : dc = Fin cd /\ ~ In cn settled)
    by (eapply pop_exact; eauto).
  destruct Hex as [-> Hfresh].
  destruct (String.eqb_spec cn end_node) as [->|Hne].
  - destruct (reconstruct rfuel (previous_nodes st) (Some end_node) [])
      as [[p|e]|] eqn:Hrec; try discriminate.
    rewrite Hdc. intros [= <- <-].
    eapply end_path_simple; eauto.
  - destruct (dict_get g cn) as [items|] eqn:Hg; [|discriminate].
    destruct (relax disabled_stations cd cn items
                    (mkState (distances st) (previous_nodes st) pq'))
      as [st''|] eqn:Hrelax; [|discriminate].
    destruct (@relax_keys_inv W HW g disabled_stations Hclosed cd cn items
                              items _ Hg (fun x Hx => Hx) Hkeys')
      as (st3 & Hrelax3 & Hkeys'').
    rewrite Hrelax in Hrelax3. injection Hrelax3 as <-.
    assert (Hexp : sinv (mkState (distances st) (previous_nodes st) pq')
                        (cn :: settled) /\
                   settled_below (mkState (distances st)
                                          (previous_nodes st) pq')
                                 (cn :: settled) cd)
      by (eapply pop_expand; eauto).
    destruct Hexp as [Hinv' Hbelow].
    assert (Hri : sinv st'' (cn :: settled) /\
                  relaxed_all g disabled_stations st'' settled /\
                  settled_below st'' (cn :: settled) cd /\
                  dict_get (distances st'') cn = Some (Fin cd) /\
                  (forall v w, False \/ In (v, w) items ->
                               relaxed disabled_stations st'' cn v w) /\
                  List.length (priority_queue st'')
                  <= List.length pq' + List.length items).
    { exact (@relax_inv W HW HL g start_node end_node disabled_stations
                        Hwf Hnonneg cn cd items settled Hg items
                        (fun _ _ => False) _ st'' (fun x Hx => Hx) Hinv'
                        Hrel Hbelow Hdc
                        (fun v w (F : False) => match F with end) Hrelax). }
    destruct Hri as (I1 & I2 & _ & _ & I5 & _).
    apply (IH _ (cn :: settled)); auto.
    + intros u nbrs v w [<-|Hu] Hgu Hi.
      * apply I5. right. congruence.
      * exact (I2 u nbrs v w Hu Hgu Hi).
    + constructor; assumption.
Qed.

End SimplePath.

(** X13.  A returned path visits no station twice. *)
Theorem dijkstra_path_is_simple
        (W : Type) (HW : Weight W) (HL : WeightLaws W)
        (g : graph W) (start_node end_node : string)
        (disabled_stations : list string) (fuel : nat)
        (t : ext W) (path : list string) :
  graph_wf g = true -> graph_closed g = true -> graph_nonneg g = true ->
  dict_mem g start_node = true ->
  dijkstra_fuel g end_node disabled_stations fuel start_node
  = Some (Ok (Route t path)) ->
  NoDup path.
Proof.
  intros Hwf Hclosed Hnonneg Hs Hr. unfold dijkstra_fuel in Hr.
  destruct (@initial_inv W HW HL g start_node end_node disabled_stations Hs)
    as [Hinv Hrel].
  eapply (@loop_simple W HW HL g start_node end_node disabled_stations
                       Hwf Hnonneg Hclosed);
    [ | exact Hinv | exact Hrel | constructor | exact Hr].
  now apply initial_keys_inv.
Qed.

Lemma dijkstra_path_is_simple_witness : NoDup ["X"; "Y"; "Z"].
Proof.
  apply (@dijkstra_path_is_simple Z Weight_Z WeightLaws_Z xyz_graph "X" "Z"
           [] 8 (Fin 8%Z) ["X"; "Y"; "Z"]); vm_compute; reflexivity.
Defined.

(* ================================================================== *)
(** ** More about the builder: which edges exist *)

Section BuildMore.
Context {W : Type} {HW : Weight W} {HF : Floating W}.
Variable stations_data : dict (station_record W).
Variable train_speed_kmph : W.
Variable line_change_penalty_minutes : W.
Variable station_details : dict (station_detail W).

Abbreviation relations_pass :=
  (add_relations stations_data train_speed_kmph
                 line_change_penalty_minutes station_details).
Abbreviation edges_pass :=
  (add_edges stations_data train_speed_kmph
             line_change_penalty_minutes station_details).

Abbreviation located_pair := (located_pair station_details).

Lemma set_edge_keeps (g g' : graph W) a b t u v :
  set_edge g a b t = Ok g' ->
  edge_weight g u v <> None -> edge_weight g' u v <> None.
Proof.
  intros Hs Hw. rewrite (set_edge_weight g a b t u v Hs).
  destruct (String.eqb a u && String.eqb b v); [discriminate | exact Hw].
Qed.

Lemma set_edge_new (g g' : graph W) a b t :
  set_edge g a b t = Ok g' -> edge_weight g' a b <> None.
Proof.
  intros Hs. rewrite (set_edge_weight g a b t a b Hs).
  now rewrite !String.eqb_refl.
Qed.

(** No write of the second pass removes an edge. *)
Lemma add_relations_keeps name rels u v :
  forall g g',
    relations_pass name rels g = Ok g' ->
    edge_weight g u v <> None -> edge_weight g' u v <> None.
Proof.
  induction rels as [|rel rels IH]; intros g g' Hr Hw.
  - now injection Hr as <-.
  - cbn [add_relations] in Hr.
    destruct (dict_mem stations_data rel); [|now apply (IH g)].
    apply bind_Ok in Hr. destruct Hr as (d1 & _ & Hr).
    apply bind_Ok in Hr. destruct Hr as (d2 & _ & Hr).
    destruct (detail_latitude d1); [|now apply (IH g)].
    destruct (detail_longitude d1); [|now apply (IH g)].
    destruct (detail_latitude d2); [|now apply (IH g)].
    destruct (detail_longitude d2); [|now apply (IH g)].
    apply bind_Ok in Hr. destruct Hr as (t & _ & Hr).
    apply bind_Ok in Hr. destruct Hr as (g1 & Hg1 & Hr).
    apply bind_Ok in Hr. destruct Hr as (g2 & Hg2 & Hr).
    apply (IH g2); [exact Hr|].
    eapply set_edge_keeps; [exact Hg2|].
    eapply set_edge_keeps; [exact Hg1 | exact Hw].
Qed.

(** Each relation of a station that names a station, both of them with
    coordinates, is an edge after the relations are processed. *)
Lemma add_relations_adds name rels rel :
  forall g g',
    relations_pass name rels g = Ok g' ->
    In rel rels -> dict_mem stations_data rel = true ->
    located_pair name rel ->
    edge_weight g' name rel <> None.
Proof.
  induction rels as [|rel0 rels IH]; intros g g' Hr Hin Hmem Hloc;
    [destruct Hin|].
  cbn [add_relations] in Hr.
  destruct Hin as [->|Hin].
  - rewrite Hmem in Hr.
    destruct Hloc as (da & db & la1 & lo1 & la2 & lo2
                      & Ha & Hb & L1 & L2 & L3 & L4).
    unfold lookup in Hr. rewrite Ha, Hb in Hr. cbn [bind] in Hr.
    rewrite L1, L2, L3, L4 in Hr.
    apply bind_Ok in Hr. destruct Hr as (t & _ & Hr).
    apply bind_Ok in Hr. destruct Hr as (g1 & Hg1 & Hr).
    apply bind_Ok in Hr. destruct Hr as (g2 & Hg2 & Hr).
    eapply add_relations_keeps; [exact Hr|].
    eapply set_edge_keeps; [exact Hg2|].
    eapply set_edge_new; exact Hg1.
  - destruct (dict_mem stations_data rel0); [|now apply (IH g)].
    apply bind_Ok in Hr. destruct Hr as (d1 & _ & Hr).
    apply bind_Ok in Hr. destruct Hr as (d2 & _ & Hr).
    destruct (detail_latitude d1); [|now apply (IH g)].
    destruct (detail_longitude d1); [|now apply (IH g)].
    destruct (detail_latitude d2); [|now apply (IH g)].
    destruct (detail_longitude d2); [|now apply (IH g)].
    apply bind_Ok in Hr. destruct Hr as (t & _ & Hr).
    apply bind_Ok in Hr. destruct Hr as (g1 & _ & Hr).
    apply bind_Ok in Hr. destruct Hr as (g2 & _ & Hr).
    now apply (IH g2).
Qed.

Lemma add_edges_keeps items u v :
  forall g g',
    edges_pass items g = Ok g' ->
    edge_weight g u v <> None -> edge_weight g' u v <> None.
Proof.
  induction items as [|[name data] items IH]; intros g g' Hr Hw.
  - now injection Hr as <-.
  - cbn [add_edges] in Hr.
    apply bind_Ok in Hr. destruct Hr as (d & _ & Hr).
    destruct (detail_latitude d); [|now apply (IH g)].
    destruct (detail_longitude d); [|now apply (IH g)].
    apply bind_Ok in Hr. destruct Hr as (g1 & Hg1 & Hr).
    apply (IH g1); [exact Hr|].
    eapply add_relations_keeps; [exact Hg1 | exact Hw].
Qed.

Lemma add_edges_adds items name data rel :
  forall g g',
    edges_pass items g = Ok g' ->
    In (name, data) items -> In rel (get_list (relations data)) ->
    dict_mem stations_data rel = true -> located_pair name rel ->
    edge_weight g' name rel <> None.
Proof.
  induction items as [|[name0 data0] items IH];
    intros g g' Hr Hin Hrel Hmem Hloc; [destruct Hin|].
  cbn [add_edges] in Hr.
  destruct Hin as [[= -> ->]|Hin].
  - pose proof Hloc as (da & db & la1 & lo1 & la2 & lo2
                        & Ha & Hb & L1 & L2 & L3 & L4).
    unfold lookup in Hr. rewrite Ha in Hr. cbn [bind] in Hr.
    rewrite L1, L2 in Hr.
    apply bind_Ok in Hr. destruct Hr as (g1 & Hg1 & Hr).
    eapply add_edges_keeps; [exact Hr|].
    eapply add_relations_adds; [exact Hg1 | exact Hrel | exact Hmem | exact Hloc].
  - apply bind_Ok in Hr. destruct Hr as (d & _ & Hr).
    destruct (detail_latitude d); [|now apply (IH g)].
    destruct (detail_longitude d); [|now apply (IH g)].
    apply bind_Ok in Hr. destruct Hr as (g1 & _ & Hr).
    now apply (IH g1).
Qed.

End BuildMore.

(** In the graph of a successful build, a relation that one station
    lists to another station is an edge as soon as both have their
    coordinates. *)
Lemma build_complete
      (W : Type) (HW : Weight W) (HF : Floating W)
      (stations_data : dict (station_record W))
      (train_speed_kmph line_change_penalty_minutes : W)
      (g : graph W) (station_details : dict (station_detail W))
      (name rel : string) (data : station_record W) :
  build_metro_graph stations_data train_speed_kmph
                    line_change_penalty_minutes = Ok (g, station_details) ->
  In (name, data) stations_data -> In rel (get_list (relations data)) ->
  dict_mem stations_data rel = true ->
  located_pair station_details name rel ->
  edge_weight g name rel <> None.
Proof.
  unfold build_metro_graph. intros Hb Hin Hrel Hmem Hloc.
  apply bind_Ok in Hb. destruct Hb as ([g0 d0] & _ & Hb).
  apply bind_Ok in Hb. destruct Hb as (g' & He & [= <- <-]).
  eapply add_edges_adds; [exact He | exact Hin | exact Hrel | exact Hmem | exact Hloc].
Qed.

(** X15.  The graph and the details of a successful build have one
    entry per station of the input and no other, and every edge joins
    two stations of the input: a relation that names an unknown station
    leaves no trace. *)
Theorem built_graph_nodes_are_the_stations
        (W : Type) (HW : Weight W) (HF : Floating W)
        (stations_data : dict (station_record W))
        (train_speed_kmph line_change_penalty_minutes : W)
        (g : graph W) (station_details : dict (station_detail W)) :
  build_metro_graph stations_data train_speed_kmph
                    line_change_penalty_minutes = Ok (g, station_details) ->
  (forall x, dict_mem g x = dict_mem stations_data x) /\
  (forall x, dict_mem station_details x = dict_mem stations_data x) /\
  (forall u v w, edge_weight g u v = Some w ->
                 dict_mem stations_data u = true /\
                 dict_mem stations_data v = true).
Proof.
  intros Hb. destruct (build_spec _ _ _ Hb) as (Hinv & g0 & Hn & _).
  destruct (add_nodes_spec _ _ _ Hn) as (_ & N2 & N3 & _).
  split; [exact (bi_keys Hinv)|]. split.
  - intros x. rewrite (dict_mem_str_in stations_data).
    destruct (str_in x (dict_keys stations_data)) eqn:E.
    + apply str_in_In in E.
      destruct (N3 x E) as (data & lat & lon & _ & _ & _ & Hd).
      unfold dict_mem. now rewrite Hd.
    + apply str_in_not_In in E. unfold dict_mem. now rewrite (N2 x E).
  - intros u v w Hw. split; [|exact (bi_closed Hinv _ _ Hw)].
    rewrite <- (bi_keys Hinv). unfold dict_mem. unfold edge_weight in Hw.
    destruct (dict_get g u); [reflexivity | discriminate].
Qed.

Lemma built_graph_nodes_are_the_stations_witness :
  (forall x, dict_mem two_graph x = dict_mem two_stations x) /\
  (forall x, dict_mem two_details x = dict_mem two_stations x) /\
  (forall u v w, edge_weight two_graph u v = Some w ->
                 dict_mem two_stations u = true /\
                 dict_mem two_stations v = true).
Proof.
  exact (@built_graph_nodes_are_the_stations R Weight_R (Floating_R no_parse)
           two_stations 40%R 4%R two_graph two_details two_build).
Defined.

(** X16.  In the graph of a successful build, a relation that a station
    lists to another station of the input is an edge, in both
    directions and with one weight, as soon as both stations have their
    coordinates. *)
Theorem listed_relation_is_an_edge
        (W : Type) (HW : Weight W) (HF : Floating W)
        (stations_data : dict (station_record W))
        (train_speed_kmph line_change_penalty_minutes : W)
        (g : graph W) (station_details : dict (station_detail W))
        (name rel : string) (data : station_record W) :
  build_metro_graph stations_data train_speed_kmph
                    line_change_penalty_minutes = Ok (g, station_details) ->
  In (name, data) stations_data -> In rel (get_list (relations data)) ->
  dict_mem stations_data rel = true ->
  located_pair station_details name rel ->
  exists w, edge_weight g name rel = Some w /\
            edge_weight g rel name = Some w.
Proof.
  intros Hb Hin Hrel Hmem Hloc.
  assert (Hw : edge_weight g name rel <> None)
    by (eapply build_complete; [exact Hb | exact Hin | exact Hrel | exact Hmem | exact Hloc]).
  destruct (build_spec _ _ _ Hb) as (Hinv & _).
  destruct (edge_weight g name rel) as [w|] eqn:E; [|congruence].
  exists w. split; [reflexivity|]. now rewrite <- (bi_sym Hinv name rel).
Qed.

Lemma two_located : located_pair two_details "A" "B".
Proof.
  exists (mkDetail (Some 35%R) (Some 51%R) ["1"]),
         (mkDetail (Some 36%R) (Some 51%R) ["2"]),
         35%R, 51%R, 36%R, 51%R.
  repeat split; reflexivity.
Qed.

Lemma listed_relation_is_an_edge_witness :
  exists w, edge_weight two_graph "A" "B" = Some w /\
            edge_weight two_graph "B" "A" = Some w.
Proof.
  apply (@listed_relation_is_an_edge R Weight_R (Floating_R no_parse)
           two_stations 40%R 4%R two_graph two_details "A" "B"
           (mkRecord (Some (JNumber 35%R)) (Some (JNumber 51%R))
                     (Some ["1"]) (Some ["B"])) two_build).
  - left. reflexivity.
  - left. reflexivity.
  - reflexivity.
  - exact two_located.
Defined.

(* ================================================================== *)
(** ** How a build can fail *)

Lemma add_nodes_Raise (W : Type) (HW : Weight W) (HF : Floating W)
      (items : list (string * station_record W)) :
  forall g0 d0 e,
    add_nodes items g0 d0 = Raise e ->
    exists name data v,
      In (name, data) items /\
      (latitude data = Some v \/ longitude data = Some v) /\
      py_float v = Raise e.
Proof.
  induction items as [|[name data] items IH]; intros g0 d0 e Hr;
    [discriminate|].
  cbn [add_nodes] in Hr.
  destruct (coordinate (latitude data)) as [lat|e1] eqn:Hlat.
  - destruct (coordinate (longitude data)) as [lon|e2] eqn:Hlon.
    + cbn [bind] in Hr.
      destruct (IH _ _ _ Hr) as (n & dt & v & Hin & Hv & He).
      exists n, dt, v. split; [now right | auto].
    + cbn [bind] in Hr. injection Hr as <-.
      destruct (coordinate_Raise _ Hlon) as (v & Hv & He & _).
      exists name, data, v. split; [now left | auto].
  - cbn [bind] in Hr. injection Hr as <-.
    destruct (coordinate_Raise _ Hlat) as (v & Hv & He & _).
    exists name, data, v. split; [now left | auto].
Qed.

Section BuildFailures.
Context {W : Type} {HW : Weight W} {HF : Floating W}.
Variable stations_data : dict (station_record W).
Variable train_speed_kmph : W.
Variable line_change_penalty_minutes : W.
Variable station_details : dict (station_detail W).

(** The literal 2 is not zero. *)
Hypothesis Htwo : weqb (of_Z 2) w0 = false.

(** Every station has its entry in the details. *)
Hypothesis Hdetails :
  forall x, dict_mem stations_data x = true ->
            dict_mem station_details x = true.

Abbreviation has_stations g :=
  (forall x, dict_mem stations_data x = true -> dict_mem g x = true).

(** Two stations with coordinates on which [haversine_distance]
    raises. *)
Abbreviation haversine_raises :=
  (exists a b lat1 lon1 lat2 lon2 lines1 lines2,
      both_located station_details a b lat1 lon1 lat2 lon2 lines1 lines2 /\
      haversine_distance lat1 lon1 lat2 lon2 = Raise ValueError).

Lemma lookup_mem {V : Type} (d : dict V) k :
  dict_mem d k = true -> exists v, lookup d k = Ok v.
Proof.
  unfold dict_mem, lookup. destruct (dict_get d k) as [v|];
    [eauto | discriminate].
Qed.

Lemma set_edge_mem_Ok (g : graph W) a b t :
  dict_mem g a = true ->
  exists g', set_edge g a b t = Ok g' /\
             forall x, dict_mem g' x = dict_mem g x.
Proof.
  intros Ha. unfold set_edge.
  destruct (lookup_mem g a Ha) as (nbrs & Hl). rewrite Hl. cbn [bind].
  eexists. split; [reflexivity|]. intros x.
  eapply set_edge_mem. unfold set_edge. rewrite Hl. reflexivity.
Qed.

(** The weight of one edge: the distance is computed first and may
    raise; the division raises next when the speed is zero. *)
Lemma edge_minutes_outcome lat1 lon1 lat2 lon2 lines1 lines2 :
  (exists t,
      edge_minutes train_speed_kmph line_change_penalty_minutes
                   lat1 lon1 lat2 lon2 lines1 lines2 = Ok t /\
      weqb train_speed_kmph w0 = false) \/
  (edge_minutes train_speed_kmph line_change_penalty_minutes
                lat1 lon1 lat2 lon2 lines1 lines2 = Raise ZeroDivisionError /\
   weqb train_speed_kmph w0 = true) \/
  (edge_minutes train_speed_kmph line_change_penalty_minutes
                lat1 lon1 lat2 lon2 lines1 lines2 = Raise ValueError /\
   haversine_distance lat1 lon1 lat2 lon2 = Raise ValueError).
Proof.
  unfold edge_minutes.
  destruct (haversine_distance_outcome HF lat1 lon1 lat2 lon2 Htwo)
    as [(d & ->)| ->]; cbn [bind]; [|now right; right].
  unfold py_div. destruct (weqb train_speed_kmph w0); cbn [bind].
  - right. left. auto.
  - left. destruct (negb (truthy _)); eauto.
Qed.

(** The relations of one station: the pass succeeds and keeps the
    nodes, or it divides by a speed of zero, or the distance of a pair
    raises. *)
Lemma add_relations_outcome name rels :
  dict_mem stations_data name = true ->
  forall g,
    has_stations g ->
    (exists g',
        add_relations stations_data train_speed_kmph
                      line_change_penalty_minutes station_details
                      name rels g = Ok g' /\ has_stations g') \/
    (add_relations stations_data train_speed_kmph
                   line_change_penalty_minutes station_details
                   name rels g = Raise ZeroDivisionError /\
     weqb train_speed_kmph w0 = true) \/
    (add_relations stations_data train_speed_kmph
                   line_change_penalty_minutes station_details
                   name rels g = Raise ValueError /\
     haversine_raises).
Proof.
  intros Hname. induction rels as [|rel rels IH]; intros g Hg.
  - left. exists g. split; [reflexivity | exact Hg].
  - cbn [add_relations].
    destruct (dict_mem stations_data rel) eqn:Hrel; [|now apply IH].
    destruct (lookup_mem _ _ (Hdetails _ Hname)) as (d1 & Hd1).
    destruct (lookup_mem _ _ (Hdetails _ Hrel)) as (d2 & Hd2).
    rewrite Hd1, Hd2. cbn [bind].
    destruct (detail_latitude d1) as [lat1|] eqn:E1; [|now apply IH].
    destruct (detail_longitude d1) as [lon1|] eqn:E2; [|now apply IH].
    destruct (detail_latitude d2) as [lat2|] eqn:E3; [|now apply IH].
    destruct (detail_longitude d2) as [lon2|] eqn:E4; [|now apply IH].
    destruct (edge_minutes_outcome lat1 lon1 lat2 lon2
                                   (detail_lines d1) (detail_lines d2))
      as [(t' & -> & _)|[[-> Hz]|[-> Hv]]]; cbn [bind].
    + destruct (@set_edge_mem_Ok g name rel t' (Hg _ Hname))
        as (g1 & -> & K1).
      cbn [bind].
      assert (Hrel1 : dict_mem g1 rel = true)
        by (rewrite K1; now apply Hg).
      destruct (@set_edge_mem_Ok g1 rel name t' Hrel1) as (g2 & -> & K2).
      cbn [bind]. apply IH. intros x Hx. rewrite K2, K1. now apply Hg.
    + right. left. auto.
    + right. right. split; [reflexivity|].
      exists name, rel, lat1, lon1, lat2, lon2,
             (detail_lines d1), (detail_lines d2).
      split; [|exact Hv]. exists d1, d2.
      unfold lookup in Hd1, Hd2.
      destruct (dict_get station_details name); [|discriminate].
      destruct (dict_get station_details rel); [|discriminate].
      injection Hd1 as ->. injection Hd2 as ->.
      repeat split; assumption.
Qed.

Lemma add_edges_outcome items :
  (forall x, In x items -> dict_mem stations_data (fst x) = true) ->
  forall g,
    has_stations g ->
    (exists g',
        add_edges stations_data train_speed_kmph
                  line_change_penalty_minutes station_details items g
        = Ok g') \/
    (add_edges stations_data train_speed_kmph
               line_change_penalty_minutes station_details items g
     = Raise ZeroDivisionError /\
     weqb train_speed_kmph w0 = true) \/
    (add_edges stations_data train_speed_kmph
               line_change_penalty_minutes station_details items g
     = Raise ValueError /\
     haversine_raises).
Proof.
  induction items as [|[name data] items IH]; intros Hsub g Hg.
  - left. exists g. reflexivity.
  - assert (Hsub' : forall x, In x items ->
                              dict_mem stations_data (fst x) = true)
      by (intros x Hx; apply Hsub; now right).
    assert (Hname : dict_mem stations_data name = true)
      by exact (Hsub (name, data) (or_introl eq_refl)).
    cbn [add_edges].
    destruct (lookup_mem _ _ (Hdetails _ Hname)) as (d & ->). cbn [bind].
    destruct (detail_latitude d); [|now apply IH].
    destruct (detail_longitude d); [|now apply IH].
    destruct (@add_relations_outcome name (get_list (relations data))
                                     Hname g Hg)
      as [(g1 & -> & Hg1)|[[-> Hz]|[-> Hv]]].
    + cbn [bind]. now apply IH.
    + right. left. split; [reflexivity | exact Hz].
    + right. right. split; [reflexivity | exact Hv].
Qed.

End BuildFailures.

(** The outcomes of a build: a graph, the error of a coordinate that
    [float] does not convert, a division by a speed of zero, or the
    [ValueError] of the distance between two stations. *)
Lemma build_outcome (W : Type) (HW : Weight W) (HF : Floating W)
      (stations_data : dict (station_record W))
      (train_speed_kmph line_change_penalty_minutes : W) :
  weqb (of_Z 2) w0 = false ->
  (exists g station_details,
      build_metro_graph stations_data train_speed_kmph
                        line_change_penalty_minutes
      = Ok (g, station_details)) \/
  (exists e name data v,
      build_metro_graph stations_data train_speed_kmph
                        line_change_penalty_minutes
      = Raise e /\
      In (name, data) stations_data /\
      (latitude data = Some v \/ longitude data = Some v) /\
      py_float v = Raise e) \/
  (build_metro_graph stations_data train_speed_kmph
                     line_change_penalty_minutes
   = Raise ZeroDivisionError /\
   weqb train_speed_kmph w0 = true) \/
  (build_metro_graph stations_data train_speed_kmph
                     line_change_penalty_minutes
   = Raise ValueError /\
   exists g0 station_details a b lat1 lon1 lat2 lon2 lines1 lines2,
     add_nodes stations_data [] [] = Ok (g0, station_details) /\
     both_located station_details a b lat1 lon1 lat2 lon2 lines1 lines2 /\
     haversine_distance lat1 lon1 lat2 lon2 = Raise ValueError).
Proof.
  intros Htwo. unfold build_metro_graph.
  destruct (add_nodes stations_data [] []) as [[g0 d0]|e] eqn:Hn.
  - cbn [bind].
    destruct (add_nodes_spec _ _ _ Hn) as (N1 & N2 & N3 & _).
    assert (Hd : forall x, dict_mem stations_data x = true ->
                           dict_mem d0 x = true).
    { intros x Hx. apply dict_mem_keys in Hx.
      destruct (N3 x Hx) as (data & lat & lon & _ & _ & _ & Hget).
      unfold dict_mem. now rewrite Hget. }
    assert (Hg : forall x, dict_mem stations_data x = true ->
                           dict_mem g0 x = true).
    { intros x Hx. unfold dict_mem at 1. rewrite N1.
      rewrite <- dict_mem_str_in, Hx. reflexivity. }
    assert (Hsub : forall x, In x stations_data ->
                             dict_mem stations_data (fst x) = true).
    { intros [k v] Hx. simpl. now apply (In_dict_mem _ _ v). }
    destruct (@add_edges_outcome W HW HF stations_data train_speed_kmph
                line_change_penalty_minutes d0 Htwo Hd stations_data Hsub
                g0 Hg)
      as [(g' & ->)|[[-> Hz]|[-> Hv]]].
    + left. exists g', d0. reflexivity.
    + right. right. left. split; [reflexivity | exact Hz].
    + right. right. right. split; [reflexivity|].
      destruct Hv as (a & b & la1 & lo1 & la2 & lo2 & l1 & l2 & Hloc & Hv).
      exists g0, d0, a, b, la1, lo1, la2, lo2, l1, l2. auto.
  - right. left. cbn [bind].
    apply add_nodes_Raise in Hn.
    destruct Hn as (name & data & v & H1 & H2 & H3).
    exists e, name, data, v. auto.
Qed.

(** The weight of an edge was computed: the speed is not zero. *)
Lemma edge_minutes_speed (W : Type) (HW : Weight W) (HF : Floating W)
      (train_speed_kmph line_change_penalty_minutes : W)
      (lat1 lon1 lat2 lon2 : W) (lines1 lines2 : list string) (t : W) :
  edge_minutes train_speed_kmph line_change_penalty_minutes
               lat1 lon1 lat2 lon2 lines1 lines2 = Ok t ->
  weqb train_speed_kmph w0 = false.
Proof.
  unfold edge_minutes.
  destruct (haversine_distance lat1 lon1 lat2 lon2); [|discriminate].
  cbn [bind]. unfold py_div.
  destruct (weqb train_speed_kmph w0); [discriminate | reflexivity].
Qed.

(** X17.  A build fails in three ways only, whatever the numbers are, as
    long as the literal 2 is not equal to zero: with the error of a
    coordinate that is present and that [float] does not convert; with
    [ZeroDivisionError], and then the speed equals zero; or with the
    [ValueError] of [haversine_distance] on the coordinates of two
    stations, after a first pass that succeeded.  It raises no
    [KeyError]. *)
Theorem build_metro_graph_failures
        (W : Type) (HW : Weight W) (HF : Floating W)
        (stations_data : dict (station_record W))
        (train_speed_kmph line_change_penalty_minutes : W) (e : exn) :
  weqb (of_Z 2) w0 = false ->
  build_metro_graph stations_data train_speed_kmph
                    line_change_penalty_minutes
  = Raise e ->
  (exists name data v,
      In (name, data) stations_data /\
      (latitude data = Some v \/ longitude data = Some v) /\
      py_float v = Raise e) \/
  (e = ZeroDivisionError /\ weqb train_speed_kmph w0 = true) \/
  (e = ValueError /\
   exists g0 station_details a b lat1 lon1 lat2 lon2 lines1 lines2,
     add_nodes stations_data [] [] = Ok (g0, station_details) /\
     both_located station_details a b lat1 lon1 lat2 lon2 lines1 lines2 /\
     haversine_distance lat1 lon1 lat2 lon2 = Raise ValueError).
Proof.
  intros Htwo Hr.
  destruct (build_outcome HF stations_data train_speed_kmph
                          line_change_penalty_minutes Htwo)
    as [(g & d & H)|[(e' & name & data & v & H & H1 & H2 & H3)|
                     [[H Hz]|[H Hv]]]].
  - congruence.
  - left. exists name, data, v. split; [exact H1|]. split; [exact H2|].
    congruence.
  - right. left. split; [congruence | exact Hz].
  - right. right. split; [congruence | exact Hv].
Qed.

Lemma build_metro_graph_failures_witness :
  (exists name data v,
      In (name, data) null_station /\
      (latitude data = Some v \/ longitude data = Some v) /\
      @py_float R Weight_R (Floating_R no_parse) v = Raise TypeError) \/
  (TypeError = ZeroDivisionError /\ weqb 40%R w0 = true) \/
  (TypeError = ValueError /\
   exists g0 station_details a b lat1 lon1 lat2 lon2 lines1 lines2,
     @add_nodes R Weight_R (Floating_R no_parse) null_station [] []
     = Ok (g0, station_details) /\
     both_located station_details a b lat1 lon1 lat2 lon2 lines1 lines2 /\
     @haversine_distance R Weight_R (Floating_R no_parse)
                         lat1 lon1 lat2 lon2 = Raise ValueError).
Proof.
  apply (@build_metro_graph_failures R Weight_R (Floating_R no_parse)
           null_station 40%R 4%R TypeError).
  - exact Reqb_2.
  - reflexivity.
Defined.

(** X18.  With a speed equal to zero the build fails as soon as one
    station with coordinates lists a station with coordinates, when
    every coordinate of the input converts: with [ZeroDivisionError],
    or with the [ValueError] of [haversine_distance] on the coordinates
    of two stations, which is computed before the division. *)
Theorem zero_speed_fails_build
        (W : Type) (HW : Weight W) (HF : Floating W)
        (stations_data : dict (station_record W))
        (train_speed_kmph line_change_penalty_minutes : W)
        (name rel : string) (data data' : station_record W) :
  weqb (of_Z 2) w0 = false ->
  weqb train_speed_kmph w0 = true ->
  dict_wf stations_data = true ->
  (forall n d v,
      In (n, d) stations_data ->
      latitude d = Some v \/ longitude d = Some v ->
      exists x, py_float v = Ok x) ->
  dict_get stations_data name = Some data ->
  In rel (get_list (relations data)) ->
  dict_get stations_data rel = Some data' ->
  latitude data <> None -> longitude data <> None ->
  latitude data' <> None -> longitude data' <> None ->
  build_metro_graph stations_data train_speed_kmph
                    line_change_penalty_minutes
  = Raise ZeroDivisionError \/
  (build_metro_graph stations_data train_speed_kmph
                     line_change_penalty_minutes
   = Raise ValueError /\
   exists g0 station_details a b lat1 lon1 lat2 lon2 lines1 lines2,
     add_nodes stations_data [] [] = Ok (g0, station_details) /\
     both_located station_details a b lat1 lon1 lat2 lon2 lines1 lines2 /\
     haversine_distance lat1 lon1 lat2 lon2 = Raise ValueError).
Proof.
  intros Htwo Hzero Hwf Hconv Hname Hrel Hrel' La Lo La' Lo'.
  destruct (build_outcome HF stations_data train_speed_kmph
                          line_change_penalty_minutes Htwo)
    as [(g & d & Hb)|[(e' & n & dt & v & H & H1 & H2 & H3)|[[H _]|H]]].
  - exfalso.
    assert (Hsome : forall (f : option (json W)) (c : option W),
               f <> None -> coordinate f = Ok c -> exists x, c = Some x).
    { intros [v|] c Hf; [|congruence]. simpl.
      destruct (py_float v); [|discriminate].
      intros [= <-]. eauto. }
    destruct (build_detail _ _ _ name Hb Hwf Hname)
      as (lat1 & lon1 & C1 & C2 & D1).
    destruct (build_detail _ _ _ rel Hb Hwf Hrel')
      as (lat2 & lon2 & C3 & C4 & D2).
    destruct (Hsome _ _ La C1) as (x1 & ->).
    destruct (Hsome _ _ Lo C2) as (y1 & ->).
    destruct (Hsome _ _ La' C3) as (x2 & ->).
    destruct (Hsome _ _ Lo' C4) as (y2 & ->).
    assert (Hloc : located_pair d name rel).
    { eexists _, _, x1, y1, x2, y2.
      split; [exact D1|]. split; [exact D2|]. repeat split; reflexivity. }
    assert (Hw : edge_weight g name rel <> None).
    { eapply build_complete;
        [exact Hb | exact (dict_get_In _ _ Hname) | exact Hrel | | exact Hloc].
      unfold dict_mem. now rewrite Hrel'. }
    destruct (edge_weight g name rel) as [w|] eqn:E; [|congruence].
    destruct (build_spec _ _ _ Hb) as (Hinv & _).
    destruct (bi_just Hinv _ _ E)
      as (a1 & b1 & a2 & b2 & l1 & l2 & _ & [Hmin|Hmin]);
      apply edge_minutes_speed in Hmin; congruence.
  - exfalso. destruct (Hconv n dt v H1 H2) as (x & Hx). congruence.
  - left. exact H.
  - right. exact H.
Qed.

Lemma zero_speed_fails_build_witness :
  build_R two_stations 0 4 = Raise ZeroDivisionError \/
  (build_R two_stations 0 4 = Raise ValueError /\
   exists g0 station_details a b lat1 lon1 lat2 lon2 lines1 lines2,
     @add_nodes R Weight_R (Floating_R no_parse) two_stations [] []
     = Ok (g0, station_details) /\
     both_located station_details a b lat1 lon1 lat2 lon2 lines1 lines2 /\
     @haversine_distance R Weight_R (Floating_R no_parse)
                         lat1 lon1 lat2 lon2 = Raise ValueError).
Proof.
  apply (@zero_speed_fails_build R Weight_R (Floating_R no_parse)
           two_stations 0%R 4%R "A" "B"
           (mkRecord (Some (JNumber 35%R)) (Some (JNumber 51%R))
                     (Some ["1"]) (Some ["B"]))
           (mkRecord (Some (JNumber 36%R)) (Some (JNumber 51%R))
                     (Some ["2"]) (Some ["A"; "C"]))).
  - exact Reqb_2.
  - exact (Reqb_refl 0).
  - reflexivity.
  - intros n d v [[= <- <-]|[[= <- <-]|[[= <- <-]|[]]]] [[= <-]|[= <-]];
      eexists; reflexivity.
  - reflexivity.
  - left. reflexivity.
  - reflexivity.
  - discriminate.
  - discriminate.
  - discriminate.
  - discriminate.
Defined.

(* ================================================================== *)
(** ** The command line *)

Lemma insert_sorted_perm x l : Permutation (insert_sorted x l) (x :: l).
Proof.
  induction l as [|y l IH]; simpl; [reflexivity|].
  destruct (String.leb x y); [reflexivity|].
  eapply perm_trans; [apply perm_skip, IH | apply perm_swap].
Qed.

Lemma sorted_perm l : Permutation (sorted l) l.
Proof.
  induction l as [|x l IH]; simpl; [reflexivity|].
  eapply perm_trans; [apply insert_sorted_perm | apply perm_skip, IH].
Qed.

Lemma insert_sorted_Sorted x l :
  Sorted str_le l -> Sorted str_le (insert_sorted x l).
Proof.
  induction l as [|y l IH]; simpl; intros HS.
  - repeat constructor.
  - inversion HS as [|? ? HS' Hhd]; subst.
    destruct (String.leb x y) eqn:E.
    + constructor; [exact HS|]. constructor. exact E.
    + assert (Hyx : str_le y x).
      { destruct (String.leb_total x y) as [H|H]; [congruence | exact H]. }
      constructor; [now apply IH|].
      destruct l as [|z l]; simpl; [now constructor|].
      destruct (String.leb x z); constructor; [exact Hyx|].
      now inversion Hhd.
Qed.

Lemma sorted_Sorted l : Sorted str_le (sorted l).
Proof.
  induction l as [|x l IH]; simpl; [constructor|].
  now apply insert_sorted_Sorted.
Qed.

Lemma str_in_sorted x l : str_in x (sorted l) = str_in x l.
Proof.
  destruct (str_in x l) eqn:E.
  - apply str_in_In. apply str_in_In in E.
    exact (Permutation_in _ (Permutation_sym (sorted_perm l)) E).
  - apply str_in_not_In. apply str_in_not_In in E. intros Hin. apply E.
    exact (Permutation_in _ (sorted_perm l) Hin).
Qed.

Lemma station_lines_plain (W : Type) (names : list string) :
  forall i, forallb plain_line (@station_lines W i names) = true.
Proof.
  induction names as [|n names IH]; intros i; simpl; [reflexivity|].
  apply IH.
Qed.

Lemma filter_nil_false {A : Type} (f : A -> bool) (l : list A) x :
  filter f l = [] -> In x l -> f x = false.
Proof.
  intros Hnil Hin. destruct (f x) eqn:E; [|reflexivity].
  assert (H : In x (filter f l)) by (apply filter_In; auto).
  rewrite Hnil in H. destruct H.
Qed.

(** The names handed to the search as disabled are stations. *)
Lemma valid_disabled_valid available names x :
  In x (valid_disabled available names) -> str_in x available = true.
Proof.
  unfold valid_disabled.
  destruct (invalid_disabled available names) as [|y l] eqn:E; simpl.
  - intros Hin. apply (filter_nil_false _ _ x E) in Hin.
    now apply negb_false_iff in Hin.
  - intros Hin. apply filter_In in Hin. tauto.
Qed.

Section MainFacts.
Context {W : Type} {HW : Weight W}.
Variable good : W -> bool.
Hypothesis HG : LawsOn good.
Variable strip lower : string -> string.
Variable g : graph W.
Variable available : list string.
Hypothesis Hwf : graph_wf g = true.
Hypothesis Hclosed : graph_closed g = true.
Hypothesis Hnonneg : graph_nonneg g = true.
Hypothesis Hgood : graph_good good g = true.
Hypothesis Havailable :
  forall x, str_in x available = true -> dict_mem g x = true.
Variable all_inputs : list string.

Abbreviation ok := (reports_ok strip g available all_inputs).

Lemma reports_ok_app a b : ok a -> ok b -> ok (a ++ b).
Proof.
  intros (A1 & A2 & A3) (B1 & B2 & B3). split; [|split].
  - intros x Hx. apply in_app_or in Hx. destruct Hx; auto.
  - intros path Hp. apply in_app_or in Hp. destruct Hp as [Hp|Hp].
    + destruct (A2 _ Hp) as (s & e & dis & d & T & (pre & post & E) & P).
      exists s, e, dis, d. split; [exact T|]. split; [|exact P].
      exists pre, (post ++ b). rewrite E, <- app_assoc. reflexivity.
    + destruct (B2 _ Hp) as (s & e & dis & d & T & (pre & post & E) & P).
      exists s, e, dis, d. split; [exact T|]. split; [|exact P].
      exists (a ++ pre), post. rewrite E, app_assoc. reflexivity.
  - intros Hn. apply in_app_or in Hn. destruct Hn; auto.
Qed.

Lemma reports_ok_plain out : forallb plain_line out = true -> ok out.
Proof.
  intros Hp. rewrite forallb_forall in Hp. split; [|split].
  - intros x Hx. apply Hp in Hx. destruct x; simpl in Hx; congruence.
  - intros path Hx. apply Hp in Hx. discriminate.
  - intros Hx. apply Hp in Hx. discriminate.
Qed.

Lemma disabled_warning_plain names :
  forallb plain_line (@disabled_warning W available names) = true.
Proof.
  unfold disabled_warning. destruct (truthy _); reflexivity.
Qed.

Lemma asked_ok names last :
  forallb plain_line last = true ->
  ok (([PromptStart; PromptEnd; PromptDisabled]
         ++ disabled_warning available names) ++ last).
Proof.
  intros Hl. apply reports_ok_plain.
  rewrite !forallb_app, disabled_warning_plain, Hl. reflexivity.
Qed.

(** One round: the search answers, the lines are right, and a round
    that ends in [continue] has read a line. *)
Lemma query_spec pre inputs :
  all_inputs = pre ++ inputs ->
  exists out inputs' b,
    query strip g available inputs = Some (out, inputs', b) /\
    (exists used, inputs = used ++ inputs' /\
                  (b = true -> used <> [])) /\
    ok out.
Proof.
  intros Hall. unfold query.
  destruct inputs as [|line1 inputs1].
  { do 3 eexists. split; [reflexivity|]. split.
    - exists []. split; [reflexivity | discriminate].
    - now apply reports_ok_plain. }
  destruct (str_in (strip line1) available) eqn:Hs; cbn [negb].
  2:{ do 3 eexists. split; [reflexivity|]. split.
      - exists [line1]. split; [reflexivity | discriminate].
      - now apply reports_ok_plain. }
  destruct inputs1 as [|line2 inputs2].
  { do 3 eexists. split; [reflexivity|]. split.
    - exists [line1]. split; [reflexivity | discriminate].
    - now apply reports_ok_plain. }
  destruct (str_in (strip line2) available) eqn:He; cbn [negb].
  2:{ do 3 eexists. split; [reflexivity|]. split.
      - exists [line1; line2]. split; [reflexivity | discriminate].
      - now apply reports_ok_plain. }
  destruct inputs2 as [|line3 inputs3].
  { do 3 eexists. split; [reflexivity|]. split.
    - exists [line1; line2]. split; [reflexivity | discriminate].
    - now apply reports_ok_plain. }
  assert (Hused' : forall b : bool,
             exists used,
               line1 :: line2 :: line3 :: inputs3 = used ++ inputs3 /\
               (b = true -> used <> [])).
  { intros b. exists [line1; line2; line3].
    split; [reflexivity | discriminate]. }
  set (names := disabled_names strip line3).
  set (dis := valid_disabled available names).
  destruct (str_in (strip line1) dis) eqn:Hsd.
  { do 3 eexists. split; [reflexivity|]. split; [apply Hused'|].
    now apply asked_ok. }
  destruct (str_in (strip line2) dis) eqn:Hed.
  { do 3 eexists. split; [reflexivity|]. split; [apply Hused'|].
    now apply asked_ok. }
  assert (HT : typed_query strip available all_inputs
                           (strip line1) (strip line2) dis).
  { split; [|split; [exact Hs|split; [exact He|split; [|split]]]].
    - exists pre, line1, line2, line3, inputs3. auto.
    - intros x. apply valid_disabled_valid.
    - exact Hsd.
    - exact Hed. }
  destruct (@dijkstra_result_on W HW good HG g Hwf Hclosed Hnonneg Hgood
                                (strip line1) (strip line2) dis
                                (Havailable _ Hs))
    as (r & -> & Hr).
  destruct r as [t path|].
  - destruct Hr as (d & -> & Hpath & Hfin & Hmin).
    do 3 eexists. split; [reflexivity|]. split; [apply Hused'|].
    split; [|split].
    + intros x Hx. apply in_app_or in Hx. destruct Hx as [Hx|Hx].
      * pose proof (asked_ok names [] eq_refl) as (A1 & _).
        apply A1. rewrite app_nil_r. exact Hx.
      * destruct Hx as [Hx|[Hx|[Hx|[]]]]; discriminate.
    + intros p Hp. apply in_app_or in Hp. destruct Hp as [Hp|Hp].
      * exfalso.
        assert (Hplain : forallb plain_line
                           ([PromptStart; PromptEnd; PromptDisabled]
                              ++ @disabled_warning W available names)
                         = true)
          by (rewrite forallb_app, disabled_warning_plain; reflexivity).
        rewrite forallb_forall in Hplain. apply Hplain in Hp.
        discriminate.
      * destruct Hp as [Hp|[Hp|[Hp|[]]]]; try discriminate.
        injection Hp as <-.
        exists (strip line1), (strip line2), dis, d.
        split; [exact HT|].
        split; [|split; [exact Hpath | split; [exact Hfin | exact Hmin]]].
        exists (([PromptStart; PromptEnd; PromptDisabled]
                   ++ disabled_warning available names) ++ [RouteHeader]),
               [].
        rewrite <- !app_assoc. reflexivity.
    + intros Hn. exfalso. apply in_app_or in Hn. destruct Hn as [Hn|Hn].
      * assert (Hplain : forallb plain_line
                           ([PromptStart; PromptEnd; PromptDisabled]
                              ++ @disabled_warning W available names)
                         = true)
          by (rewrite forallb_app, disabled_warning_plain; reflexivity).
        rewrite forallb_forall in Hplain. apply Hplain in Hn.
        discriminate.
      * destruct Hn as [Hn|[Hn|[Hn|[]]]]; discriminate.
  - do 3 eexists. split; [reflexivity|]. split; [apply Hused'|].
    assert (Hplain : forallb plain_line
                       ([PromptStart; PromptEnd; PromptDisabled]
                          ++ @disabled_warning W available names)
                     = true)
      by (rewrite forallb_app, disabled_warning_plain; reflexivity).
    rewrite forallb_forall in Hplain.
    split; [|split].
    + intros x Hx. apply in_app_or in Hx. destruct Hx as [Hx|Hx].
      * apply Hplain in Hx. destruct x; simpl in Hx; congruence.
      * destruct Hx as [Hx|[]]; discriminate.
    + intros p Hp. apply in_app_or in Hp. destruct Hp as [Hp|Hp].
      * apply Hplain in Hp. discriminate.
      * destruct Hp as [Hp|[]]; discriminate.
    + intros _. exists (strip line1), (strip line2), dis.
      split; [exact HT | exact Hr].
Qed.

(** The rounds: with more rounds than lines left the loop ends, by a
    return or at the end of the input, after the question whether to
    go on, and its lines are right. *)
Lemma query_loop_spec :
  forall fuel pre inputs,
    all_inputs = pre ++ inputs -> List.length inputs < fuel ->
    exists outs ending,
      query_loop strip lower g available fuel inputs
      = Some (outs, ending) /\
      ok outs /\
      (ending = Returned \/ ending = Uncaught EOFError) /\
      exists outs', outs = outs' ++ [PromptAgain].
Proof.
  induction fuel as [|fuel IH]; intros pre inputs Hall Hlen; [lia|].
  cbn [query_loop].
  destruct (query_spec pre inputs Hall)
    as (out & inputs' & b & -> & (used & Hused & Hne) & Hout).
  assert (Hlen' : List.length inputs
                  = List.length used + List.length inputs')
    by (rewrite Hused; apply length_app).
  destruct b.
  - destruct (IH (pre ++ used) inputs')
      as (outs & ending & -> & Ho & He & (outs' & Hlast)).
    + rewrite <- app_assoc, <- Hused. exact Hall.
    + destruct used as [|u used]; [now destruct Hne|]. simpl in Hlen'. lia.
    + exists (out ++ outs), ending. split; [reflexivity|].
      split; [now apply reports_ok_app|]. split; [exact He|].
      exists (out ++ outs'). rewrite Hlast. apply app_assoc.
  - assert (Hagain : ok (out ++ [PromptAgain]))
      by (apply reports_ok_app; [exact Hout | now apply reports_ok_plain]).
    destruct inputs' as [|line inputs''].
    + do 2 eexists. split; [reflexivity|]. split; [exact Hagain|].
      split; [auto | now exists out].
    + destruct (negb (String.eqb (lower (strip line)) "yes")).
      * do 2 eexists. split; [reflexivity|]. split; [exact Hagain|].
        split; [auto | now exists out].
      * destruct (IH (pre ++ used ++ [line]) inputs'')
          as (outs & ending & -> & Ho & He & (outs' & Hlast)).
        -- rewrite <- !app_assoc. simpl. rewrite <- Hused. exact Hall.
        -- simpl in Hlen'. lia.
        -- exists ((out ++ [PromptAgain]) ++ outs), ending.
           split; [reflexivity|].
           split; [now apply reports_ok_app|]. split; [exact He|].
           exists ((out ++ [PromptAgain]) ++ outs'). rewrite Hlast.
           apply app_assoc.
Qed.

End MainFacts.

(** The first pass keeps the keys of the details apart. *)
Lemma add_nodes_details_wf (W : Type) (HW : Weight W) (HF : Floating W)
      (items : list (string * station_record W)) :
  forall g0 d0 g d,
    add_nodes items g0 d0 = Ok (g, d) ->
    dict_wf d0 = true -> dict_wf d = true.
Proof.
  induction items as [|[name data] items IH]; intros g0 d0 g d Hb Hwf.
  - now injection Hb as <- <-.
  - cbn [add_nodes] in Hb.
    apply bind_Ok in Hb. destruct Hb as (lat & _ & Hb).
    apply bind_Ok in Hb. destruct Hb as (lon & _ & Hb).
    apply (IH _ _ _ _ Hb). now apply dict_wf_set.
Qed.

(** The details of a successful build: one entry per station, none
    twice. *)
Lemma build_details_keys (W : Type) (HW : Weight W) (HF : Floating W)
      (stations_data : dict (station_record W))
      (train_speed_kmph line_change_penalty_minutes : W)
      (g : graph W) (station_details : dict (station_detail W)) :
  build_metro_graph stations_data train_speed_kmph
                    line_change_penalty_minutes = Ok (g, station_details) ->
  (forall x, dict_mem station_details x = dict_mem stations_data x) /\
  dict_wf station_details = true.
Proof.
  intros Hb. destruct (build_spec _ _ _ Hb) as (_ & g0 & Hn & _).
  destruct (add_nodes_spec _ _ _ Hn) as (_ & N2 & N3 & _). split.
  - intros x. rewrite (dict_mem_str_in stations_data).
    destruct (str_in x (dict_keys stations_data)) eqn:E.
    + apply str_in_In in E.
      destruct (N3 x E) as (data & lat & lon & _ & _ & _ & Hd).
      unfold dict_mem. now rewrite Hd.
    + apply str_in_not_In in E. unfold dict_mem. now rewrite (N2 x E).
  - eapply add_nodes_details_wf; [exact Hn | reflexivity].
Qed.

(** The loop of [main] ends by a return or at the end of the input,
    and in both cases after the question whether to go on. *)
Lemma query_loop_ending (W : Type) (HW : Weight W)
      (strip lower : string -> string) (g : graph W)
      (available : list string) :
  forall fuel inputs outs e,
    query_loop strip lower g available fuel inputs = Some (outs, e) ->
    (e = Returned \/ e = Uncaught EOFError) /\
    exists outs', outs = outs' ++ [PromptAgain].
Proof.
  induction fuel as [|fuel IH]; intros inputs outs e Hq; [discriminate|].
  cbn [query_loop] in Hq.
  destruct (query strip g available inputs) as [[[out inputs'] b]|];
    [|discriminate].
  destruct b.
  - destruct (query_loop strip lower g available fuel inputs')
      as [[o e']|] eqn:E; [|discriminate].
    cbn [and_then] in Hq. injection Hq as <- <-.
    destruct (IH _ _ _ E) as (He & outs' & ->). split; [exact He|].
    exists (out ++ outs'). apply app_assoc.
  - destruct inputs' as [|line inputs''].
    + injection Hq as <- <-. split; [auto | now exists out].
    + destruct (negb (String.eqb (lower (strip line)) "yes")).
      * injection Hq as <- <-. split; [auto | now exists out].
      * destruct (query_loop strip lower g available fuel inputs'')
          as [[o e']|] eqn:E; [|discriminate].
        cbn [and_then] in Hq. injection Hq as <- <-.
        destruct (IH _ _ _ E) as (He & outs' & ->). split; [exact He|].
        exists ((out ++ [PromptAgain]) ++ outs'). apply app_assoc.
Qed.

Lemma header_plain (W : Type) (names : list string) :
  forallb plain_line
          ([DataLoaded; GraphBuilt; StationsHeader]
             ++ @station_lines W 0 names) = true.
Proof. rewrite forallb_app, station_lines_plain. reflexivity. Qed.

Section MainRun.
Context {W : Type} {HW : Weight W} {HF : Floating W}.
Variable good : W -> bool.
Hypothesis HG : LawsOn good.
Variable strip lower : string -> string.
Variable stations_data : dict (station_record W).
Variable g : graph W.
Variable station_details : dict (station_detail W).
Hypothesis Hbuild :
  build_metro_graph stations_data (of_Z 40) (of_Z 4)
  = Ok (g, station_details).
Hypothesis Hnonneg : graph_nonneg g = true.
Hypothesis Hgood : graph_good good g = true.

(** The names [main] accepts are stations of the graph. *)
Lemma main_names :
  forall x, str_in x (sorted (dict_keys station_details)) = true ->
            dict_mem g x = true.
Proof.
  intros x Hx. rewrite str_in_sorted, <- dict_mem_str_in in Hx.
  pose proof Hbuild as Hk. apply build_details_keys in Hk.
  destruct Hk as [Hk _].
  destruct (build_spec _ _ _ Hbuild) as (Hinv & _).
  now rewrite (bi_keys Hinv), <- Hk.
Qed.

(** A run of [main] on a file that loads and builds. *)
Lemma main_run inputs :
  exists outs ending,
    main strip lower (Loaded stations_data) inputs
    = Some ((([DataLoaded; GraphBuilt; StationsHeader]
                ++ station_lines 0 (sorted (dict_keys station_details)))
               ++ outs), ending) /\
    reports_ok strip g (sorted (dict_keys station_details)) inputs outs /\
    (ending = Returned \/ ending = Uncaught EOFError) /\
    exists outs', outs = outs' ++ [PromptAgain].
Proof.
  destruct (build_graph_shape _ _ _ Hbuild) as [Hwf Hclosed].
  destruct (@query_loop_spec W HW good HG strip lower g
              (sorted (dict_keys station_details)) Hwf Hclosed Hnonneg
              Hgood main_names inputs (S (List.length inputs)) [] inputs
              eq_refl (Nat.lt_succ_diag_r _))
    as (outs & ending & Hloop & Hok & Hend & Hlast).
  exists outs, ending. split; [|auto].
  unfold main. rewrite Hbuild. cbn [and_then]. rewrite Hloop. reflexivity.
Qed.

(** All the lines of such a run are right about the graph. *)
Lemma main_reports inputs outs ending :
  main strip lower (Loaded stations_data) inputs = Some (outs, ending) ->
  reports_ok strip g (sorted (dict_keys station_details)) inputs outs.
Proof.
  intros Hm.
  destruct (main_run inputs) as (outs0 & ending0 & Hm0 & Hok & _).
  assert (Hall : reports_ok strip g (sorted (dict_keys station_details))
                   inputs
                   (([DataLoaded; GraphBuilt; StationsHeader]
                       ++ station_lines 0
                            (sorted (dict_keys station_details)))
                      ++ outs0)).
  { apply reports_ok_app; [|exact Hok].
    apply reports_ok_plain, header_plain. }
  rewrite Hm0 in Hm. injection Hm as <- <-. exact Hall.
Qed.

End MainRun.

(** On the reals the graph [main] builds holds no negative weight. *)
Lemma main_nonneg_R (parse : string -> option R)
      (stations_data : dict (station_record R))
      (g : graph R) (station_details : dict (station_detail R)) :
  @build_metro_graph R Weight_R (Floating_R parse) stations_data
                     (@of_Z R Weight_R (Floating_R parse) 40)
                     (@of_Z R Weight_R (Floating_R parse) 4)
  = Ok (g, station_details) ->
  graph_nonneg g = true.
Proof.
  intros Hbuild.
  apply (@built_graph_nonneg parse stations_data _ _ g station_details
                             Hbuild); simpl; lra.
Qed.

(** X19.  [main] comes to an end on every file and every input, and no
    line it writes reports an exception of the search: the names are
    checked against the stations before the search is called.  The only
    exception the handler of the loop ever reports is the end of the
    input. *)
Theorem main_reports_no_search_error
        (parse : string -> option R) (strip lower : string -> string)
        (load : load_result R) (inputs : list string) :
  exists outs ending,
    @main R Weight_R (Floating_R parse) strip lower load inputs
    = Some (outs, ending) /\
    forall x, In (ErrorOccurred x) outs -> x = EOFError.
Proof.
  destruct load as [stations_data| | | |].
  - destruct (@build_metro_graph R Weight_R (Floating_R parse) stations_data
                (@of_Z R Weight_R (Floating_R parse) 40)
                (@of_Z R Weight_R (Floating_R parse) 4))
      as [[g d]|e] eqn:Hb.
    + pose proof (main_nonneg_R parse stations_data Hb) as Hnn.
      destruct (@main_run R Weight_R (Floating_R parse) (fun _ => true)
                  (LawsOn_all WeightLaws_R) strip lower stations_data g d
                  Hb Hnn (graph_good_all g) inputs)
        as (outs & ending & Hm & _).
      do 2 eexists. split; [exact Hm|].
      exact (proj1 (@main_reports R Weight_R (Floating_R parse)
                      (fun _ => true) (LawsOn_all WeightLaws_R) strip lower
                      stations_data g d Hb Hnn (graph_good_all g) inputs
                      _ _ Hm)).
    + unfold main. rewrite Hb. do 2 eexists. split; [reflexivity|].
      intros x [Hx|[]]. discriminate.
  - do 2 eexists. split; [reflexivity|]. intros x [Hx|[]]. discriminate.
  - do 2 eexists. split; [reflexivity|]. intros x [Hx|[]]. discriminate.
  - do 2 eexists. split; [reflexivity|]. intros x [Hx|[]]. discriminate.
  - do 2 eexists. split; [reflexivity|]. intros x [].
Qed.

(** X20.  How an exception leaves [main], whatever the numbers are, as
    long as the literals 2 and 40 are not equal to zero: an error of
    the file other than the two that are handled, before anything is
    written; a file that holds something else than a dictionary of
    dictionaries, after the first line; an exception of the builder,
    which is called outside every [try], after the first line too --
    the error of a coordinate that [float] does not convert, or the
    [ValueError] of [haversine_distance] on the coordinates of two
    stations; or the end of the input at the question whether to go on,
    after a build that succeeded.  With the default speed the build
    divides by nothing that is zero. *)
Theorem main_uncaught_causes
        (W : Type) (HW : Weight W) (HF : Floating W)
        (strip lower : string -> string)
        (load : load_result W) (inputs : list string)
        (outs : list (output W)) (x : main_exn) :
  weqb (of_Z 2) w0 = false ->
  weqb (of_Z 40) w0 = false ->
  main strip lower load inputs = Some (outs, Uncaught x) ->
  (load = OtherLoadError /\ x = LoadError /\ outs = []) \/
  (load = NotStations /\ x = DataError /\ outs = [DataLoaded]) \/
  (exists stations_data e,
      load = Loaded stations_data /\ x = Core e /\ outs = [DataLoaded] /\
      build_metro_graph stations_data (of_Z 40) (of_Z 4) = Raise e /\
      ((exists name data v,
           In (name, data) stations_data /\
           (latitude data = Some v \/ longitude data = Some v) /\
           py_float v = Raise e) \/
       (e = ValueError /\
        exists g0 station_details a b lat1 lon1 lat2 lon2 lines1 lines2,
          add_nodes stations_data [] [] = Ok (g0, station_details) /\
          both_located station_details a b lat1 lon1 lat2 lon2
                       lines1 lines2 /\
          haversine_distance lat1 lon1 lat2 lon2 = Raise ValueError))) \/
  (exists stations_data g station_details outs',
      load = Loaded stations_data /\ x = EOFError /\
      build_metro_graph stations_data (of_Z 40) (of_Z 4)
      = Ok (g, station_details) /\
      outs = outs' ++ [PromptAgain]).
Proof.
  intros H2 H40 Hm. destruct load as [stations_data| | | |];
    try discriminate.
  - right. right. unfold main in Hm.
    destruct (build_metro_graph stations_data (of_Z 40) (of_Z 4))
      as [[g d]|e] eqn:Hb.
    + right.
      destruct (query_loop strip lower g (sorted (dict_keys d))
                           (S (List.length inputs)) inputs)
        as [[o e']|] eqn:E; [|discriminate].
      cbn [and_then] in Hm. injection Hm as <- ->.
      destruct (@query_loop_ending W HW strip lower g _ _ _ _ _ E)
        as ([He|He] & outs' & ->); [discriminate|].
      injection He as ->.
      exists stations_data, g, d,
             (([DataLoaded; GraphBuilt; StationsHeader]
                 ++ station_lines 0 (sorted (dict_keys d))) ++ outs').
      split; [reflexivity|]. split; [reflexivity|].
      split; [exact Hb|]. now rewrite <- !app_assoc.
    + left. injection Hm as <- <-. exists stations_data, e.
      do 3 (split; [reflexivity|]). split; [exact Hb|].
      destruct (build_outcome HF stations_data (of_Z 40) (of_Z 4) H2)
        as [(g & d & H)|[(e' & name & data & v & H & H1 & H3 & H4)|
                         [[H Hz]|[H Hv]]]].
      * congruence.
      * left. exists name, data, v. split; [exact H1|].
        split; [exact H3|]. congruence.
      * congruence.
      * right. split; [congruence | exact Hv].
  - right. left. injection Hm as <- <-. auto.
  - left. injection Hm as <- <-. auto.
Qed.

(** X21.  What [main] prints about routes is right, when the weights of
    the graph it built are not negative and are numbers that obey the
    laws -- of the floats: not NaN, not negative.  A route line shows a
    route of a query that was typed in -- two names of the list and
    the disabled names, on three lines that follow each other -- it
    avoids the disabled stations, the line after it shows its time,
    which is below infinity, and no route of that query takes less; and
    when [main] prints that no path was found, every route the graph has
    for such a query costs infinity or more, if it has one at all.  The
    weights of a route are added up from the start, as the search adds
    them: the sums may round, and may overflow to infinity. *)
Theorem main_routes_are_quickest
        (W : Type) (HW : Weight W) (HF : Floating W)
        (good : W -> bool) (HG : LawsOn good)
        (strip lower : string -> string)
        (stations_data : dict (station_record W))
        (g : graph W) (station_details : dict (station_detail W))
        (inputs : list string) (outs : list (output W)) (ending : ending) :
  build_metro_graph stations_data (of_Z 40) (of_Z 4)
  = Ok (g, station_details) ->
  graph_nonneg g = true ->
  graph_good good g = true ->
  main strip lower (Loaded stations_data) inputs = Some (outs, ending) ->
  (forall path,
      In (RouteLine path) outs ->
      exists s e dis t,
        typed_query strip (sorted (dict_keys station_details)) inputs
                    s e dis /\
        followed_by (RouteLine path) (TimeLine (Fin t)) outs /\
        is_path g dis s e path t /\
        wlt_inf t = true /\
        forall p c, is_path g dis s e p c -> wle t c) /\
  (In NoPathFound outs ->
   exists s e dis,
     typed_query strip (sorted (dict_keys station_details)) inputs s e dis /\
     forall p c, is_path g dis s e p c -> wlt_inf c = false).
Proof.
  intros Hb Hnn Hgood Hm.
  destruct (@main_reports W HW HF good HG strip lower stations_data g
              station_details Hb Hnn Hgood inputs outs ending Hm)
    as (_ & H2 & H3).
  split; assumption.
Qed.

Lemma station_lines_nth (W : Type) (names : list string) :
  forall i k name,
    nth_error names k = Some name ->
    nth_error (@station_lines W i names) k
    = Some (StationLine (i + k + 1) name).
Proof.
  induction names as [|n names IH]; intros i k name Hk;
    [destruct k; discriminate|].
  destruct k as [|k]; simpl in Hk |- *.
  - injection Hk as <-. now rewrite Nat.add_0_r.
  - rewrite (IH (S i) k name Hk). do 2 f_equal. lia.
Qed.

(** X22.  After its first three lines [main] lists the stations: every
    station of the file once, in ascending order of the names, numbered
    from one. *)
Theorem main_lists_the_stations
        (W : Type) (HW : Weight W) (HF : Floating W)
        (strip lower : string -> string)
        (stations_data : dict (station_record W))
        (g : graph W) (station_details : dict (station_detail W))
        (inputs : list string) (outs : list (output W)) (ending : ending) :
  build_metro_graph stations_data (of_Z 40) (of_Z 4)
  = Ok (g, station_details) ->
  main strip lower (Loaded stations_data) inputs = Some (outs, ending) ->
  exists names rest,
    outs = [DataLoaded; GraphBuilt; StationsHeader]
             ++ station_lines 0 names ++ rest /\
    Sorted str_le names /\ NoDup names /\
    (forall x, In x names <-> dict_mem stations_data x = true) /\
    (forall k name, nth_error names k = Some name ->
                    nth_error outs (3 + k) = Some (StationLine (k + 1) name)).
Proof.
  intros Hb Hm. unfold main in Hm. rewrite Hb in Hm.
  set (names := sorted (dict_keys station_details)) in Hm.
  destruct (query_loop strip lower g names (S (List.length inputs)) inputs)
    as [[rest e]|]; [|discriminate].
  cbn [and_then] in Hm. injection Hm as <- <-.
  pose proof Hb as Hk. apply build_details_keys in Hk.
  destruct Hk as [Hk Hwf].
  exists names, rest. split; [rewrite <- ?app_assoc; reflexivity|].
  split; [apply sorted_Sorted|]. split; [|split].
  - apply (Permutation_NoDup (Permutation_sym (sorted_perm _))).
    now apply nodup_keys_NoDup.
  - intros x. rewrite <- Hk, dict_mem_keys. split; intros Hx.
    + exact (Permutation_in _ (sorted_perm _) Hx).
    + exact (Permutation_in _ (Permutation_sym (sorted_perm _)) Hx).
  - intros k name Hn. rewrite <- ?app_assoc. cbn [app nth_error Nat.add].
    rewrite nth_error_app1
      by (apply nth_error_Some; rewrite (station_lines_nth W _ 0 _ Hn);
          discriminate).
    now rewrite (station_lines_nth W _ 0 _ Hn).
Qed.

(* ------------------------------------------------------------------ *)
(** *** A run on the two stations *)

Lemma Rltb_irrefl (x : R) : Rltb x x = false.
Proof. apply Rltb_false. lra. Qed.

(** One round of the loop of the search. *)
Lemma dijkstra_loop_S (W : Type) (HW : Weight W) (g : graph W)
      (end_node : string) (disabled_stations : list string)
      (rfuel fuel : nat) (st : state W) :
  dijkstra_loop g end_node disabled_stations rfuel (S fuel) st =
  match heappop (priority_queue st) with
  | None => Some (Ok NoRoute)
  | Some ((current_distance, current_node), pq') =>
      let st' := mkState (distances st) (previous_nodes st) pq' in
      if str_in current_node disabled_stations
      then dijkstra_loop g end_node disabled_stations rfuel fuel st'
      else
        match dict_get (distances st) current_node with
        | None => Some (Raise KeyError)
        | Some dc =>
            if ext_ltb dc (Fin current_distance)
            then dijkstra_loop g end_node disabled_stations rfuel fuel st'
            else if String.eqb current_node end_node
            then
              match reconstruct rfuel (previous_nodes st)
                                (Some current_node) [] with
              | None => None
              | Some (Raise e) => Some (Raise e)
              | Some (Ok path) =>
                  match dict_get (distances st) end_node with
                  | None => Some (Raise KeyError)
                  | Some t => Some (Ok (Route t path))
                  end
              end
            else
              match dict_get g current_node with
              | None => Some (Raise KeyError)
              | Some items =>
                  match relax disabled_stations current_distance
                              current_node items st' with
                  | None => Some (Raise KeyError)
                  | Some st'' =>
                      dijkstra_loop g end_node disabled_stations rfuel fuel
                                    st''
                  end
              end
        end
  end.
Proof. reflexivity. Qed.

Ltac search_round :=
  rewrite dijkstra_loop_S;
  cbn [priority_queue distances previous_nodes heappop heap_min heap_remove
       fst snd w0 wadd str_in dict_get dict_set dict_const map relax
       heappush app reconstruct String.eqb Ascii.eqb Bool.eqb andb];
  unfold entry_eqb, ext_ltb;
  cbn [fst snd weqb wltb wlt_inf w0 wadd Weight_R];
  rewrite ?Reqb_refl, ?Rltb_irrefl;
  cbn [priority_queue distances previous_nodes heappop heap_min heap_remove
       fst snd w0 wadd str_in dict_get dict_set dict_const map relax
       heappush app reconstruct String.eqb Ascii.eqb Bool.eqb andb].

Lemma two_search :
  dijkstra two_graph "A" "B" []
  = Some (Ok (Route (Fin (0 + two_weight)%R) ["A"; "B"])).
Proof.
  unfold dijkstra, dijkstra_fuel, initial_state, two_graph.
  cbn [edge_count fold_right snd List.length Nat.add].
  search_round. search_round. reflexivity.
Qed.

Lemma two_run :
  @main R Weight_R (Floating_R no_parse) as_typed as_typed
        (Loaded two_stations) two_inputs
  = Some (two_outputs, Returned).
Proof.
  unfold main.
  change (@build_metro_graph R Weight_R (Floating_R no_parse) two_stations
            (@of_Z R Weight_R (Floating_R no_parse) 40)
            (@of_Z R Weight_R (Floating_R no_parse) 4))
    with (build_R two_stations 40 4).
  rewrite two_build.
  replace (sorted (dict_keys two_details)) with ["A"; "B"; "C"]
    by (vm_compute; reflexivity).
  unfold two_inputs, as_typed.
  cbn [List.length query_loop query str_in String.eqb Ascii.eqb Bool.eqb
       negb].
  replace (disabled_names (fun s : string => s) "") with (@nil string)
    by (vm_compute; reflexivity).
  replace (disabled_warning (W := R) ["A"; "B"; "C"] [])
    with (@nil (output R)) by reflexivity.
  replace (valid_disabled ["A"; "B"; "C"] []) with (@nil string)
    by reflexivity.
  cbn [str_in]. rewrite two_search.
  cbn [String.eqb Ascii.eqb Bool.eqb negb and_then app].
  reflexivity.
Qed.

Lemma main_uncaught_causes_witness :
  (Loaded null_station = OtherLoadError /\ Core TypeError = LoadError /\
   [@DataLoaded R] = []) \/
  (Loaded null_station = NotStations /\ Core TypeError = DataError /\
   [@DataLoaded R] = [DataLoaded]) \/
  (exists stations_data e,
      Loaded null_station = Loaded stations_data /\
      Core TypeError = Core e /\ [@DataLoaded R] = [DataLoaded] /\
      @build_metro_graph R Weight_R (Floating_R no_parse) stations_data
                         40%R 4%R = Raise e /\
      ((exists name data v,
           In (name, data) stations_data /\
           (latitude data = Some v \/ longitude data = Some v) /\
           @py_float R Weight_R (Floating_R no_parse) v = Raise e) \/
       (e = ValueError /\
        exists g0 station_details a b lat1 lon1 lat2 lon2 lines1 lines2,
          @add_nodes R Weight_R (Floating_R no_parse) stations_data [] []
          = Ok (g0, station_details) /\
          both_located station_details a b lat1 lon1 lat2 lon2
                       lines1 lines2 /\
          @haversine_distance R Weight_R (Floating_R no_parse)
                              lat1 lon1 lat2 lon2 = Raise ValueError))) \/
  (exists stations_data g station_details outs',
      Loaded null_station = Loaded stations_data /\
      Core TypeError = EOFError /\
      @build_metro_graph R Weight_R (Floating_R no_parse) stations_data
                         40%R 4%R = Ok (g, station_details) /\
      [@DataLoaded R] = outs' ++ [PromptAgain]).
Proof.
  apply (@main_uncaught_causes R Weight_R (Floating_R no_parse)
           as_typed as_typed (Loaded null_station) [] [DataLoaded]
           (Core TypeError)).
  - exact Reqb_2.
  - exact Reqb_40.
  - reflexivity.
Defined.

Lemma main_routes_are_quickest_witness :
  (forall path,
      In (RouteLine path) two_outputs ->
      exists s e dis t,
        typed_query as_typed (sorted (dict_keys two_details)) two_inputs
                    s e dis /\
        followed_by (RouteLine path) (TimeLine (Fin t)) two_outputs /\
        is_path two_graph dis s e path t /\
        wlt_inf t = true /\
        forall p c, is_path two_graph dis s e p c -> wle t c) /\
  (In NoPathFound two_outputs ->
   exists s e dis,
     typed_query as_typed (sorted (dict_keys two_details)) two_inputs
                 s e dis /\
     forall p c, is_path two_graph dis s e p c -> wlt_inf c = false).
Proof.
  exact (@main_routes_are_quickest R Weight_R (Floating_R no_parse)
           (fun _ => true) (LawsOn_all WeightLaws_R) as_typed as_typed
           two_stations two_graph two_details two_inputs two_outputs
           Returned two_build two_nonneg (graph_good_all two_graph)
           two_run).
Defined.

Lemma main_lists_the_stations_witness :
  exists names rest,
    two_outputs = [DataLoaded; GraphBuilt; StationsHeader]
                    ++ station_lines 0 names ++ rest /\
    Sorted str_le names /\ NoDup names /\
    (forall x, In x names <-> dict_mem two_stations x = true) /\
    (forall k name, nth_error names k = Some name ->
                    nth_error two_outputs (3 + k)
                    = Some (StationLine (k + 1) name)).
Proof.
  exact (@main_lists_the_stations R Weight_R (Floating_R no_parse)
           as_typed as_typed two_stations two_graph two_details two_inputs
           two_outputs Returned two_build two_run).
Defined.

(** X23.  A journey from a station to itself takes no time: for a start
    that is a key of the graph and is not disabled, the search returns
    the time zero and the path of that one station. *)
Theorem dijkstra_same_station
        (W : Type) (HW : Weight W) (HL : WeightLaws W)
        (g : graph W) (start_node : string)
        (disabled_stations : list string) :
  dict_mem g start_node = true ->
  str_in start_node disabled_stations = false ->
  dijkstra g start_node start_node disabled_stations
  = Some (Ok (Route (Fin w0) [start_node])).
Proof.
  intros Hs Hdis. unfold dijkstra, dijkstra_fuel.
  replace (edge_count g + 2) with (S (edge_count g + 1)) by lia.
  rewrite dijkstra_loop_S. unfold initial_state.
  cbn [priority_queue distances previous_nodes heappop heap_min].
  cbv zeta. rewrite Hdis, dict_get_set_eq.
  unfold ext_ltb. rewrite wltb_irrefl, String.eqb_refl.
  cbn [reconstruct]. rewrite dict_get_const, Hs.
  destruct (edge_count g + 1); reflexivity.
Qed.

Lemma dijkstra_same_station_witness :
  dijkstra xyz_graph "X" "X" ["Y"] = Some (Ok (Route (Fin 0%Z) ["X"])).
Proof.
  apply (@dijkstra_same_station Z Weight_Z WeightLaws_Z xyz_graph "X" ["Y"]);
    reflexivity.
Defined.
